(** * UIEE core engine: a shallow embedding of [uiee_engine.cpp] / [uiee_engine.h]

    The engine's [double] values are IEEE-754 binary64 numbers; they are
    embedded as Rocq's primitive floats, whose comparisons and arithmetic are
    the binary64 ones (round to nearest even).  [int] and [size_t] values
    are embedded as [Z] and [nat]; [std::vector] as [list]; [std::string] as
    [string]. *)

From Stdlib Require Import Floats ZArith List Bool Lia Arith PeanoNat.
From Stdlib Require Import Ascii String.
Import ListNotations.

Set Warnings "-inexact-float".

(** ** C++ comparisons and [std::min] / [std::max] on [double] *)

Module Dbl.

Definition double := float.
#[global] Bind Scope float_scope with double.

(** [a < b], [a <= b], [a > b], [a >= b] as C++ evaluates them: the last two
    are the first two with the operands exchanged; every comparison with a
    NaN operand is false. *)
Definition lt (a b : double) : bool := PrimFloat.ltb a b.
Definition le (a b : double) : bool := PrimFloat.leb a b.
Definition gt (a b : double) : bool := PrimFloat.ltb b a.
Definition ge (a b : double) : bool := PrimFloat.leb b a.

(** [std::max(a, b)] is [(a < b) ? b : a]; [std::min(a, b)] is
    [(b < a) ? b : a]. *)
Definition std_max (a b : double) : double := if lt a b then b else a.
Definition std_min (a b : double) : double := if lt b a then b else a.

(** Conversion of a [size_t] or [int] to [double]. *)
Definition of_nat (n : nat) : double :=
  PrimFloat.of_uint63 (Uint63.of_Z (Z.of_nat n)).

End Dbl.

Import Dbl.

(** Used by the order lemmas: which comparison two chained comparisons
    compose to. *)
Definition chain (c1 c2 : comparison) : comparison :=
  match c1, c2 with
  | Eq, Eq => Eq
  | _, _ => Lt
  end.

(** ** Data model ([uiee_engine.h]) *)

Record PerformanceMetrics := {
  cpu_usage : double;
  memory_usage : double;
  gpu_usage : double;
  thermal_state : double;
  battery_level : double;
  responsiveness_score : double;
  fluency_score : double;
  efficiency_score : double;
  ces_score : double
}.

Inductive SceneType :=
| SCENE_GAME | SCENE_SOCIAL | SCENE_MEDIA | SCENE_PRODUCTIVITY | SCENE_UNKNOWN.

Record CTOConfig := {
  enable_task_binding : bool;
  enable_io_scheduling : bool;
  enable_cpu_affinity : bool;
  max_bound_cores : Z
}.

Record Config := {
  enable_engine : bool;
  scheduling_interval : Z;
  optimization_enabled : bool;
  responsiveness_weight : double;
  fluency_weight : double;
  efficiency_weight : double;
  thermal_weight : double;
  current_scene : SceneType;
  cto_config : CTOConfig
}.

(** The member initialisers of [struct Config]; [cto_config] has none and is
    whatever the enclosing object was given. *)
Definition default_Config (cto : CTOConfig) : Config := {|
  enable_engine := true;
  scheduling_interval := 5;
  optimization_enabled := true;
  responsiveness_weight := 0.3;
  fluency_weight := 0.3;
  efficiency_weight := 0.2;
  thermal_weight := 0.2;
  current_scene := SCENE_UNKNOWN;
  cto_config := cto
|}.

(** ** [calculateCES] *)

Definition calculateCES (config_ : Config) (metrics : PerformanceMetrics)
  : double :=
  let ces_score :=
    (responsiveness_weight config_ * responsiveness_score metrics +
     fluency_weight config_ * fluency_score metrics +
     efficiency_weight config_ * efficiency_score metrics -
     thermal_weight config_ * thermal_state metrics)%float in
  std_max 0 (std_min 100 ces_score).

(** ** Pareto frontier ([calculateParetoFrontier]) *)

Record ParetoPoint := {
  performance : double;
  power_consumption : double;
  thermal_impact : double;
  parameters : list double
}.

(** The condition of the inner [if]: [other] dominates [point]. *)
Definition dominates (other point : ParetoPoint) : bool :=
  ge (performance other) (performance point) &&
  le (power_consumption other) (power_consumption point) &&
  le (thermal_impact other) (thermal_impact point) &&
  (gt (performance other) (performance point) ||
   lt (power_consumption other) (power_consumption point) ||
   lt (thermal_impact other) (thermal_impact point)).

(** The inner loop over [points] for the point at index [i]: [j] is the index
    of the head of [others].  [&point == &other] holds exactly when both
    references are to the same element of the vector, i.e. [i = j]; the
    [break] leaves the loop with [is_dominated = true]. *)
Fixpoint is_dominated (i : nat) (point : ParetoPoint)
  (j : nat) (others : list ParetoPoint) : bool :=
  match others with
  | [] => false
  | other :: rest =>
      if Nat.eqb i j then is_dominated i point (S j) rest
      else if dominates other point then true
      else is_dominated i point (S j) rest
  end.

(** The outer loop: [i] is the index in [points] of the head of [todo]. *)
Fixpoint frontier_loop (points : list ParetoPoint)
  (i : nat) (todo : list ParetoPoint) : list ParetoPoint :=
  match todo with
  | [] => []
  | point :: rest =>
      if is_dominated i point 0 points
      then frontier_loop points (S i) rest
      else point :: frontier_loop points (S i) rest
  end.

Definition calculateParetoFrontier (points : list ParetoPoint)
  : list ParetoPoint :=
  frontier_loop points 0 points.

(** The specification's reading: [p] has no dominator among [points]. *)
Definition has_no_dominator (points : list ParetoPoint) (p : ParetoPoint)
  : bool :=
  negb (existsb (fun o => dominates o p) points).

(** The points of [points] that dominate [p]: the measure of the descent
    from an excluded point to a frontier point that dominates it. *)
Definition dominators (points : list ParetoPoint) (p : ParetoPoint)
  : list ParetoPoint :=
  filter (fun o => dominates o p) points.

(** ** Scene-weighted optimum ([findOptimalPoint]) *)

(** [ParetoPoint{}]: value-initialised, every member zero and no parameter. *)
Definition ParetoPoint_zero : ParetoPoint := {|
  performance := 0;
  power_consumption := 0;
  thermal_impact := 0;
  parameters := []
|}.

(** [ParetoPoint optimal;] is default-initialised: its [parameters] vector is
    empty and its three [double] members are left indeterminate.  [junk]
    stands for what those members happen to hold. *)
Record Indeterminate := {
  junk_performance : double;
  junk_power_consumption : double;
  junk_thermal_impact : double
}.

Definition ParetoPoint_uninitialized (junk : Indeterminate) : ParetoPoint := {|
  performance := junk_performance junk;
  power_consumption := junk_power_consumption junk;
  thermal_impact := junk_thermal_impact junk;
  parameters := []
|}.

(** The weights the [switch] leaves in [performance_weight], [power_weight]
    and [thermal_weight]; the [default] branch keeps the initial values. *)
Definition scene_weights (scene : SceneType) : double * double * double :=
  match scene with
  | SCENE_GAME => (0.6, 0.2, 0.2)
  | SCENE_SOCIAL => (0.3, 0.4, 0.3)
  | SCENE_MEDIA => (0.4, 0.3, 0.3)
  | SCENE_PRODUCTIVITY => (0.5, 0.3, 0.2)
  | SCENE_UNKNOWN => (0.4, 0.3, 0.3)
  end%float.

Definition point_score (scene : SceneType) (point : ParetoPoint) : double :=
  let '(performance_weight, power_weight, thermal_weight) :=
    scene_weights scene in
  (performance_weight * performance point -
   power_weight * power_consumption point -
   thermal_weight * thermal_impact point)%float.

(** The loop over [frontier], carrying [best_score] and [optimal]. *)
Fixpoint optimal_loop (scene : SceneType) (best_score : double)
  (optimal : ParetoPoint) (frontier : list ParetoPoint) : ParetoPoint :=
  match frontier with
  | [] => optimal
  | point :: rest =>
      let score := point_score scene point in
      if gt score best_score
      then optimal_loop scene score point rest
      else optimal_loop scene best_score optimal rest
  end.

Definition findOptimalPoint (config_ : Config) (junk : Indeterminate)
  (frontier : list ParetoPoint) : ParetoPoint :=
  match frontier with
  | [] => ParetoPoint_zero
  | _ :: _ =>
      optimal_loop (current_scene config_) (-1)
                   (ParetoPoint_uninitialized junk) frontier
  end.

(** ** Equilibrium iteration ([calculateNashEquilibrium]) *)

Record NashEquilibrium := {
  strategies : list double;
  utility_value : double
}.

(** [v[j]] for an index within the vector. *)
Definition at_index (v : list double) (j : nat) : double := nth j v 0%float.

(** The inner [j] loop: the expected payoff of row [row] against
    [strategies], accumulated from [0.0] in index order.  [strategies] has
    [num_strategies] entries; [payoff_matrix[i][j]] is read for every [j]
    below the number of rows, and on a row with fewer entries the read is
    past the end of the row: undefined behaviour, [None] here and in all
    that follows. *)
Definition expected_payoff (num_strategies : nat) (strategies row : list double)
  : option double :=
  fold_left (fun acc j =>
               match acc, nth_error row j with
               | Some acc, Some payoff =>
                   Some (acc + at_index strategies j * payoff)%float
               | _, _ => None
               end)
            (seq 0 num_strategies) (Some 0%float).

(** All the values, when every one is defined. *)
Fixpoint all_defined {A} (l : list (option A)) : option (list A) :=
  match l with
  | [] => Some []
  | x :: rest =>
      match x, all_defined rest with
      | Some a, Some values => Some (a :: values)
      | _, _ => None
      end
  end.

(** [new_strategies] after the [i] loop: a copy of the current vector (of
    size [num_strategies]) with every entry replaced. *)
Definition clamped_payoffs (payoff_matrix : list (list double))
  (strategies : list double) : option (list double) :=
  let num_strategies := List.length payoff_matrix in
  all_defined
    (map (fun i => option_map (std_max 0)
                     (expected_payoff num_strategies strategies
                                      (nth i payoff_matrix [])))
         (seq 0 num_strategies)).

Definition vector_sum (v : list double) : double :=
  fold_left (fun sum strategy => (sum + strategy)%float) v 0%float.

(** The normalisation step, guarded by [if (sum > 0)]. *)
Definition normalize (new_strategies : list double) : list double :=
  let sum := vector_sum new_strategies in
  if gt sum 0 then map (fun strategy => (strategy / sum)%float) new_strategies
  else new_strategies.

Definition convergence_threshold : double := 1e-6.

(** The convergence loop: [converged] stays [true] unless some entry moved by
    more than the threshold.  Both vectors have [num_strategies] entries. *)
Definition converged (num_strategies : nat) (new_strategies old : list double)
  : bool :=
  forallb (fun i =>
             negb (gt (PrimFloat.abs (at_index new_strategies i -
                                      at_index old i))
                      convergence_threshold))
          (seq 0 num_strategies).

Definition nash_step (payoff_matrix : list (list double))
  (strategies : list double) : option (list double) :=
  option_map normalize (clamped_payoffs payoff_matrix strategies).

(** The [for (iter ...)] loop with [remaining] iterations left. *)
Fixpoint nash_iterate (remaining : nat) (payoff_matrix : list (list double))
  (strategies : list double) : option (list double) :=
  match remaining with
  | O => Some strategies
  | S remaining' =>
      match nash_step payoff_matrix strategies with
      | None => None
      | Some new_strategies =>
          if converged (List.length payoff_matrix) new_strategies strategies
          then Some new_strategies
          else nash_iterate remaining' payoff_matrix new_strategies
      end
  end.

Definition max_iterations : nat := 100.

(** The utility loop; it reads [payoff_matrix[i][j]] over the same range as
    the iteration does. *)
Definition quadratic_form (payoff_matrix : list (list double))
  (strategies : list double) : option double :=
  let num_strategies := List.length payoff_matrix in
  fold_left
    (fun acc i =>
       fold_left
         (fun acc j =>
            match acc, nth_error (nth i payoff_matrix []) j with
            | Some acc, Some payoff =>
                Some (acc + at_index strategies i * at_index strategies j *
                            payoff)%float
            | _, _ => None
            end)
         (seq 0 num_strategies) acc)
    (seq 0 num_strategies) (Some 0%float).

(** [junk_utility] is what the uninitialised [utility_value] member holds
    when the matrix is empty and the function returns at once.  The result
    is [None] when the call reads past the end of a row. *)
Definition calculateNashEquilibrium (junk_utility : double)
  (payoff_matrix : list (list double)) : option NashEquilibrium :=
  let num_strategies := List.length payoff_matrix in
  match num_strategies with
  | O => Some {| strategies := []; utility_value := junk_utility |}
  | S _ =>
      let initial :=
        repeat (1 / Dbl.of_nat num_strategies)%float num_strategies in
      match nash_iterate max_iterations payoff_matrix initial with
      | None => None
      | Some final =>
          option_map (fun utility => {| strategies := final;
                                        utility_value := utility |})
                     (quadratic_form payoff_matrix final)
      end
  end.


(** ** Engine state *)

Record TaskInfo := {
  name : string;
  pid : Z;
  priority : Z;
  app_type : string;
  cpu_affinity : double;
  is_foreground : bool;
  start_time : Z
}.

(** A log line without its timestamp: the level and the pieces the message is
    concatenated from ([std::to_string] of a number is kept as the number). *)
Inductive LogLevel := INFO | ERROR | WARNING | PERF.

Inductive MessagePart :=
| Text (s : string)
| Int (z : Z)
| Real (d : double).

Record LogEntry := {
  level : LogLevel;
  message : list MessagePart
}.

Record PerformanceMonitor := {
  cpu_usage_samples : list double;
  memory_usage_samples : list double;
  sample_index : nat;
  avg_cpu_usage : double;
  avg_memory_usage : double;
  is_high_performance_mode : bool
}.

Record AdaptiveSamplingConfig := {
  base_sampling_interval : double;
  min_sampling_interval : double;
  max_sampling_interval : double;
  cpu_threshold_high : double;
  cpu_threshold_low : double;
  memory_threshold_high : double;
  memory_threshold_low : double;
  adaptation_window : Z
}.

Record PerformanceOptimizationConfig := {
  enable_cache : bool;
  enable_adaptive_sampling : bool;
  enable_thread_pool : bool;
  enable_memory_pool : bool;
  enable_performance_monitoring : bool;
  cache_size : nat;
  thread_pool_size : nat;
  memory_pool_block_size : nat;
  performance_threshold : double
}.

Record FitnessIndividual := {
  fi_parameters : list double;
  fitness_score : double;
  performance_score : double;
  fi_efficiency_score : double;
  energy_cost : double;
  creation_time : Z;
  last_update_time : Z;
  fi_generation : Z;
  is_valid : bool;
  update_count : Z
}.

(** [PopulationEvolutionManager] is only declared in the header; the engine
    uses it through its two getters, whose results are kept here. *)
Record PopulationEvolutionManager := {
  getBestIndividual : FitnessIndividual;
  getCurrentPopulation : list FitnessIndividual
}.

Record EvolutionHistory := {
  generation : Z;
  best_fitness : double;
  average_fitness : double;
  diversity_score : double;
  timestamp : Z;
  best_parameters : list double
}.

Record EvolutionConfig := {
  alpha_weight : double;
  beta_weight : double;
  gamma_weight : double;
  population_size : nat;
  max_generations : Z;
  mutation_rate : double;
  crossover_rate : double;
  ec_convergence_threshold : double
}.

(** The members of [UIEECoreEngine] the modelled methods read or write.  A
    [std::thread] member is kept as its [joinable()] flag, a smart pointer as
    an [option] ([None] when null), and the output of the log sink as the list
    of entries written so far, oldest first. *)
Record Engine := {
  running_ : bool;
  main_thread_ : bool;
  monitor_thread_ : bool;
  config_ : Config;
  active_tasks_ : list TaskInfo;
  performance_history_ : list PerformanceMetrics;
  performance_monitor_ : option PerformanceMonitor;
  adaptive_config_ : AdaptiveSamplingConfig;
  optimization_config_ : PerformanceOptimizationConfig;
  population_manager_ : option PopulationEvolutionManager;
  evolution_active_ : bool;
  current_generation_ : Z;
  evolution_history_ : list EvolutionHistory;
  evolution_config_ : EvolutionConfig;
  log_ : list LogEntry
}.

Definition MAX_HISTORY_SIZE : nat := 1000.

(** Member updates. *)
Definition set_running_ (v : bool) (e : Engine) : Engine :=
  {| running_ := v; main_thread_ := main_thread_ e;
     monitor_thread_ := monitor_thread_ e; config_ := config_ e;
     active_tasks_ := active_tasks_ e;
     performance_history_ := performance_history_ e;
     performance_monitor_ := performance_monitor_ e;
     adaptive_config_ := adaptive_config_ e;
     optimization_config_ := optimization_config_ e;
     population_manager_ := population_manager_ e;
     evolution_active_ := evolution_active_ e;
     current_generation_ := current_generation_ e;
     evolution_history_ := evolution_history_ e;
     evolution_config_ := evolution_config_ e; log_ := log_ e |}.

Definition set_threads (main monitor : bool) (e : Engine) : Engine :=
  {| running_ := running_ e; main_thread_ := main;
     monitor_thread_ := monitor; config_ := config_ e;
     active_tasks_ := active_tasks_ e;
     performance_history_ := performance_history_ e;
     performance_monitor_ := performance_monitor_ e;
     adaptive_config_ := adaptive_config_ e;
     optimization_config_ := optimization_config_ e;
     population_manager_ := population_manager_ e;
     evolution_active_ := evolution_active_ e;
     current_generation_ := current_generation_ e;
     evolution_history_ := evolution_history_ e;
     evolution_config_ := evolution_config_ e; log_ := log_ e |}.

Definition set_config_ (v : Config) (e : Engine) : Engine :=
  {| running_ := running_ e; main_thread_ := main_thread_ e;
     monitor_thread_ := monitor_thread_ e; config_ := v;
     active_tasks_ := active_tasks_ e;
     performance_history_ := performance_history_ e;
     performance_monitor_ := performance_monitor_ e;
     adaptive_config_ := adaptive_config_ e;
     optimization_config_ := optimization_config_ e;
     population_manager_ := population_manager_ e;
     evolution_active_ := evolution_active_ e;
     current_generation_ := current_generation_ e;
     evolution_history_ := evolution_history_ e;
     evolution_config_ := evolution_config_ e; log_ := log_ e |}.

Definition set_active_tasks_ (v : list TaskInfo) (e : Engine) : Engine :=
  {| running_ := running_ e; main_thread_ := main_thread_ e;
     monitor_thread_ := monitor_thread_ e; config_ := config_ e;
     active_tasks_ := v;
     performance_history_ := performance_history_ e;
     performance_monitor_ := performance_monitor_ e;
     adaptive_config_ := adaptive_config_ e;
     optimization_config_ := optimization_config_ e;
     population_manager_ := population_manager_ e;
     evolution_active_ := evolution_active_ e;
     current_generation_ := current_generation_ e;
     evolution_history_ := evolution_history_ e;
     evolution_config_ := evolution_config_ e; log_ := log_ e |}.

Definition set_performance_history_ (v : list PerformanceMetrics) (e : Engine)
  : Engine :=
  {| running_ := running_ e; main_thread_ := main_thread_ e;
     monitor_thread_ := monitor_thread_ e; config_ := config_ e;
     active_tasks_ := active_tasks_ e;
     performance_history_ := v;
     performance_monitor_ := performance_monitor_ e;
     adaptive_config_ := adaptive_config_ e;
     optimization_config_ := optimization_config_ e;
     population_manager_ := population_manager_ e;
     evolution_active_ := evolution_active_ e;
     current_generation_ := current_generation_ e;
     evolution_history_ := evolution_history_ e;
     evolution_config_ := evolution_config_ e; log_ := log_ e |}.

Definition set_performance_monitor_ (v : option PerformanceMonitor)
  (e : Engine) : Engine :=
  {| running_ := running_ e; main_thread_ := main_thread_ e;
     monitor_thread_ := monitor_thread_ e; config_ := config_ e;
     active_tasks_ := active_tasks_ e;
     performance_history_ := performance_history_ e;
     performance_monitor_ := v;
     adaptive_config_ := adaptive_config_ e;
     optimization_config_ := optimization_config_ e;
     population_manager_ := population_manager_ e;
     evolution_active_ := evolution_active_ e;
     current_generation_ := current_generation_ e;
     evolution_history_ := evolution_history_ e;
     evolution_config_ := evolution_config_ e; log_ := log_ e |}.

Definition set_adaptive_config_ (v : AdaptiveSamplingConfig) (e : Engine)
  : Engine :=
  {| running_ := running_ e; main_thread_ := main_thread_ e;
     monitor_thread_ := monitor_thread_ e; config_ := config_ e;
     active_tasks_ := active_tasks_ e;
     performance_history_ := performance_history_ e;
     performance_monitor_ := performance_monitor_ e;
     adaptive_config_ := v;
     optimization_config_ := optimization_config_ e;
     population_manager_ := population_manager_ e;
     evolution_active_ := evolution_active_ e;
     current_generation_ := current_generation_ e;
     evolution_history_ := evolution_history_ e;
     evolution_config_ := evolution_config_ e; log_ := log_ e |}.

Definition set_evolution_active_ (v : bool) (e : Engine) : Engine :=
  {| running_ := running_ e; main_thread_ := main_thread_ e;
     monitor_thread_ := monitor_thread_ e; config_ := config_ e;
     active_tasks_ := active_tasks_ e;
     performance_history_ := performance_history_ e;
     performance_monitor_ := performance_monitor_ e;
     adaptive_config_ := adaptive_config_ e;
     optimization_config_ := optimization_config_ e;
     population_manager_ := population_manager_ e;
     evolution_active_ := v;
     current_generation_ := current_generation_ e;
     evolution_history_ := evolution_history_ e;
     evolution_config_ := evolution_config_ e; log_ := log_ e |}.

Definition set_evolution_history_ (v : list EvolutionHistory) (e : Engine)
  : Engine :=
  {| running_ := running_ e; main_thread_ := main_thread_ e;
     monitor_thread_ := monitor_thread_ e; config_ := config_ e;
     active_tasks_ := active_tasks_ e;
     performance_history_ := performance_history_ e;
     performance_monitor_ := performance_monitor_ e;
     adaptive_config_ := adaptive_config_ e;
     optimization_config_ := optimization_config_ e;
     population_manager_ := population_manager_ e;
     evolution_active_ := evolution_active_ e;
     current_generation_ := current_generation_ e;
     evolution_history_ := v;
     evolution_config_ := evolution_config_ e; log_ := log_ e |}.

Definition set_log_ (v : list LogEntry) (e : Engine) : Engine :=
  {| running_ := running_ e; main_thread_ := main_thread_ e;
     monitor_thread_ := monitor_thread_ e; config_ := config_ e;
     active_tasks_ := active_tasks_ e;
     performance_history_ := performance_history_ e;
     performance_monitor_ := performance_monitor_ e;
     adaptive_config_ := adaptive_config_ e;
     optimization_config_ := optimization_config_ e;
     population_manager_ := population_manager_ e;
     evolution_active_ := evolution_active_ e;
     current_generation_ := current_generation_ e;
     evolution_history_ := evolution_history_ e;
     evolution_config_ := evolution_config_ e; log_ := v |}.

(** [logInfo], [logError], [logWarning]: one more entry in the sink. *)
Definition log (lvl : LogLevel) (msg : list MessagePart) (e : Engine)
  : Engine :=
  set_log_ (log_ e ++ [{| level := lvl; message := msg |}]) e.

Definition logInfo := log INFO.
Definition logError := log ERROR.
Definition logWarning := log WARNING.

(** ** Lifecycle ([start], [stop]) *)

(** [join()] on a joinable thread returns once the thread's loop has seen
    [running_ == false] and written its closing line; what is left of a tick
    in progress is not part of this model. *)
Definition join_main (e : Engine) : Engine :=
  if main_thread_ e
  then set_threads false (monitor_thread_ e) (logInfo [Text "主循环结束"] e)
  else e.

Definition join_monitor (e : Engine) : Engine :=
  if monitor_thread_ e
  then set_threads (main_thread_ e) false (logInfo [Text "监控循环结束"] e)
  else e.

Definition start (e : Engine) : bool * Engine :=
  if running_ e then (false, logError [Text "引擎已在运行中"] e)
  else if negb (enable_engine (config_ e))
  then (false, logInfo [Text "引擎被配置禁用"] e)
  else (true, logInfo [Text "UIEE核心引擎启动成功"]
                (set_threads true true (set_running_ true e))).

Definition shutdown_message : list MessagePart := [Text "UIEE核心引擎已停止"].

Definition stop (e : Engine) : Engine :=
  if negb (running_ e) then e
  else logInfo shutdown_message
         (join_monitor (join_main (set_running_ false e))).

(** ** Task registry ([addTask], [removeTask], [monitoringLoop],
       [updateTaskPriorities]) *)

Definition has_pid (p : Z) (t : TaskInfo) : bool := Z.eqb (pid t) p.

Definition addTask (task : TaskInfo) (e : Engine) : Engine :=
  match find (has_pid (pid task)) (active_tasks_ e) with
  | None =>
      logInfo [Text "添加任务: "; Text (name task); Text " (PID: ";
               Int (pid task); Text ")"]
        (set_active_tasks_ (active_tasks_ e ++ [task]) e)
  | Some _ => e
  end.

(** [v.erase(it)] for the iterator [std::find_if] returned: the first element
    that satisfies [f] goes. *)
Fixpoint erase_first {A} (f : A -> bool) (v : list A) : list A :=
  match v with
  | [] => []
  | x :: rest => if f x then rest else x :: erase_first f rest
  end.

Definition removeTask (p : Z) (e : Engine) : Engine :=
  match find (has_pid p) (active_tasks_ e) with
  | Some it =>
      set_active_tasks_ (erase_first (has_pid p) (active_tasks_ e))
        (logInfo [Text "移除任务: "; Text (name it); Text " (PID: ";
                  Int p; Text ")"] e)
  | None => e
  end.

(** What one pass of the monitor loop reads from outside the engine: the pids
    under /proc, the command name of each, the clock, and the indeterminate
    value left in the member of [new_task] that is never assigned. *)
Record ProcessTable := {
  getRunningPIDs : list Z;
  getProcessName : Z -> string;
  steady_clock_now : Z;
  junk_cpu_affinity : double
}.

Definition new_task (env : ProcessTable) (p : Z) : TaskInfo := {|
  name := getProcessName env p;
  pid := p;
  priority := 0;
  app_type := "unknown";
  cpu_affinity := junk_cpu_affinity env;
  is_foreground := false;
  start_time := steady_clock_now env
|}.

(** The body of the [try] block of [monitoringLoop]: erase-remove of the
    tasks whose pid is gone, then one [push_back] per pid not yet present. *)
Definition detect_task (env : ProcessTable) (e : Engine) (p : Z) : Engine :=
  let exists_ := existsb (has_pid p) (active_tasks_ e) in
  if negb exists_
  then logInfo [Text "检测到新任务: "; Text (getProcessName env p);
                Text " (PID: "; Int p; Text ")"]
         (set_active_tasks_ (active_tasks_ e ++ [new_task env p]) e)
  else e.

Definition monitoringLoop_pass (env : ProcessTable) (e : Engine) : Engine :=
  let current_pids := getRunningPIDs env in
  let gone (task : TaskInfo) :=
    negb (existsb (Z.eqb (pid task)) current_pids) in
  let e1 :=
    set_active_tasks_ (filter (fun task => negb (gone task)) (active_tasks_ e))
                      e in
  fold_left (detect_task env) current_pids e1.

Definition set_priority (v : Z) (t : TaskInfo) : TaskInfo := {|
  name := name t; pid := pid t; priority := v; app_type := app_type t;
  cpu_affinity := cpu_affinity t; is_foreground := is_foreground t;
  start_time := start_time t
|}.

Definition scene_priority (scene : SceneType) (task : TaskInfo) : Z :=
  match scene with
  | SCENE_GAME => if String.eqb (app_type task) "game" then 10 else 5
  | SCENE_SOCIAL => if String.eqb (app_type task) "social" then 8 else 3
  | SCENE_MEDIA => if String.eqb (app_type task) "media" then 7 else 4
  | SCENE_PRODUCTIVITY =>
      if String.eqb (app_type task) "productivity" then 9 else 6
  | SCENE_UNKNOWN => 5
  end.

Definition updateTaskPriorities (e : Engine) : Engine :=
  set_active_tasks_
    (map (fun task =>
            set_priority (scene_priority (current_scene (config_ e)) task) task)
         (active_tasks_ e))
    e.

(** ** Metrics and their history ([getCurrentMetrics], [mainLoop]) *)

Record Sensors := {
  getCPUUsage : double;
  getMemoryUsage : double;
  getThermalState : double
}.

Definition getCurrentMetrics (cfg : Config) (s : Sensors)
  : PerformanceMetrics :=
  let metrics := {|
    cpu_usage := getCPUUsage s;
    memory_usage := getMemoryUsage s;
    gpu_usage := 0;
    thermal_state := getThermalState s;
    battery_level := 100;
    responsiveness_score := 100 - getCPUUsage s;
    fluency_score := 100 - getThermalState s;
    efficiency_score := 100 - getMemoryUsage s;
    ces_score := 0
  |} in
  {| cpu_usage := cpu_usage metrics;
     memory_usage := memory_usage metrics;
     gpu_usage := gpu_usage metrics;
     thermal_state := thermal_state metrics;
     battery_level := battery_level metrics;
     responsiveness_score := responsiveness_score metrics;
     fluency_score := fluency_score metrics;
     efficiency_score := efficiency_score metrics;
     ces_score := calculateCES cfg metrics |}.

(** The "add to history" block of [mainLoop]: when the buffer holds
    [MAX_HISTORY_SIZE] entries or more, [erase(begin())] first, then
    [push_back]. *)
Definition performance_history_push (metrics : PerformanceMetrics)
  (e : Engine) : Engine :=
  let h := performance_history_ e in
  let h := if MAX_HISTORY_SIZE <=? List.length h then tl h else h in
  set_performance_history_ (h ++ [metrics]) e.

(** ** Evolution history ([updateEvolutionState],
       [checkEvolutionConvergence]) *)

(** One pass of the [param_idx] loop body over the population: the running
    [param_sum], [param_squared_sum] and [count]. *)
Definition param_stats (param_idx : nat) (population : list FitnessIndividual)
  : double * double * nat :=
  fold_left
    (fun '(param_sum, param_squared_sum, count) individual =>
       if is_valid individual &&
          (param_idx <? List.length (fi_parameters individual))
       then let param := at_index (fi_parameters individual) param_idx in
            ((param_sum + param)%float,
             (param_squared_sum + param * param)%float, S count)
       else (param_sum, param_squared_sum, count))
    population (0%float, 0%float, O).

Definition calculatePopulationDiversity (population : list FitnessIndividual)
  : double :=
  match population with
  | [] => 0
  | _ :: _ =>
      let total_variance :=
        fold_left
          (fun total_variance param_idx =>
             let '(param_sum, param_squared_sum, count) :=
               param_stats param_idx population in
             if 1 <? count
             then let mean := (param_sum / Dbl.of_nat count)%float in
                  let variance :=
                    (param_squared_sum / Dbl.of_nat count - mean * mean)%float
                  in (total_variance + variance)%float
             else total_variance)
          (seq 0 5) 0%float in
      (total_variance / 5)%float
  end.

Definition fitness_totals (population : list FitnessIndividual)
  : double * nat :=
  fold_left
    (fun '(total_fitness, valid_count) individual =>
       if is_valid individual
       then ((total_fitness + fitness_score individual)%float, S valid_count)
       else (total_fitness, valid_count))
    population (0%float, O).

Definition make_history (now : Z) (current_generation : Z)
  (pm : PopulationEvolutionManager) : EvolutionHistory :=
  let best_individual := getBestIndividual pm in
  let population := getCurrentPopulation pm in
  let '(total_fitness, valid_count) := fitness_totals population in
  {| generation := current_generation;
     best_fitness := fitness_score best_individual;
     average_fitness :=
       if 0 <? valid_count
       then (total_fitness / Dbl.of_nat valid_count)%float else 0%float;
     diversity_score := calculatePopulationDiversity population;
     timestamp := now;
     best_parameters := fi_parameters best_individual |}.

(** [push_back], then the size limit: above 100 entries the first one is
    erased. *)
Definition evolution_history_push (history : EvolutionHistory)
  (h : list EvolutionHistory) : list EvolutionHistory :=
  let h := h ++ [history] in
  if 100 <? List.length h then tl h else h.

Definition updateEvolutionState (now : Z) (e : Engine) : Engine :=
  match evolution_active_ e, population_manager_ e with
  | true, Some pm =>
      let history := make_history now (current_generation_ e) pm in
      set_evolution_history_
        (evolution_history_push history (evolution_history_ e)) e
  | _, _ => e
  end.

(** [evolution_history_[i].best_fitness] for an index within the vector. *)
Definition best_fitness_at (h : list EvolutionHistory) (i : nat) : double :=
  match nth_error h i with
  | Some entry => best_fitness entry
  | None => 0
  end.

Definition convergence_message : list MessagePart :=
  [Text "进化收敛检测到，停止进化过程"].

Definition checkEvolutionConvergence (e : Engine) : Engine :=
  let h := evolution_history_ e in
  match population_manager_ e with
  | None => e
  | Some _ =>
      if List.length h <? 10 then e
      else
        let recent_best := best_fitness_at h (List.length h - 1) in
        let previous_best := best_fitness_at h (List.length h - 10) in
        if lt (PrimFloat.abs (recent_best - previous_best))
              (ec_convergence_threshold (evolution_config_ e))
        then set_evolution_active_ false (logInfo convergence_message e)
        else e
  end.

(** ** Adaptive sampling ([PerformanceMonitor], [updateAdaptiveSampling]) *)

(** [a[i] = v] for an index within the array. *)
Definition store (a : list double) (i : nat) (v : double) : list double :=
  firstn i a ++ v :: skipn (S i) a.

(** The sum loop [for (int i = 0; i < 10; ++i) sum += a[i]]. *)
Definition sum10 (a : list double) : double :=
  fold_left (fun sum i => (sum + at_index a i)%float) (seq 0 10) 0%float.

(** The state the constructor of [PerformanceMonitor] leaves. *)
Definition PerformanceMonitor_new : PerformanceMonitor := {|
  cpu_usage_samples := repeat 0%float 10;
  memory_usage_samples := repeat 0%float 10;
  sample_index := 0;
  avg_cpu_usage := 0;
  avg_memory_usage := 0;
  is_high_performance_mode := false
|}.

Definition addSample (cpu memory : double) (m : PerformanceMonitor)
  : PerformanceMonitor :=
  let cpu_samples := store (cpu_usage_samples m) (sample_index m) cpu in
  let memory_samples :=
    store (memory_usage_samples m) (sample_index m) memory in
  {| cpu_usage_samples := cpu_samples;
     memory_usage_samples := memory_samples;
     sample_index := (sample_index m + 1) mod 10;
     avg_cpu_usage := sum10 cpu_samples / 10;
     avg_memory_usage := sum10 memory_samples / 10;
     is_high_performance_mode := is_high_performance_mode m |}.

Definition shouldReduceSampling (m : PerformanceMonitor) : bool :=
  gt (avg_cpu_usage m) 80 || gt (avg_memory_usage m) 85.

Definition shouldIncreaseSampling (m : PerformanceMonitor) : bool :=
  lt (avg_cpu_usage m) 20 && lt (avg_memory_usage m) 30.

Definition set_base_sampling_interval (v : double) (c : AdaptiveSamplingConfig)
  : AdaptiveSamplingConfig :=
  {| base_sampling_interval := v;
     min_sampling_interval := min_sampling_interval c;
     max_sampling_interval := max_sampling_interval c;
     cpu_threshold_high := cpu_threshold_high c;
     cpu_threshold_low := cpu_threshold_low c;
     memory_threshold_high := memory_threshold_high c;
     memory_threshold_low := memory_threshold_low c;
     adaptation_window := adaptation_window c |}.

(** The constructor of [AdaptiveSamplingConfig]. *)
Definition AdaptiveSamplingConfig_new : AdaptiveSamplingConfig := {|
  base_sampling_interval := 30;
  min_sampling_interval := 5;
  max_sampling_interval := 120;
  cpu_threshold_high := 80;
  cpu_threshold_low := 20;
  memory_threshold_high := 85;
  memory_threshold_low := 30;
  adaptation_window := 10
|}.

(** The interval the [if / else if] leaves in [base_sampling_interval]. *)
Definition adapted_interval (m : PerformanceMonitor)
  (c : AdaptiveSamplingConfig) : double :=
  if shouldReduceSampling m
  then std_min (base_sampling_interval c * 1.2) (max_sampling_interval c)
  else if shouldIncreaseSampling m
  then std_max (base_sampling_interval c * 0.8) (min_sampling_interval c)
  else base_sampling_interval c.

Definition updateAdaptiveSampling (sensors : Sensors) (e : Engine) : Engine :=
  match enable_adaptive_sampling (optimization_config_ e),
        performance_monitor_ e with
  | true, Some monitor =>
      let metrics := getCurrentMetrics (config_ e) sensors in
      let monitor' :=
        addSample (cpu_usage metrics) (memory_usage metrics) monitor in
      let interval := adapted_interval monitor' (adaptive_config_ e) in
      logInfo [Text "自适应采样间隔调整: "; Real interval; Text "秒"]
        (set_adaptive_config_
           (set_base_sampling_interval interval (adaptive_config_ e))
           (set_performance_monitor_ (Some monitor') e))
  | _, _ => e
  end.

(** ** Configuration file ([loadConfig]) *)

(** The exceptions [std::stoi] and [std::stod] throw. *)
Inductive exception := invalid_argument | out_of_range.

(** The outcome of a call that may leave by an exception. *)
Inductive outcome := Returned | Thrown (ex : exception).

Definition char_in (set : string) (c : ascii) : bool :=
  existsb (Ascii.eqb c) (list_ascii_of_string set).

(** [isspace] in the C locale: space, \t, \n, \v, \f, \r. *)
Definition isspace (c : ascii) : bool :=
  char_in (String " " (String "009" (String "010" (String "011"
          (String "012" (String "013" EmptyString)))))) c.

(** The set [" \t\r\n"] of the two trims. *)
Definition blank (c : ascii) : bool :=
  char_in (String " " (String "009" (String "013" (String "010"
          EmptyString)))) c.

(** [s.erase(0, s.find_first_not_of(" \t\r\n"))]: when every character is in
    the set the position is [npos] and the whole string goes. *)
Fixpoint erase_leading (s : string) : string :=
  match s with
  | EmptyString => EmptyString
  | String c rest => if blank c then erase_leading rest else s
  end.

(** [s.erase(s.find_last_not_of(" \t\r\n") + 1)]: [npos + 1] is [0]. *)
Fixpoint erase_trailing (s : string) : string :=
  match s with
  | EmptyString => EmptyString
  | String c rest =>
      match erase_trailing rest with
      | EmptyString => if blank c then EmptyString else String c EmptyString
      | kept => String c kept
      end
  end.

Definition trim (s : string) : string := erase_trailing (erase_leading s).

Definition digit_value (c : ascii) : option Z :=
  let n := nat_of_ascii c in
  if (48 <=? n)%nat && (n <=? 57)%nat then Some (Z.of_nat (n - 48)) else None.

(** The longest run of decimal digits at the front of [s], read as a number
    continuing [acc]; [seen] tells whether a digit was read at all. *)
Fixpoint read_digits (s : string) (acc : Z) (seen : bool) : Z * bool :=
  match s with
  | EmptyString => (acc, seen)
  | String c rest =>
      match digit_value c with
      | Some d => read_digits rest (10 * acc + d)%Z true
      | None => (acc, seen)
      end
  end.

Fixpoint skip_isspace (s : string) : string :=
  match s with
  | EmptyString => EmptyString
  | String c rest => if isspace c then skip_isspace rest else s
  end.

Definition INT_MIN : Z := -2147483648.
Definition INT_MAX : Z := 2147483647.

(** [std::stoi(value)]: [strtol] in base 10 (leading white space, an optional
    sign, then digits; what follows the digits is ignored); no digit at all
    throws [std::invalid_argument], a value outside [int] throws
    [std::out_of_range]. *)
Definition stoi (value : string) : Z + exception :=
  let s := skip_isspace value in
  let '(negative, s) :=
    match s with
    | String "-" rest => (true, rest)
    | String "+" rest => (false, rest)
    | _ => (false, s)
    end in
  let '(magnitude, seen) := read_digits s 0 false in
  if negb seen then inr invalid_argument
  else
    let v := if negative then (- magnitude)%Z else magnitude in
    if (v <? INT_MIN)%Z || (INT_MAX <? v)%Z then inr out_of_range
    else inl v.

Definition set_enable_engine (v : bool) (c : Config) : Config :=
  {| enable_engine := v; scheduling_interval := scheduling_interval c;
     optimization_enabled := optimization_enabled c;
     responsiveness_weight := responsiveness_weight c;
     fluency_weight := fluency_weight c;
     efficiency_weight := efficiency_weight c;
     thermal_weight := thermal_weight c;
     current_scene := current_scene c; cto_config := cto_config c |}.

Definition set_scheduling_interval (v : Z) (c : Config) : Config :=
  {| enable_engine := enable_engine c; scheduling_interval := v;
     optimization_enabled := optimization_enabled c;
     responsiveness_weight := responsiveness_weight c;
     fluency_weight := fluency_weight c;
     efficiency_weight := efficiency_weight c;
     thermal_weight := thermal_weight c;
     current_scene := current_scene c; cto_config := cto_config c |}.

Definition set_optimization_enabled (v : bool) (c : Config) : Config :=
  {| enable_engine := enable_engine c;
     scheduling_interval := scheduling_interval c;
     optimization_enabled := v;
     responsiveness_weight := responsiveness_weight c;
     fluency_weight := fluency_weight c;
     efficiency_weight := efficiency_weight c;
     thermal_weight := thermal_weight c;
     current_scene := current_scene c; cto_config := cto_config c |}.

Definition set_weights (r f ef t : double) (c : Config) : Config :=
  {| enable_engine := enable_engine c;
     scheduling_interval := scheduling_interval c;
     optimization_enabled := optimization_enabled c;
     responsiveness_weight := r;
     fluency_weight := f;
     efficiency_weight := ef;
     thermal_weight := t;
     current_scene := current_scene c; cto_config := cto_config c |}.

Section LoadConfig.

(** [std::stod] of the C++ library: the value, or the exception it throws. *)
Variable stod : string -> double + exception.

(** The body of the [while (std::getline(...))] loop for one line: the
    configuration after the line, or the exception that leaves the loop. *)
Definition parse_line (line : string) (c : Config) : Config + exception :=
  match line with
  | EmptyString => inl c
  | String "#" _ => inl c
  | _ =>
      match String.index 0 "=" line with
      | None => inl c
      | Some pos =>
          let key := trim (String.substring 0 pos line) in
          let value :=
            trim (String.substring (pos + 1)
                                   (String.length line - (pos + 1)) line) in
          if String.eqb key "enable_engine"
          then inl (set_enable_engine (String.eqb value "true") c)
          else if String.eqb key "scheduling_interval"
          then match stoi value with
               | inl v => inl (set_scheduling_interval v c)
               | inr ex => inr ex
               end
          else if String.eqb key "optimization_enabled"
          then inl (set_optimization_enabled (String.eqb value "true") c)
          else if String.eqb key "responsiveness_weight"
          then match stod value with
               | inl v =>
                   inl (set_weights v (fluency_weight c) (efficiency_weight c)
                                    (thermal_weight c) c)
               | inr ex => inr ex
               end
          else if String.eqb key "fluency_weight"
          then match stod value with
               | inl v =>
                   inl (set_weights (responsiveness_weight c) v
                                    (efficiency_weight c) (thermal_weight c) c)
               | inr ex => inr ex
               end
          else if String.eqb key "efficiency_weight"
          then match stod value with
               | inl v =>
                   inl (set_weights (responsiveness_weight c)
                                    (fluency_weight c) v (thermal_weight c) c)
               | inr ex => inr ex
               end
          else if String.eqb key "thermal_weight"
          then match stod value with
               | inl v =>
                   inl (set_weights (responsiveness_weight c)
                                    (fluency_weight c) (efficiency_weight c)
                                    v c)
               | inr ex => inr ex
               end
          else inl c
      end
  end.

(** The loop over the lines [std::getline] yields.  [config_] is written in
    place, so an exception leaves it as the lines before made it. *)
Fixpoint parse_lines (lines : list string) (c : Config) : Config * outcome :=
  match lines with
  | [] => (c, Returned)
  | line :: rest =>
      match parse_line line c with
      | inl c' => parse_lines rest c'
      | inr ex => (c, Thrown ex)
      end
  end.

(** [primary_path]: the first "/conf/" of the path replaced by
    "/data/config/". *)
Definition primary_path (configPath : string) : string :=
  match String.index 0 "/conf/" configPath with
  | Some conf_pos =>
      String.substring 0 conf_pos configPath ++ "/data/config/" ++
      String.substring (conf_pos + 6)
                       (String.length configPath - (conf_pos + 6)) configPath
  | None => configPath
  end.

(** [files] gives the lines of the file a path opens, [None] when it does not
    open.  No statement of [loadConfig] catches: an exception thrown in the
    loop leaves the function before [close] and the closing log line. *)
Definition loadConfig (files : string -> option (list string))
  (configPath : string) (e : Engine) : Engine * outcome :=
  let primary := primary_path configPath in
  let opened :=
    match files primary with
    | Some lines =>
        Some (lines, logInfo [Text "使用配置文件: "; Text primary] e)
    | None =>
        match files configPath with
        | Some lines =>
            Some (lines, logInfo [Text "使用配置文件: "; Text configPath] e)
        | None => None
        end
    end in
  match opened with
  | None =>
      (logError [Text "无法打开配置文件: "; Text primary; Text " 和 ";
                 Text configPath] e, Returned)
  | Some (lines, e1) =>
      match parse_lines lines (config_ e1) with
      | (c, Returned) =>
          (logInfo [Text "配置文件加载完成: "; Text configPath]
                   (set_config_ c e1), Returned)
      | (c, Thrown ex) => (set_config_ c e1, Thrown ex)
      end
  end.

(** The key and the value the loop body takes from a line, both trimmed;
    [None] for a line the loop passes over before that: an empty line, a
    line that starts with '#', a line without '='. *)
Definition key_value (line : string) : option (string * string) :=
  match line with
  | EmptyString => None
  | String "#" _ => None
  | _ =>
      match String.index 0 "=" line with
      | None => None
      | Some pos =>
          Some (trim (String.substring 0 pos line),
                trim (String.substring (pos + 1)
                                       (String.length line - (pos + 1)) line))
      end
  end.

(** The chain of comparisons on the key. *)
Definition apply_setting (key value : string) (c : Config)
  : Config + exception :=
  if String.eqb key "enable_engine"
  then inl (set_enable_engine (String.eqb value "true") c)
  else if String.eqb key "scheduling_interval"
  then match stoi value with
       | inl v => inl (set_scheduling_interval v c)
       | inr ex => inr ex
       end
  else if String.eqb key "optimization_enabled"
  then inl (set_optimization_enabled (String.eqb value "true") c)
  else if String.eqb key "responsiveness_weight"
  then match stod value with
       | inl v =>
           inl (set_weights v (fluency_weight c) (efficiency_weight c)
                            (thermal_weight c) c)
       | inr ex => inr ex
       end
  else if String.eqb key "fluency_weight"
  then match stod value with
       | inl v =>
           inl (set_weights (responsiveness_weight c) v
                            (efficiency_weight c) (thermal_weight c) c)
       | inr ex => inr ex
       end
  else if String.eqb key "efficiency_weight"
  then match stod value with
       | inl v =>
           inl (set_weights (responsiveness_weight c)
                            (fluency_weight c) v (thermal_weight c) c)
       | inr ex => inr ex
       end
  else if String.eqb key "thermal_weight"
  then match stod value with
       | inl v =>
           inl (set_weights (responsiveness_weight c)
                            (fluency_weight c) (efficiency_weight c)
                            v c)
       | inr ex => inr ex
       end
  else inl c.

(** The keys whose value goes through [std::stod], and all the keys the
    chain knows. *)
Definition weight_keys : list string :=
  ["responsiveness_weight"; "fluency_weight"; "efficiency_weight";
   "thermal_weight"]%string.

Definition recognised_keys : list string :=
  ["enable_engine"; "scheduling_interval"; "optimization_enabled"]%string
  ++ weight_keys.

Definition is_key (keys : list string) (key : string) : bool :=
  existsb (String.eqb key) keys.

(** A malformed line: the exception its value raises, when the key is
    [scheduling_interval] and [std::stoi] rejects the value, or the key is
    one of the weights and [std::stod] rejects the value; [None] for every
    other line. *)
Definition rejected_value (line : string) : option exception :=
  match key_value line with
  | None => None
  | Some (key, value) =>
      if String.eqb key "scheduling_interval"
      then match stoi value with
           | inr ex => Some ex
           | inl _ => None
           end
      else if is_key weight_keys key
      then match stod value with
           | inr ex => Some ex
           | inl _ => None
           end
      else None
  end.

Definition accepted (line : string) : bool :=
  match rejected_value line with
  | None => true
  | Some _ => false
  end.

(** A line with nothing for the configuration: a comment, an empty line, a
    line without '=', a line with a key the chain does not know. *)
Definition passed_over (line : string) : bool :=
  match key_value line with
  | None => true
  | Some (key, _) => negb (is_key recognised_keys key)
  end.

(** The file [loadConfig] reads: the one under [primary_path] when it
    opens, else the one under [configPath]; with the path it is logged
    under. *)
Definition opened_config (files : string -> option (list string))
  (configPath : string) : option (string * list string) :=
  match files (primary_path configPath) with
  | Some lines => Some (primary_path configPath, lines)
  | None =>
      match files configPath with
      | Some lines => Some (configPath, lines)
      | None => None
      end
  end.

End LoadConfig.

(** ** Concrete values used by the examples *)

(** A snapshot whose component scores and thermal state are all [v]. *)
Definition all_components (v : double) : PerformanceMetrics := {|
  cpu_usage := 0; memory_usage := 0; gpu_usage := 0;
  thermal_state := v; battery_level := 100;
  responsiveness_score := v; fluency_score := v; efficiency_score := v;
  ces_score := 0
|}.

(** A point that scores below -1 under every scene's weights. *)
Definition low_score_point : ParetoPoint := {|
  performance := 0;
  power_consumption := 10;
  thermal_impact := 10;
  parameters := []
|}.

Definition junk_ones : Indeterminate := {|
  junk_performance := 1;
  junk_power_consumption := 1;
  junk_thermal_impact := 1
|}.

(** An entry of the sink that is the shutdown line of [stop]. *)
Definition is_shutdown_entry (entry : LogEntry) : bool :=
  match level entry, message entry with
  | INFO, [Text s] => String.eqb s "UIEE核心引擎已停止"
  | _, _ => false
  end.

Definition shutdown_entries (e : Engine) : nat :=
  List.length (filter is_shutdown_entry (log_ e)).

(** The constructors of [PerformanceOptimizationConfig] and
    [EvolutionConfig]. *)
Definition PerformanceOptimizationConfig_new : PerformanceOptimizationConfig :=
  {| enable_cache := true; enable_adaptive_sampling := true;
     enable_thread_pool := true; enable_memory_pool := true;
     enable_performance_monitoring := true; cache_size := 100;
     thread_pool_size := 4; memory_pool_block_size := 1024;
     performance_threshold := 0.1 |}.

Definition EvolutionConfig_new : EvolutionConfig :=
  {| alpha_weight := 0.4; beta_weight := 0.3; gamma_weight := 0.3;
     population_size := 50; max_generations := 1000;
     mutation_rate := 0.1; crossover_rate := 0.8;
     ec_convergence_threshold := 1e-6 |}.

Definition example_individual : FitnessIndividual :=
  {| fi_parameters := [0.5; 0.5]%float; fitness_score := 1;
     performance_score := 0; fi_efficiency_score := 0; energy_cost := 0;
     creation_time := 0; last_update_time := 0; fi_generation := 0;
     is_valid := true; update_count := 0 |}.

Definition example_population : PopulationEvolutionManager :=
  {| getBestIndividual := example_individual;
     getCurrentPopulation := [example_individual] |}.

(** An engine as the constructor leaves it: stopped, no task, no history. *)
Definition example_engine : Engine :=
  {| running_ := false; main_thread_ := false; monitor_thread_ := false;
     config_ := default_Config
                  {| enable_task_binding := false;
                     enable_io_scheduling := false;
                     enable_cpu_affinity := false; max_bound_cores := 0 |};
     active_tasks_ := [];
     performance_history_ := [];
     performance_monitor_ := Some PerformanceMonitor_new;
     adaptive_config_ := AdaptiveSamplingConfig_new;
     optimization_config_ := PerformanceOptimizationConfig_new;
     population_manager_ := Some example_population;
     evolution_active_ := false;
     current_generation_ := 0;
     evolution_history_ := [];
     evolution_config_ := EvolutionConfig_new;
     log_ := [] |}.

(** The specification's reading of the convergence check: the entry recorded
    [n] generations before the latest one. *)
Definition recorded_generations_earlier (n : Z) (h : list EvolutionHistory)
  : option EvolutionHistory :=
  match rev h with
  | [] => None
  | latest :: _ =>
      find (fun entry => Z.eqb (generation entry) (generation latest - n)) h
  end.

(** Entries as the evolution loop appends them: one per generation. *)
Fixpoint consecutive_generations (h : list EvolutionHistory) : Prop :=
  match h with
  | [] => True
  | a :: rest =>
      match rest with
      | [] => True
      | b :: _ => generation b = (generation a + 1)%Z
      end /\ consecutive_generations rest
  end.

Definition history_entry (g : Z) (best : double) : EvolutionHistory :=
  {| generation := g; best_fitness := best; average_fitness := best;
     diversity_score := 0; timestamp := 0; best_parameters := [] |}.

(** Generations 1 to 11: best fitness 0 in generation 1, then 1 throughout. *)
Definition history_1_to_11 : list EvolutionHistory :=
  history_entry 1 0 ::
  map (fun g => history_entry g 1) [2; 3; 4; 5; 6; 7; 8; 9; 10; 11]%Z.

Definition evolving_engine (h : list EvolutionHistory) : Engine :=
  set_evolution_history_ h (set_evolution_active_ true example_engine).

(** A monitor whose ten cpu samples are all 100 and memory samples all 0. *)
Definition busy_cpu_monitor : PerformanceMonitor :=
  {| cpu_usage_samples := repeat 100%float 10;
     memory_usage_samples := repeat 0%float 10;
     sample_index := 0; avg_cpu_usage := 100; avg_memory_usage := 0;
     is_high_performance_mode := false |}.

Definition busy_cpu_engine : Engine :=
  set_performance_monitor_ (Some busy_cpu_monitor) example_engine.

Definition busy_cpu_sensors : Sensors :=
  {| getCPUUsage := 100; getMemoryUsage := 0; getThermalState := 0 |}.

Definition idle_sensors : Sensors :=
  {| getCPUUsage := 0; getMemoryUsage := 0; getThermalState := 0 |}.

Definition is_warning_entry (entry : LogEntry) : bool :=
  match level entry with
  | WARNING => true
  | _ => false
  end.

(** A file whose first line gives [scheduling_interval] a value that is not
    a number and whose second line is well formed. *)
Definition malformed_file : list string :=
  ["scheduling_interval=abc"; "enable_engine=false"]%string.

Definition malformed_files (path : string) : option (list string) :=
  Some malformed_file.

(** A stand-in for [std::stod] where no weight line is read. *)
Definition stod_unused (value : string) : double + exception :=
  inr invalid_argument.

(** Three operating points: [point_b] is dominated by [point_a], and
    [point_c] trades performance for power. *)
Definition point_a : ParetoPoint :=
  {| performance := 10; power_consumption := 5; thermal_impact := 5;
     parameters := [] |}.
Definition point_b : ParetoPoint :=
  {| performance := 5; power_consumption := 5; thermal_impact := 5;
     parameters := [] |}.
Definition point_c : ParetoPoint :=
  {| performance := 8; power_consumption := 3; thermal_impact := 6;
     parameters := [] |}.


Definition config_path : string :=
  "/data/adb/modules/uiee_smart_engine/conf/uiee.conf".

(** A file with a well-formed line on each side of the malformed one. *)
Definition three_line_files (path : string) : option (list string) :=
  Some ["enable_engine=false"; "scheduling_interval=abc";
        "optimization_enabled=false"]%string.

(** Only the path itself opens, not its "/data/config/" variant; the third
    line gives a weight a value that is not a number. *)
Definition fallback_files (path : string) : option (list string) :=
  if String.eqb path config_path
  then Some ["# weights"; "scheduling_interval = 7 "; "thermal_weight=hot";
             "enable_engine=false"]%string
  else None.

Definition example_task (p : Z) (n : string) : TaskInfo :=
  {| name := n; pid := p; priority := 0; app_type := "game";
     cpu_affinity := 0; is_foreground := true; start_time := 0 |}.

Definition two_task_engine : Engine :=
  set_active_tasks_ [example_task 1234 "test_app"; example_task 99 "other"]
                    example_engine.

Definition example_process_table : ProcessTable :=
  {| getRunningPIDs := [99; 7; 7]%Z;
     getProcessName := fun _ => "proc"%string;
     steady_clock_now := 0; junk_cpu_affinity := 0 |}.

(** An engine whose two histories are full. *)
Definition full_history_engine : Engine :=
  set_evolution_history_ (repeat (history_entry 0 0) 100)
    (set_performance_history_ (repeat (all_components 0) MAX_HISTORY_SIZE)
       (set_evolution_active_ true example_engine)).

(** * The rest of the engine *)

(** ** Scene detection ([detectCurrentScene], [setScenePreference]) *)

(** The scene of an application type the [if] chain recognises. *)
Definition app_type_scene (app_type : string) : option SceneType :=
  if String.eqb app_type "game" then Some SCENE_GAME
  else if String.eqb app_type "social" then Some SCENE_SOCIAL
  else if String.eqb app_type "media" then Some SCENE_MEDIA
  else if String.eqb app_type "productivity" then Some SCENE_PRODUCTIVITY
  else None.

(** The loop over [active_tasks_]: the first foreground task of a recognised
    type decides; a foreground task of another type is passed over. *)
Fixpoint detect_scene (tasks : list TaskInfo) : SceneType :=
  match tasks with
  | [] => SCENE_UNKNOWN
  | task :: rest =>
      if is_foreground task
      then match app_type_scene (app_type task) with
           | Some scene => scene
           | None => detect_scene rest
           end
      else detect_scene rest
  end.

Definition detectCurrentScene (e : Engine) : SceneType :=
  detect_scene (active_tasks_ e).

Definition set_current_scene (v : SceneType) (c : Config) : Config :=
  {| enable_engine := enable_engine c;
     scheduling_interval := scheduling_interval c;
     optimization_enabled := optimization_enabled c;
     responsiveness_weight := responsiveness_weight c;
     fluency_weight := fluency_weight c;
     efficiency_weight := efficiency_weight c;
     thermal_weight := thermal_weight c;
     current_scene := v; cto_config := cto_config c |}.

(** [static_cast<int>(scene)]. *)
Definition scene_index (scene : SceneType) : Z :=
  match scene with
  | SCENE_GAME => 0
  | SCENE_SOCIAL => 1
  | SCENE_MEDIA => 2
  | SCENE_PRODUCTIVITY => 3
  | SCENE_UNKNOWN => 4
  end.

Definition setScenePreference (scene : SceneType) (e : Engine) : Engine :=
  logInfo [Text "场景偏好设置为: "; Int (scene_index scene)]
          (set_config_ (set_current_scene scene (config_ e)) e).

Definition getActiveTasks (e : Engine) : list TaskInfo := active_tasks_ e.

(** The tasks a monitor pass keeps: those whose pid is still running. *)
Definition still_running (pids : list Z) (task : TaskInfo) : bool :=
  existsb (Z.eqb (pid task)) pids.

(** ** Enforcement ([setProcessPriority], [setCPUAffinity],
       [bindTaskToCore], [applySchedulingPolicies], [performScheduling]) *)

(** A system call the engine issues. *)
Inductive Syscall :=
| sys_setpriority (pid nice_val : Z)
| sys_sched_setaffinity (pid : Z) (mask : list Z).

(** What the kernel answers: [None] for success (a return value of 0),
    [Some text] for a failure, [text] being [strerror(errno)]. *)
Record Kernel := {
  setpriority : Z -> Z -> option string;
  sched_setaffinity : Z -> list Z -> option string
}.

(** [20 - std::max(0, std::min(priority, 19))]. *)
Definition nice_of_priority (priority : Z) : Z :=
  20 - Z.max 0 (Z.min priority 19).

(** Each of the functions below returns the engine it leaves and the calls
    it issued, oldest first. *)
Definition setProcessPriority (k : Kernel) (p priority : Z) (e : Engine)
  : bool * Engine * list Syscall :=
  let nice_val := nice_of_priority priority in
  match setpriority k p nice_val with
  | None => (true, e, [sys_setpriority p nice_val])
  | Some text =>
      (false, logError [Text "setpriority 失败: "; Text text] e,
       [sys_setpriority p nice_val])
  end.

Definition CPU_SETSIZE : Z := 1024.

(** The mask after the [CPU_SET] loop: the cores within [0, CPU_SETSIZE). *)
Definition cpu_mask (cores : list Z) : list Z :=
  filter (fun c => (0 <=? c)%Z && (c <? CPU_SETSIZE)%Z) cores.

Definition setCPUAffinity (k : Kernel) (p : Z) (cores : list Z) (e : Engine)
  : bool * Engine * list Syscall :=
  let mask := cpu_mask cores in
  match sched_setaffinity k p mask with
  | None => (true, e, [sys_sched_setaffinity p mask])
  | Some text =>
      (false, logError [Text "sched_setaffinity 失败: "; Text text] e,
       [sys_sched_setaffinity p mask])
  end.

Definition bindTaskToCore (k : Kernel) (p core_id : Z) (e : Engine)
  : Engine * list Syscall :=
  if negb (enable_cpu_affinity (cto_config (config_ e))) then (e, [])
  else
    match setCPUAffinity k p [core_id] e with
    | (true, e', calls) =>
        (logInfo [Text "任务 "; Int p; Text " 已绑定到核心 "; Int core_id] e',
         calls)
    | (false, e', calls) =>
        (logError [Text "任务 "; Int p; Text " 绑定核心 "; Int core_id;
                   Text " 失败"] e', calls)
    end.

(** [a % b] on [int]: the remainder of the division that truncates towards
    zero ([Z.rem]); undefined for a zero divisor, and for [INT_MIN % -1],
    whose quotient is no [int]. *)
Definition int_rem (a b : Z) : option Z :=
  if (b =? 0)%Z || ((a =? INT_MIN)%Z && (b =? -1)%Z) then None
  else Some (Z.rem a b).

(** The body of the loop of [applySchedulingPolicies] for one task.
    [cpu_cores] is [device_info_.cpu_cores], which [initializeDeviceInfo]
    takes from [std::thread::hardware_concurrency()] (0 when the number is
    not known).  The result is [None] when [task.priority % cpu_cores] is
    undefined: the behaviour of the program is then undefined (on Linux the
    division by zero ends the process). *)
Definition apply_policy (k : Kernel) (cpu_cores : Z)
  (state : Engine * list Syscall) (task : TaskInfo)
  : option (Engine * list Syscall) :=
  let '(e, calls) := state in
  let '(_, e1, calls1) := setProcessPriority k (pid task) (priority task) e in
  if enable_task_binding (cto_config (config_ e1)) && is_foreground task
  then
    match int_rem (priority task) cpu_cores with
    | None => None
    | Some core_id =>
        let '(e2, calls2) := bindTaskToCore k (pid task) core_id e1 in
        Some (e2, calls ++ calls1 ++ calls2)
    end
  else Some (e1, calls ++ calls1).

(** The loop over [active_tasks_]; nothing follows an undefined step. *)
Definition apply_policies (k : Kernel) (cpu_cores : Z)
  (tasks : list TaskInfo) (state : option (Engine * list Syscall))
  : option (Engine * list Syscall) :=
  fold_left (fun state task =>
               match state with
               | Some state => apply_policy k cpu_cores state task
               | None => None
               end) tasks state.

Definition applySchedulingPolicies (k : Kernel) (cpu_cores : Z) (e : Engine)
  : option (Engine * list Syscall) :=
  apply_policies k cpu_cores (active_tasks_ e) (Some (e, [])).

Definition performScheduling (k : Kernel) (cpu_cores : Z) (e : Engine)
  : option (Engine * list Syscall) :=
  if negb (optimization_enabled (config_ e)) then Some (e, [])
  else
    match applySchedulingPolicies k cpu_cores (updateTaskPriorities e) with
    | None => None
    | Some (e1, calls) => Some (logInfo [Text "调度执行完成"] e1, calls)
    end.

(** Whether the loop of [applySchedulingPolicies] computes
    [task.priority % cpu_cores] for a task: task binding on and the task in
    the foreground. *)
Definition takes_remainder (c : Config) (task : TaskInfo) : bool :=
  enable_task_binding (cto_config c) && is_foreground task.

(** The [setpriority] calls of a trace, as (pid, nice) pairs. *)
Definition priority_calls (calls : list Syscall) : list (Z * Z) :=
  flat_map (fun c => match c with
                     | sys_setpriority p n => [(p, n)]
                     | sys_sched_setaffinity _ _ => []
                     end) calls.

(** The [sched_setaffinity] calls of a trace, as (pid, mask) pairs. *)
Definition affinity_calls (calls : list Syscall) : list (Z * list Z) :=
  flat_map (fun c => match c with
                     | sys_setpriority _ _ => []
                     | sys_sched_setaffinity p m => [(p, m)]
                     end) calls.

(** The engine apart from its log. *)
Definition same_but_log (a b : Engine) : Prop :=
  set_log_ [] a = set_log_ [] b.

(** Whether the loop of [applySchedulingPolicies] reaches
    [sched_setaffinity] for a task: task binding on, the task in the
    foreground, and cpu affinity on. *)
Definition binds (c : Config) (task : TaskInfo) : bool :=
  enable_task_binding (cto_config c) && is_foreground task &&
  enable_cpu_affinity (cto_config c).

(** A task as it is when its priority is left out of the comparison. *)
Definition without_priority (task : TaskInfo) : TaskInfo :=
  set_priority 0 task.

(** ** The sample window of [PerformanceMonitor] *)

(** What the constructor establishes and [addSample] relies on: two arrays
    of ten samples and an index within them. *)
Definition monitor_ok (m : PerformanceMonitor) : Prop :=
  List.length (cpu_usage_samples m) = 10 /\
  List.length (memory_usage_samples m) = 10 /\
  sample_index m < 10.

(** [addSample] once per (cpu, memory) pair, in order. *)
Definition addSamples (samples : list (double * double))
  (m : PerformanceMonitor) : PerformanceMonitor :=
  fold_left (fun m s => addSample (fst s) (snd s) m) samples m.

(** ** Reading the process table ([getRunningPIDs], [getProcessName]) *)

Module Proc.

(** ['0' <= c && c <= '9']. *)
Definition is_digit (c : ascii) : bool :=
  (48 <=? nat_of_ascii c) && (nat_of_ascii c <=? 57).

(** The body of the [readdir] loop for one entry name: the pid pushed, if
    any.  An exception of [std::stoi] is caught and the entry skipped. *)
Definition pid_of_entry (d_name : string) : list Z :=
  match d_name with
  | EmptyString => []
  | String c _ =>
      if is_digit c
      then match stoi d_name with
           | inl p => [p]
           | inr _ => []
           end
      else []
  end.

(** [proc] is the list of entry names of /proc, [None] when [opendir]
    fails. *)
Definition getRunningPIDs (proc : option (list string)) : list Z :=
  match proc with
  | None => []
  | Some entries => flat_map pid_of_entry entries
  end.

(** [s.find(c)]. *)
Fixpoint find_char (c : ascii) (s : string) : option nat :=
  match s with
  | EmptyString => None
  | String a rest =>
      if Ascii.eqb a c then Some 0
      else match find_char c rest with
           | Some i => Some (S i)
           | None => None
           end
  end.

(** [s.find_last_of(c)]. *)
Fixpoint find_last_of (c : ascii) (s : string) : option nat :=
  match s with
  | EmptyString => None
  | String a rest =>
      match find_last_of c rest with
      | Some i => Some (S i)
      | None => if Ascii.eqb a c then Some 0 else None
      end
  end.

(** [s.substr(pos)]. *)
Definition substr_from (pos : nat) (s : string) : string :=
  String.substring pos (String.length s - pos) s.

Definition NUL : ascii := "000"%char.

(** [cmdline] is the first line [std::getline] reads from
    /proc/<pid>/cmdline, [None] when the file does not open. *)
Definition getProcessName (cmdline : option string) : string :=
  match cmdline with
  | None => "unknown"
  | Some cmdline_content =>
      let content1 :=
        match find_char NUL cmdline_content with
        | Some pos => String.substring 0 pos cmdline_content
        | None => cmdline_content
        end in
      let content2 :=
        match find_last_of "/" content1 with
        | Some slash_pos => substr_from (slash_pos + 1) content1
        | None => content1
        end in
      match content2 with
      | EmptyString => "unknown"
      | _ => content2
      end
  end.

End Proc.

(** ** Decimal output of an [int] ([std::to_string], [operator<<]) *)

Definition digit_char (d : Z) : ascii := ascii_of_nat (48 + Z.to_nat d).

(** The decimal digits of [n] (not negative), in front of [acc]; an [int]
    has at most ten. *)
Fixpoint digits_of (fuel : nat) (n : Z) (acc : string) : string :=
  match fuel with
  | O => acc
  | S fuel' =>
      let acc' := String (digit_char (n mod 10)) acc in
      if (n <? 10)%Z then acc' else digits_of fuel' (n / 10) acc'
  end.

Definition to_string (z : Z) : string :=
  if (z <? 0)%Z then String "-" (digits_of 10 (- z) EmptyString)
  else digits_of 10 z EmptyString.

(** ** Writing the configuration file ([saveConfig]) *)

Section SaveConfig.

(** [operator<<] of an output stream for a [double]. *)
Variable show_double : double -> string.

Definition show_bool (b : bool) : string := if b then "true" else "false".

(** The lines of the file [saveConfig] writes. *)
Definition saveConfig_lines (c : Config) : list string :=
  [ "# UIEE智能调度引擎配置";
    "# 3.0版本配置";
    "";
    "[system]";
    "enable_engine=" ++ show_bool (enable_engine c);
    "scheduling_interval=" ++ to_string (scheduling_interval c);
    "optimization_enabled=" ++ show_bool (optimization_enabled c);
    "";
    "[ces_calculator]";
    "responsiveness_weight=" ++ show_double (responsiveness_weight c);
    "fluency_weight=" ++ show_double (fluency_weight c);
    "efficiency_weight=" ++ show_double (efficiency_weight c);
    "thermal_weight=" ++ show_double (thermal_weight c);
    "";
    "[scene_perception]";
    "current_scene=" ++ to_string (scene_index (current_scene c));
    "" ]%string.

(** [writable] tells whether a path opens for writing; the file system after
    the call holds the new lines under [configPath]. *)
Definition saveConfig (writable : string -> bool)
  (files : string -> option (list string)) (configPath : string) (e : Engine)
  : (string -> option (list string)) * Engine :=
  if writable configPath
  then (fun path => if String.eqb path configPath
                    then Some (saveConfig_lines (config_ e))
                    else files path,
        logInfo [Text "配置文件保存完成: "; Text configPath] e)
  else (files, logError [Text "无法保存配置文件: "; Text configPath] e).

End SaveConfig.

(** No character of [s] is one the trims remove. *)
Definition no_blank (s : string) : bool :=
  forallb (fun c => negb (blank c)) (list_ascii_of_string s).

(** ** The evolution loop ([startLongTermEvolution], [stopLongTermEvolution],
       [performGeneticOperations], [simulateGameRound],
       [evolutionMainLoop]) *)

Definition set_current_generation_ (v : Z) (e : Engine) : Engine :=
  {| running_ := running_ e; main_thread_ := main_thread_ e;
     monitor_thread_ := monitor_thread_ e; config_ := config_ e;
     active_tasks_ := active_tasks_ e;
     performance_history_ := performance_history_ e;
     performance_monitor_ := performance_monitor_ e;
     adaptive_config_ := adaptive_config_ e;
     optimization_config_ := optimization_config_ e;
     population_manager_ := population_manager_ e;
     evolution_active_ := evolution_active_ e;
     current_generation_ := v;
     evolution_history_ := evolution_history_ e;
     evolution_config_ := evolution_config_ e; log_ := log_ e |}.

Definition set_population_manager_ (v : option PopulationEvolutionManager)
  (e : Engine) : Engine :=
  {| running_ := running_ e; main_thread_ := main_thread_ e;
     monitor_thread_ := monitor_thread_ e; config_ := config_ e;
     active_tasks_ := active_tasks_ e;
     performance_history_ := performance_history_ e;
     performance_monitor_ := performance_monitor_ e;
     adaptive_config_ := adaptive_config_ e;
     optimization_config_ := optimization_config_ e;
     population_manager_ := v;
     evolution_active_ := evolution_active_ e;
     current_generation_ := current_generation_ e;
     evolution_history_ := evolution_history_ e;
     evolution_config_ := evolution_config_ e; log_ := log_ e |}.

(** The detached thread that [startLongTermEvolution] spawns runs
    [evolutionMainLoop], modelled below on its own. *)
Definition startLongTermEvolution (e : Engine) : Engine :=
  if evolution_active_ e then logInfo [Text "长期进化已在运行中"] e
  else logInfo [Text "长期进化过程启动"]
         (set_current_generation_ 0 (set_evolution_active_ true e)).

Definition stopLongTermEvolution (e : Engine) : Engine :=
  logInfo [Text "长期进化过程停止"] (set_evolution_active_ false e).

(** What one iteration of the loop takes from outside the modelled members.
    The Hamilton fitness function, the population manager's
    [evolveGeneration] and the game manager are declared only: each of their
    calls either returns or throws a [std::exception], given here by the
    text of its [what()]. *)
Record IterationInputs := {
  evaluation : option string;
  evolveGeneration
    : PopulationEvolutionManager -> PopulationEvolutionManager * option string;
  game_round : option (option string);
  clock : Z
}.

(** The fitness evaluation of [performGeneticOperations] works on a copy of
    the population; what reaches the engine is [evolveGeneration] and the log
    line.  The second component is the exception the call leaves by, if
    any. *)
Definition performGeneticOperations (inp : IterationInputs) (e : Engine)
  : Engine * option string :=
  match population_manager_ e with
  | None => (e, None)
  | Some pm =>
      match evaluation inp with
      | Some what => (e, Some what)
      | None =>
          let (pm', thrown) := evolveGeneration inp pm in
          let e' := set_population_manager_ (Some pm') e in
          match thrown with
          | Some what => (e', Some what)
          | None => (logInfo [Text "遗传算法操作完成"] e', None)
          end
      end
  end.

(** [game_round] is [None] without a game manager or a running game. *)
Definition simulateGameRound (inp : IterationInputs) (e : Engine)
  : Engine * option string :=
  match game_round inp with
  | None => (e, None)
  | Some (Some what) => (e, Some what)
  | Some None => (logInfo [Text "博弈轮次完成"] e, None)
  end.

(** The [catch] block of the loop. *)
Definition evolution_catch (what : string) (e : Engine) : Engine :=
  logError [Text "进化循环异常: "; Text what] e.

(** One iteration of the [while]: the [try] block and its [catch]. *)
Definition evolution_iteration (inp : IterationInputs) (e : Engine) : Engine :=
  match performGeneticOperations inp e with
  | (e1, Some what) => evolution_catch what e1
  | (e1, None) =>
      let e2 := set_current_generation_ (current_generation_ e1 + 1) e1 in
      let e3 := updateEvolutionState (clock inp) e2 in
      match simulateGameRound inp e3 with
      | (e4, Some what) => evolution_catch what e4
      | (e4, None) => checkEvolutionConvergence e4
      end
  end.

(** The genetic step of an iteration returns, whatever the population. *)
Definition genetic_step_returns (inp : IterationInputs) : Prop :=
  evaluation inp = None /\ forall pm, snd (evolveGeneration inp pm) = None.

(** The members of the engine that the loop's condition, the history and
    the convergence check read. *)
Definition evolution_view (e : Engine)
  : bool * Z * list EvolutionHistory * EvolutionConfig :=
  (evolution_active_ e, current_generation_ e, evolution_history_ e,
   evolution_config_ e).

(** The condition of the [while]. *)
Definition evolution_continues (e : Engine) : bool :=
  evolution_active_ e &&
  (current_generation_ e <? max_generations (evolution_config_ e))%Z.

(** The [while] of [evolutionMainLoop], one iteration per element of
    [inputs] for as long as the condition holds; the log lines before and
    after the loop and the sleeps are left out. *)
Fixpoint evolutionMainLoop (inputs : list IterationInputs) (e : Engine)
  : Engine :=
  match inputs with
  | [] => e
  | inp :: rest =>
      if evolution_continues e
      then evolutionMainLoop rest (evolution_iteration inp e)
      else e
  end.

(** The latest entry of a history. *)
Definition latest_entry (h : list EvolutionHistory) : option EvolutionHistory :=
  match rev h with
  | [] => None
  | latest :: _ => Some latest
  end.

(** The history follows the generation counter: one entry per generation,
    the latest for the current one. *)
Definition history_tracks (e : Engine) : Prop :=
  consecutive_generations (evolution_history_ e) /\
  forall latest,
    latest_entry (evolution_history_ e) = Some latest ->
    generation latest = current_generation_ e.

(** ** Restoring the history ([loadEvolutionData]) *)

Section LoadEvolutionData.

(** The four extractions [ss >> generation >> best_fitness >>
    average_fitness >> diversity_score] on a line: what the four members
    hold afterwards. *)
Variable extract_row : string -> Z * double * double * double.

Definition restored_entry (now : Z) (line : string) : EvolutionHistory :=
  let '(g, best, average, diversity) := extract_row line in
  {| generation := g; best_fitness := best; average_fitness := average;
     diversity_score := diversity; timestamp := now; best_parameters := [] |}.

(** [file] holds the lines of the file, [None] when it does not open;
    [clock i] is the time read for the [i]-th data row.  The first line is
    read and dropped, the history is cleared, and every further line becomes
    an entry. *)
Definition loadEvolutionData (file : option (list string)) (filepath : string)
  (clock : nat -> Z) (e : Engine) : Engine :=
  match file with
  | None => logError [Text "无法加载进化数据文件: "; Text filepath] e
  | Some lines =>
      let rows := tl lines in
      logInfo [Text "进化数据已从文件加载: "; Text filepath]
        (set_evolution_history_
           (map (fun r => restored_entry (clock (fst r)) (snd r))
                (combine (seq 0 (List.length rows)) rows))
           e)
  end.

End LoadEvolutionData.

(** The individuals of a population that count. *)
Definition valid_individuals (population : list FitnessIndividual) : nat :=
  List.length (filter is_valid population).


(** An individual cut down to its first five parameters. *)
Definition first_five (individual : FitnessIndividual) : FitnessIndividual :=
  {| fi_parameters := firstn 5 (fi_parameters individual);
     fitness_score := fitness_score individual;
     performance_score := performance_score individual;
     fi_efficiency_score := fi_efficiency_score individual;
     energy_cost := energy_cost individual;
     creation_time := creation_time individual;
     last_update_time := last_update_time individual;
     fi_generation := fi_generation individual;
     is_valid := is_valid individual;
     update_count := update_count individual |}.

(** The statistics of a parameter from any running values. *)
Definition param_stats_from (param_idx : nat)
  (population : list FitnessIndividual)
  (acc : double * double * nat) : double * double * nat :=
  fold_left
    (fun '(param_sum, param_squared_sum, count) individual =>
       if is_valid individual &&
          (param_idx <? List.length (fi_parameters individual))
       then let param := at_index (fi_parameters individual) param_idx in
            ((param_sum + param)%float,
             (param_squared_sum + param * param)%float, S count)
       else (param_sum, param_squared_sum, count))
    population acc.

(** The sum of the variances over the five parameter positions. *)
Definition total_variance_of (stats : nat -> double * double * nat) : double :=
  fold_left
    (fun total_variance param_idx =>
       let '(param_sum, param_squared_sum, count) := stats param_idx in
       if 1 <? count
       then let mean := (param_sum / Dbl.of_nat count)%float in
            let variance :=
              (param_squared_sum / Dbl.of_nat count - mean * mean)%float
            in (total_variance + variance)%float
       else total_variance)
    (seq 0 5) 0%float.

(** ** Evolved weights ([applyEvolutionaryParameters],
       [combineTraditionalAndEvolutionary]) *)

Definition applyEvolutionaryParameters (e : Engine) : Engine :=
  match population_manager_ e with
  | None => e
  | Some pm =>
      let parameters := fi_parameters (getBestIndividual pm) in
      let updated :=
        if 5 <=? List.length parameters
        then set_config_
               (set_weights (at_index parameters 0) (at_index parameters 1)
                            (at_index parameters 2) (at_index parameters 3)
                            (config_ e)) e
        else e in
      logInfo [Text "进化参数应用完成"] updated
  end.

Definition combineTraditionalAndEvolutionary (e : Engine) : Engine :=
  match population_manager_ e with
  | None => e
  | Some pm =>
      let parameters := fi_parameters (getBestIndividual pm) in
      let updated :=
        if 3 <=? List.length parameters
        then set_config_
               (set_weights (at_index parameters 0) (at_index parameters 1)
                            (at_index parameters 2)
                            (thermal_weight (config_ e)) (config_ e)) e
        else e in
      logInfo [Text "传统算法与进化算法结合完成"] updated
  end.

(** The four weights of a configuration. *)
Definition weights (c : Config) : double * double * double * double :=
  (responsiveness_weight c, fluency_weight c, efficiency_weight c,
   thermal_weight c).

(** The members of a configuration that are not weights. *)
Definition without_weights (c : Config) : Config :=
  set_weights 0 0 0 0 c.

(** ** The command line ([main]) *)

Module Main.

Record Options := {
  config_path : string;
  daemon_mode : bool;
  test_mode : bool;
  status_mode : bool
}.

(** The two options at which [main] prints and returns 0 from inside the
    loop. *)
Inductive Printed := Usage | Version.

Definition is_help (arg : string) : bool :=
  String.eqb arg "-h" || String.eqb arg "--help".

Definition is_version (arg : string) : bool :=
  String.eqb arg "-v" || String.eqb arg "--version".

Definition is_config (arg : string) : bool :=
  String.eqb arg "-c" || String.eqb arg "--config".

Definition is_daemon (arg : string) : bool :=
  String.eqb arg "-d" || String.eqb arg "--daemon".

Definition is_test (arg : string) : bool := String.eqb arg "--test".

Definition is_status (arg : string) : bool := String.eqb arg "--status".

(** The [for] loop over [argv[1]] ... [argv[argc - 1]]. *)
Fixpoint parse_arguments (args : list string) (o : Options)
  : Printed + Options :=
  match args with
  | [] => inr o
  | arg :: rest =>
      if is_help arg then inl Usage
      else if is_version arg then inl Version
      else if is_config arg then
        match rest with
        | value :: rest' =>
            parse_arguments rest'
              {| config_path := value; daemon_mode := daemon_mode o;
                 test_mode := test_mode o; status_mode := status_mode o |}
        | [] => inr o
        end
      else if is_daemon arg then
        parse_arguments rest
          {| config_path := config_path o; daemon_mode := true;
             test_mode := test_mode o; status_mode := status_mode o |}
      else if is_test arg then
        parse_arguments rest
          {| config_path := config_path o; daemon_mode := daemon_mode o;
             test_mode := true; status_mode := status_mode o |}
      else if is_status arg then
        parse_arguments rest
          {| config_path := config_path o; daemon_mode := daemon_mode o;
             test_mode := test_mode o; status_mode := true |}
      else parse_arguments rest o
  end.

(** The options before the loop; [MODPATH] is the environment variable. *)
Definition initial_options (MODPATH : option string) : Options :=
  {| config_path :=
       match MODPATH with
       | Some modpath => modpath ++ "/data/config/uiee.conf"
       | None => "/data/adb/modules/uiee_smart_engine/data/config/uiee.conf"
       end;
     daemon_mode := false; test_mode := false; status_mode := false |}.

(** What [main] goes on to do. *)
Inductive Mode :=
| PrintUsage
| PrintVersion
| RunTest
| RunStatus
| RunEngine (config_path : string) (daemon_mode : bool).

Definition main (MODPATH : option string) (args : list string) : Mode :=
  match parse_arguments args (initial_options MODPATH) with
  | inl Usage => PrintUsage
  | inl Version => PrintVersion
  | inr o =>
      if test_mode o then RunTest
      else if status_mode o then RunStatus
      else RunEngine (config_path o) (daemon_mode o)
  end.

(** An argument that neither ends the loop nor takes a value. *)
Definition plain (arg : string) : bool :=
  negb (is_help arg || is_version arg || is_config arg).

End Main.

(** ** More concrete values *)

(** A configuration that binds foreground tasks to cores. *)
Definition binding_engine : Engine :=
  set_config_
    (default_Config
       {| enable_task_binding := true; enable_io_scheduling := false;
          enable_cpu_affinity := true; max_bound_cores := 4 |})
    example_engine.

(** A kernel that accepts every call. *)
Definition permissive_kernel : Kernel :=
  {| setpriority := fun _ _ => None; sched_setaffinity := fun _ _ => None |}.

(** A foreground task of priority 10. *)
Definition priority_10_task : TaskInfo :=
  set_priority 10 (example_task 1234 "test_app").

(** Twelve samples: cpu 1 to 12, memory ten times that. *)
Definition twelve_samples : list (double * double) :=
  [(1, 10); (2, 20); (3, 30); (4, 40); (5, 50); (6, 60); (7, 70); (8, 80);
   (9, 90); (10, 100); (11, 110); (12, 120)]%float.

(** A [std::stod] that reads every text as 0.25, and a printer that prints
    every number as "0.25". *)
Definition stod_quarter (text : string) : double + exception :=
  inl 0.25%float.

Definition show_quarter (x : double) : string := "0.25".

(** Every path opens for writing; no file exists yet. *)
Definition all_writable (path : string) : bool := true.

Definition no_files (path : string) : option (list string) := None.

(** An engine whose scene preference is the game scene. *)
Definition game_scene_engine : Engine :=
  setScenePreference SCENE_GAME example_engine.

(** An iteration in which every call returns and no game is running, and one
    whose fitness evaluation throws. *)
Definition quiet_iteration : IterationInputs :=
  {| evaluation := None;
     evolveGeneration := fun pm => (pm, None);
     game_round := None;
     clock := 0 |}.

Definition throwing_iteration : IterationInputs :=
  {| evaluation := Some "fitness"%string;
     evolveGeneration := fun pm => (pm, None);
     game_round := None;
     clock := 0 |}.

(** An engine two generations short of [max_generations], without a
    population manager, so with no history and no convergence check. *)
Definition late_engine : Engine :=
  set_population_manager_ None
    (set_current_generation_ 998 (evolving_engine [])).
(** ** The order of binary64 values, from the specification of the primitives *)

Section SpecFloatOrder.

Local Open Scope Z_scope.

Local Ltac split_compare :=
  repeat match goal with
    | H : context [Z.compare ?x ?y] |- _ => destruct (Z.compare_spec x y)
    | |- context [Z.compare ?x ?y] => destruct (Z.compare_spec x y)
    | H : context [Pos.compare ?x ?y] |- _ => destruct (Pos.compare_spec x y)
    | |- context [Pos.compare ?x ?y] => destruct (Pos.compare_spec x y)
    end.

Lemma SFcompare_chain (a b c : spec_float) (c1 c2 : comparison) :
  c1 <> Gt -> c2 <> Gt ->
  SFcompare a b = Some c1 -> SFcompare b c = Some c2 ->
  SFcompare a c = Some (chain c1 c2).
Proof.
  intros N1 N2.
  destruct a as [sa|sa| |sa ma ea], b as [sb|sb| |sb mb eb],
           c as [sc|sc| |sc mc ec]; cbn [SFcompare];
    try discriminate;
    repeat match goal with s : bool |- _ => destruct s end;
    change (PosDef.Pos.compare_cont Eq) with Pos.compare;
    intros H1 H2; injection H1 as <-; injection H2 as <-;
    try (exfalso; congruence); try reflexivity;
    split_compare; cbn [CompOpp chain] in *;
    try reflexivity; try (exfalso; congruence); try lia.
Qed.

Lemma SFcompare_refl_not_Lt (a : spec_float) : SFcompare a a <> Some Lt.
Proof.
  destruct a as [sa|sa| |sa ma ea]; cbn [SFcompare]; try discriminate;
    try (destruct sa; discriminate).
  change (PosDef.Pos.compare_cont Eq) with Pos.compare.
  rewrite Z.compare_refl, Pos.compare_refl. destruct sa; discriminate.
Qed.

End SpecFloatOrder.

(** The same facts on [double], through [ltb_spec] and [leb_spec]. *)

Section DoubleOrder.

Implicit Types a b c : double.

Lemma lt_compare a b :
  lt a b = true <-> SFcompare (Prim2SF a) (Prim2SF b) = Some Lt.
Proof.
  unfold lt. rewrite ltb_spec. unfold SFltb.
  destruct (SFcompare _ _) as [[ | | ]|]; split; congruence.
Qed.

Lemma le_compare a b :
  le a b = true <->
  exists k, k <> Gt /\ SFcompare (Prim2SF a) (Prim2SF b) = Some k.
Proof.
  unfold le. rewrite leb_spec. unfold SFleb.
  destruct (SFcompare _ _) as [[ | | ]|]; split;
    try (intros _; eexists; split; [|reflexivity]; discriminate);
    try discriminate; try reflexivity;
    intros (k & Hk & E); congruence.
Qed.

Lemma lt_le a b : lt a b = true -> le a b = true.
Proof.
  intros H. apply le_compare. exists Lt. split; [discriminate|].
  now apply lt_compare.
Qed.

Lemma lt_irrefl a : lt a a = false.
Proof.
  destruct (lt a a) eqn:E; [|reflexivity].
  apply lt_compare in E. now apply SFcompare_refl_not_Lt in E.
Qed.

Lemma le_trans a b c : le a b = true -> le b c = true -> le a c = true.
Proof.
  intros (k1 & N1 & E1)%le_compare (k2 & N2 & E2)%le_compare.
  apply le_compare. exists (chain k1 k2). split.
  - destruct k1, k2; discriminate.
  - now apply SFcompare_chain with (b := Prim2SF b).
Qed.

Lemma lt_le_trans a b c : lt a b = true -> le b c = true -> lt a c = true.
Proof.
  intros E1%lt_compare (k2 & N2 & E2)%le_compare.
  apply lt_compare.
  now rewrite (SFcompare_chain _ _ _ Lt k2 ltac:(discriminate) N2 E1 E2).
Qed.

Lemma le_lt_trans a b c : le a b = true -> lt b c = true -> lt a c = true.
Proof.
  intros (k1 & N1 & E1)%le_compare E2%lt_compare.
  apply lt_compare.
  rewrite (SFcompare_chain _ _ _ k1 Lt N1 ltac:(discriminate) E1 E2).
  now destruct k1.
Qed.

End DoubleOrder.

(** The clamp on its own: whatever [x] is (NaN and the infinities included),
    [std::max(0.0, std::min(100.0, x))] compares as within [0, 100]. *)
Lemma clamp_0_100 (x : double) :
  le 0 (std_max 0 (std_min 100 x)) = true /\
  le (std_max 0 (std_min 100 x)) 100 = true.
Proof.
  unfold std_max, std_min.
  destruct (lt x 100) eqn:Hhi.
  - destruct (lt 0 x) eqn:Hlo.
    + split; now apply lt_le.
    + split; reflexivity.
  - split; reflexivity.
Qed.

Section Pareto.

Implicit Types p q r : ParetoPoint.

Lemma dominates_irrefl p : dominates p p = false.
Proof.
  unfold dominates, gt. rewrite !lt_irrefl. cbn.
  now rewrite andb_false_r.
Qed.

Lemma dominates_trans p q r :
  dominates p q = true -> dominates q r = true -> dominates p r = true.
Proof.
  unfold dominates, ge, gt.
  rewrite !andb_true_iff, !orb_true_iff.
  intros [[[P1 P2] P3] P4] [[[Q1 Q2] Q3] Q4].
  repeat split; try (eapply le_trans; eassumption).
  destruct P4 as [[S|S]|S].
  - left; left. eapply le_lt_trans; eassumption.
  - left; right. eapply lt_le_trans; eassumption.
  - right. eapply lt_le_trans; eassumption.
Qed.

(** Past the point's own index the test [&point == &other] never holds. *)
Lemma is_dominated_past i point others j :
  i < j ->
  is_dominated i point j others = existsb (fun o => dominates o point) others.
Proof.
  revert j. induction others as [|o rest IH]; intros j Hj; [reflexivity|].
  cbn [is_dominated existsb].
  destruct (Nat.eqb_spec i j) as [->|_]; [lia|].
  destruct (dominates o point); [reflexivity|]. cbn. apply IH. lia.
Qed.

(** The inner loop, whose index test only skips the point itself, finds a
    dominator exactly when the whole list holds one. *)
Lemma is_dominated_spec i point others j :
  j <= i ->
  nth_error others (i - j) = Some point ->
  is_dominated i point j others = existsb (fun o => dominates o point) others.
Proof.
  revert j. induction others as [|o rest IH]; intros j Hj Hnth; [reflexivity|].
  cbn [is_dominated existsb].
  destruct (Nat.eqb_spec i j) as [->|Hne].
  - rewrite Nat.sub_diag in Hnth. cbn in Hnth. injection Hnth as ->.
    rewrite dominates_irrefl. cbn. apply is_dominated_past. lia.
  - destruct (dominates o point); [reflexivity|]. cbn.
    apply IH; [lia|].
    replace (i - j) with (S (i - S j)) in Hnth by lia. exact Hnth.
Qed.

Lemma frontier_loop_filter points i todo :
  (forall k point, nth_error todo k = Some point ->
                   nth_error points (i + k) = Some point) ->
  frontier_loop points i todo = filter (has_no_dominator points) todo.
Proof.
  revert i. induction todo as [|point rest IH]; intros i Hidx; [reflexivity|].
  cbn [frontier_loop filter]. unfold has_no_dominator at 1.
  rewrite is_dominated_spec.
  - rewrite IH.
    + now destruct (existsb _ points).
    + intros k q Hk. replace (S i + k) with (i + S k) by lia.
      now apply Hidx.
  - lia.
  - rewrite Nat.sub_0_r. rewrite <- (Nat.add_0_r i). now apply Hidx.
Qed.

(** [calculateParetoFrontier] keeps, in order, the points with no dominator. *)
Lemma calculateParetoFrontier_filter points :
  calculateParetoFrontier points = filter (has_no_dominator points) points.
Proof.
  unfold calculateParetoFrontier. apply frontier_loop_filter.
  intros k point Hk. exact Hk.
Qed.

Lemma has_no_dominator_spec points p :
  has_no_dominator points p = true <->
  forall o, In o points -> dominates o p = false.
Proof.
  unfold has_no_dominator. rewrite negb_true_iff. split.
  - intros H o Ho. destruct (dominates o p) eqn:E; [|reflexivity].
    assert (X : existsb (fun o => dominates o p) points = true)
      by (apply existsb_exists; eauto).
    congruence.
  - intros H. destruct (existsb _ points) eqn:E; [|reflexivity].
    apply existsb_exists in E as (o & Ho & Hd). rewrite (H o Ho) in Hd.
    discriminate.
Qed.

Lemma dominators_decrease points p q :
  In q points -> dominates q p = true ->
  List.length (dominators points q) < List.length (dominators points p).
Proof.
  intros Hin Hqp. unfold dominators.
  induction points as [|o rest IH]; [destruct Hin|].
  cbn [filter].
  assert (Hmono : List.length (filter (fun o => dominates o q) rest)
                  <= List.length (filter (fun o => dominates o p) rest)).
  { clear - Hqp. induction rest as [|o rest IH]; [reflexivity|]. cbn [filter].
    destruct (dominates o q) eqn:E.
    - rewrite (dominates_trans _ _ _ E Hqp). cbn. lia.
    - destruct (dominates o p); cbn; lia. }
  destruct Hin as [->|Hin].
  - rewrite dominates_irrefl, Hqp. cbn. lia.
  - specialize (IH Hin). destruct (dominates o q) eqn:E.
    + rewrite (dominates_trans _ _ _ E Hqp). cbn. lia.
    + destruct (dominates o p); cbn; lia.
Qed.

Lemma dominated_by_frontier points :
  forall n p, List.length (dominators points p) < n ->
  In p points ->
  has_no_dominator points p = false ->
  exists r, In r (calculateParetoFrontier points) /\ dominates r p = true.
Proof.
  induction n as [|n IH]; intros p Hn Hin Hdom; [lia|].
  unfold has_no_dominator in Hdom. apply negb_false_iff in Hdom.
  apply existsb_exists in Hdom as (q & Hq & Hqp).
  destruct (has_no_dominator points q) eqn:Eq.
  - exists q. split; [|exact Hqp].
    rewrite calculateParetoFrontier_filter. apply filter_In. now split.
  - destruct (IH q) as (r & Hr & Hrq); [|exact Hq|exact Eq|].
    + pose proof (dominators_decrease points p q Hq Hqp). lia.
    + exists r. split; [exact Hr|]. eapply dominates_trans; eassumption.
Qed.

(** C1: for every list of points, [calculateParetoFrontier] returns exactly
    the points that have no dominator in the input, where [o] dominates [p]
    iff [o] is at least as good on the three objectives and strictly better
    on one; consequently no returned point dominates another and every
    excluded input point is dominated by some returned point. *)
Theorem calculateParetoFrontier_correct (points : list ParetoPoint) :
  (forall o p,
     dominates o p = true <->
     ge (performance o) (performance p) = true /\
     le (power_consumption o) (power_consumption p) = true /\
     le (thermal_impact o) (thermal_impact p) = true /\
     (gt (performance o) (performance p) = true \/
      lt (power_consumption o) (power_consumption p) = true \/
      lt (thermal_impact o) (thermal_impact p) = true)) /\
  calculateParetoFrontier points = filter (has_no_dominator points) points /\
  (forall p,
     In p (calculateParetoFrontier points) <->
     In p points /\ forall o, In o points -> dominates o p = false) /\
  (forall a b,
     In a (calculateParetoFrontier points) ->
     In b (calculateParetoFrontier points) -> dominates a b = false) /\
  (forall p,
     In p points -> ~ In p (calculateParetoFrontier points) ->
     exists r, In r (calculateParetoFrontier points) /\ dominates r p = true).
Proof.
  assert (Hmem : forall p,
             In p (calculateParetoFrontier points) <->
             In p points /\ forall o, In o points -> dominates o p = false).
  { intros p. rewrite calculateParetoFrontier_filter, filter_In.
    now rewrite has_no_dominator_spec. }
  split; [|split; [|split; [|split]]].
  - intros o p. unfold dominates.
    rewrite !andb_true_iff, !orb_true_iff. tauto.
  - apply calculateParetoFrontier_filter.
  - exact Hmem.
  - intros a b Ha Hb. apply Hmem in Ha as [Ha _]. apply Hmem in Hb as [_ Hb].
    now apply Hb.
  - intros p Hin Hout.
    apply (dominated_by_frontier points
             (S (List.length (dominators points p)))); [lia|exact Hin|].
    destruct (has_no_dominator points p) eqn:E; [|reflexivity].
    exfalso. apply Hout. rewrite calculateParetoFrontier_filter.
    apply filter_In. now split.
Qed.

End Pareto.

(** ** [calculateCES] stays within [0, 100] *)

(** C6: for every metrics snapshot and every weight configuration,
    [calculateCES] returns a value in the closed interval [0, 100]. *)
Theorem calculateCES_in_0_100 (config_ : Config) (metrics : PerformanceMetrics) :
  le 0 (calculateCES config_ metrics) = true /\
  le (calculateCES config_ metrics) 100 = true.
Proof. unfold calculateCES. apply clamp_0_100. Qed.

(** The two synthetic extremes under the default weights: every component
    at 0 gives 0, every component at 100 gives 60. *)
Example calculateCES_extremes (cto : CTOConfig) :
  calculateCES (default_Config cto) (all_components 0) = 0%float /\
  calculateCES (default_Config cto) (all_components 100) = 60%float.
Proof. split; vm_compute; reflexivity. Qed.

(** ** [findOptimalPoint] *)

Section Optimal.

Variable scene : SceneType.

(** The loop returns the point it was entered with or a frontier point. *)
Lemma optimal_loop_cases frontier : forall best_score optimal,
  optimal_loop scene best_score optimal frontier = optimal \/
  In (optimal_loop scene best_score optimal frontier) frontier.
Proof.
  induction frontier as [|point rest IH]; intros best_score optimal;
    cbn [optimal_loop]; [now left|].
  destruct (gt (point_score scene point) best_score).
  - right. destruct (IH (point_score scene point) point) as [->|H];
      [now left|now right].
  - destruct (IH best_score optimal) as [->|H]; [now left|right; now right].
Qed.

(** Once some score exceeds the running best, the result is a frontier
    point. *)
Lemma optimal_loop_In frontier : forall best_score optimal,
  existsb (fun p => gt (point_score scene p) best_score) frontier = true ->
  In (optimal_loop scene best_score optimal frontier) frontier.
Proof.
  induction frontier as [|point rest IH]; intros best_score optimal Hex;
    [discriminate|].
  cbn [optimal_loop existsb] in *.
  destruct (gt (point_score scene point) best_score) eqn:E.
  - destruct (optimal_loop_cases rest (point_score scene point) point)
      as [->|H]; [now left|now right].
  - right. apply IH. exact Hex.
Qed.

(** When no score exceeds the running best, the loop hands back what it was
    entered with. *)
Lemma optimal_loop_none frontier : forall best_score optimal,
  existsb (fun p => gt (point_score scene p) best_score) frontier = false ->
  optimal_loop scene best_score optimal frontier = optimal.
Proof.
  induction frontier as [|point rest IH]; intros best_score optimal Hex;
    [reflexivity|].
  cbn [optimal_loop existsb] in *.
  apply orb_false_iff in Hex as [-> Hex]. now apply IH.
Qed.

End Optimal.

(** C2, at the failing input: whatever the scene, on the one-point frontier
    [low_score_point] (score below -1) the loop never assigns [optimal], and
    the function returns the default-initialised local, which is not a member
    of the frontier. *)
Theorem findOptimalPoint_low_score_not_member (cfg : Config) :
  (forall junk,
     findOptimalPoint cfg junk [low_score_point] =
     ParetoPoint_uninitialized junk) /\
  ~ In (findOptimalPoint cfg junk_ones [low_score_point]) [low_score_point].
Proof.
  assert (H : forall junk,
             findOptimalPoint cfg junk [low_score_point] =
             ParetoPoint_uninitialized junk).
  { intros junk. unfold findOptimalPoint. apply optimal_loop_none.
    destruct (current_scene cfg); vm_compute; reflexivity. }
  split; [exact H|].
  rewrite H. intros [E|[]]. discriminate E.
Qed.

(** The empty frontier gives the zero point, and a frontier holding a point
    that scores above -1 gives one of its members. *)
Lemma findOptimalPoint_member (cfg : Config) (junk : Indeterminate)
  (frontier : list ParetoPoint) :
  findOptimalPoint cfg junk [] = ParetoPoint_zero /\
  (existsb (fun p => gt (point_score (current_scene cfg) p) (-1)) frontier
   = true ->
   In (findOptimalPoint cfg junk frontier) frontier).
Proof.
  split; [reflexivity|]. intros Hex.
  destruct frontier as [|p rest]; [discriminate|].
  unfold findOptimalPoint. now apply optimal_loop_In.
Qed.

(** ** [calculateNashEquilibrium] *)

Section Nash.

Implicit Types x y : double.







Lemma loop_undefined {A B} (f : option A -> B -> option A) (l : list B) :
  (forall b, f None b = None) -> fold_left f l None = None.
Proof. intros H. induction l as [|b l IH]; cbn; [reflexivity|]. now rewrite H. Qed.

(** And undefined when the row is too short. *)
Lemma row_loop_undefined (row : list double)
  (body : double -> nat -> double -> double) (num_strategies : nat) :
  List.length row < num_strategies ->
  forall acc,
    fold_left (fun acc j =>
                 match acc, nth_error row j with
                 | Some acc, Some payoff => Some (body acc j payoff)
                 | _, _ => None
                 end)
              (seq 0 num_strategies) acc = None.
Proof.
  intros Hn acc.
  replace num_strategies
    with (List.length row + S (num_strategies - S (List.length row))) by lia.
  rewrite seq_app, fold_left_app. cbn [seq fold_left Nat.add].
  replace (nth_error row (List.length row)) with (@None double)
    by (symmetry; apply nth_error_None; lia).
  match goal with
  | |- fold_left _ _ ?x = None =>
      replace x with (@None double) by (now destruct (fold_left _ _ acc))
  end.
  apply loop_undefined. reflexivity.
Qed.


Lemma all_defined_None {A} (l : list (option A)) :
  In None l -> all_defined l = None.
Proof.
  induction l as [|x l IH]; intros H; [destruct H|]. cbn [all_defined].
  destruct H as [->|H]; [reflexivity|]. rewrite (IH H). now destruct x.
Qed.











(** A row with fewer entries than there are rows is read past its end in
    the first iteration: the call is undefined. *)
Lemma calculateNashEquilibrium_short_row
  (junk_utility : double) (payoff_matrix : list (list double))
  (row : list double) :
  In row payoff_matrix ->
  List.length row < List.length payoff_matrix ->
  calculateNashEquilibrium junk_utility payoff_matrix = None.
Proof.
  intros Hin Hshort. unfold calculateNashEquilibrium.
  destruct (List.length payoff_matrix) as [|n] eqn:En; [lia|].
  rewrite <- En. unfold max_iterations. cbn [nash_iterate].
  unfold nash_step, clamped_payoffs.
  rewrite all_defined_None; [reflexivity|].
  apply (In_nth _ _ []) in Hin as (i & Hi & Hrow).
  apply in_map_iff. exists i. split; [|apply in_seq; lia].
  rewrite Hrow. unfold expected_payoff.
  rewrite (row_loop_undefined row
             (fun acc j payoff =>
                (acc + at_index _ j * payoff)%float)); [reflexivity|lia].
Qed.

(** Dividing by the sum does not make the sum 1 when the sum overflows:
    every entry of the result is 0. *)
Example calculateNashEquilibrium_overflow :
  option_map strategies
    (calculateNashEquilibrium 0 [[1e308; 1e308]; [1e308; 1e308]]%float)
  = Some [0; 0]%float.
Proof. vm_compute. reflexivity. Qed.

End Nash.

(** ** [start] and [stop] *)

Section Lifecycle.

Implicit Types e : Engine.

Lemma stop_not_running e : running_ e = false -> stop e = e.
Proof. unfold stop. now intros ->. Qed.

Lemma running_join_main e : running_ (join_main e) = running_ e.
Proof. unfold join_main. now destruct (main_thread_ e). Qed.

Lemma running_join_monitor e : running_ (join_monitor e) = running_ e.
Proof. unfold join_monitor. now destruct (monitor_thread_ e). Qed.

Lemma running_stop e : running_ (stop e) = false.
Proof.
  unfold stop. destruct (running_ e) eqn:E; cbn [negb]; [|exact E].
  unfold logInfo, log. cbn [running_ set_log_].
  now rewrite running_join_monitor, running_join_main.
Qed.

Lemma shutdown_entries_log e lvl msg :
  shutdown_entries (log lvl msg e)
  = shutdown_entries e
    + (if is_shutdown_entry {| level := lvl; message := msg |} then 1 else 0).
Proof.
  unfold shutdown_entries, log. cbn [log_ set_log_].
  rewrite filter_app, length_app. cbn [filter].
  now destruct (is_shutdown_entry _).
Qed.

Lemma shutdown_entries_join_main e :
  shutdown_entries (join_main e) = shutdown_entries e.
Proof.
  unfold join_main. destruct (main_thread_ e); [|reflexivity].
  change (shutdown_entries (set_threads _ _ ?x)) with (shutdown_entries x).
  unfold logInfo. rewrite shutdown_entries_log. cbn. lia.
Qed.

Lemma shutdown_entries_join_monitor e :
  shutdown_entries (join_monitor e) = shutdown_entries e.
Proof.
  unfold join_monitor. destruct (monitor_thread_ e); [|reflexivity].
  change (shutdown_entries (set_threads _ _ ?x)) with (shutdown_entries x).
  unfold logInfo. rewrite shutdown_entries_log. cbn. lia.
Qed.

(** A [stop] that finds the engine running writes the shutdown line once. *)
Lemma shutdown_entries_stop e :
  running_ e = true -> shutdown_entries (stop e) = S (shutdown_entries e).
Proof.
  intros E. unfold stop. rewrite E. cbn [negb].
  unfold logInfo. rewrite shutdown_entries_log.
  rewrite shutdown_entries_join_monitor, shutdown_entries_join_main.
  change (shutdown_entries (set_running_ false e)) with (shutdown_entries e).
  cbn. lia.
Qed.

(** C8: [stop] on an engine that is not running returns at once and leaves
    every member and the log as they were; so after [start], the second of
    two [stop] calls in a row changes nothing and writes no second shutdown
    line (the first wrote exactly one when [start] had succeeded). *)
Theorem stop_idempotent e :
  (running_ e = false -> stop e = e) /\
  stop (stop e) = stop e /\
  shutdown_entries (stop (stop e)) = shutdown_entries (stop e) /\
  (let started := snd (start e) in
   stop (stop started) = stop started /\
   (fst (start e) = true ->
    shutdown_entries (stop started) = S (shutdown_entries e) /\
    shutdown_entries (stop (stop started)) = S (shutdown_entries e))).
Proof.
  assert (I : forall e', stop (stop e') = stop e')
    by (intros e'; apply stop_not_running, running_stop).
  split; [apply stop_not_running|].
  split; [apply I|]. split; [now rewrite I|].
  cbv zeta. split; [apply I|].
  intros Hstarted. rewrite I.
  assert (X : shutdown_entries (stop (snd (start e)))
              = S (shutdown_entries e)); [|now split].
  unfold start in *. destruct (running_ e); [discriminate|].
  destruct (negb (enable_engine (config_ e))); [discriminate|].
  cbn [snd]. rewrite shutdown_entries_stop by reflexivity.
  unfold logInfo. rewrite shutdown_entries_log.
  change (shutdown_entries (set_threads _ _ (set_running_ _ e)))
    with (shutdown_entries e).
  match goal with
  | |- context [is_shutdown_entry ?x] => change (is_shutdown_entry x) with false
  end.
  cbv iota. lia.
Qed.

End Lifecycle.

(** ** The bounded histories *)

Section Histories.

Lemma tl_app_last {A} (h : list A) (x : A) :
  h <> [] -> tl (h ++ [x]) = tl h ++ [x].
Proof. destruct h; [congruence|reflexivity]. Qed.

Lemma length_tl_app_last {A} (h : list A) (x : A) :
  List.length (tl h ++ [x]) = Nat.max 1 (List.length h).
Proof. destruct h; cbn [tl List.length app]; rewrite ?length_app; cbn; lia. Qed.

Lemma performance_history_push_eq metrics e :
  performance_history_ (performance_history_push metrics e)
  = (if MAX_HISTORY_SIZE <=? List.length (performance_history_ e)
     then tl (performance_history_ e) else performance_history_ e)
    ++ [metrics].
Proof. reflexivity. Qed.

Lemma evolution_history_push_length history h :
  List.length h <= 100 ->
  List.length (evolution_history_push history h) <= 100.
Proof.
  intros Hh. unfold evolution_history_push.
  destruct (Nat.ltb_spec 100 (List.length (h ++ [history]))) as [Hfull|Hroom].
  - rewrite length_app in Hfull. cbn [List.length] in Hfull.
    destruct h as [|x h]; cbn [app tl List.length] in *; [lia|].
    rewrite length_app. cbn [List.length]. lia.
  - exact Hroom.
Qed.

Lemma evolution_history_push_eq history h :
  List.length h <= 100 ->
  evolution_history_push history h
  = (if List.length h =? 100 then tl h else h) ++ [history].
Proof.
  intros Hh. unfold evolution_history_push. rewrite length_app.
  cbn [List.length].
  destruct (Nat.ltb_spec 100 (List.length h + 1)) as [Hfull|Hroom];
    destruct (Nat.eqb_spec (List.length h) 100) as [E|E]; try lia.
  - apply tl_app_last. intros ->. cbn in E. lia.
  - reflexivity.
Qed.

Lemma performance_history_push_length metrics e :
  List.length (performance_history_ e) <= MAX_HISTORY_SIZE ->
  List.length (performance_history_ (performance_history_push metrics e))
  <= MAX_HISTORY_SIZE.
Proof.
  intros Hperf. rewrite performance_history_push_eq.
  destruct (Nat.leb_spec MAX_HISTORY_SIZE
                         (List.length (performance_history_ e))).
  - rewrite length_tl_app_last. unfold MAX_HISTORY_SIZE in *. lia.
  - rewrite length_app. cbn [List.length]. lia.
Qed.

Lemma updateEvolutionState_length now e :
  List.length (evolution_history_ e) <= 100 ->
  List.length (evolution_history_ (updateEvolutionState now e)) <= 100.
Proof.
  intros Hevo. unfold updateEvolutionState.
  destruct (evolution_active_ e), (population_manager_ e); try exact Hevo.
  now apply evolution_history_push_length.
Qed.

(** Any run of appends keeps the bounds. *)
Lemma performance_history_run ms : forall e,
  List.length (performance_history_ e) <= MAX_HISTORY_SIZE ->
  List.length
    (performance_history_
       (fold_left (fun e m => performance_history_push m e) ms e))
  <= MAX_HISTORY_SIZE.
Proof.
  induction ms as [|m ms IH]; intros e He; [exact He|].
  cbn [fold_left]. apply IH. now apply performance_history_push_length.
Qed.

Lemma evolution_history_run nows : forall e,
  List.length (evolution_history_ e) <= 100 ->
  List.length
    (evolution_history_
       (fold_left (fun e now => updateEvolutionState now e) nows e))
  <= 100.
Proof.
  induction nows as [|now nows IH]; intros e He; [exact He|].
  cbn [fold_left]. apply IH. now apply updateEvolutionState_length.
Qed.

(** C9: an append keeps the performance history within [MAX_HISTORY_SIZE]
    (1000) entries and the evolution history within 100; an append to a full
    buffer drops the oldest entry (the head) and puts the new one last, an
    append to a buffer with room only adds the new entry; so no run of
    appends ever takes a history over its bound. *)
Theorem history_buffers_bounded
  (metrics : PerformanceMetrics) (now : Z) (e : Engine) :
  List.length (performance_history_ e) <= MAX_HISTORY_SIZE ->
  List.length (evolution_history_ e) <= 100 ->
  MAX_HISTORY_SIZE = 1000 /\
  List.length (performance_history_ (performance_history_push metrics e))
    <= MAX_HISTORY_SIZE /\
  performance_history_ (performance_history_push metrics e)
    = (if List.length (performance_history_ e) =? MAX_HISTORY_SIZE
       then tl (performance_history_ e) else performance_history_ e)
      ++ [metrics] /\
  List.length (evolution_history_ (updateEvolutionState now e)) <= 100 /\
  (forall pm,
     evolution_active_ e = true -> population_manager_ e = Some pm ->
     evolution_history_ (updateEvolutionState now e)
     = (if List.length (evolution_history_ e) =? 100
        then tl (evolution_history_ e) else evolution_history_ e)
       ++ [make_history now (current_generation_ e) pm]) /\
  (forall ms,
     List.length
       (performance_history_
          (fold_left (fun e m => performance_history_push m e) ms e))
     <= MAX_HISTORY_SIZE) /\
  (forall nows,
     List.length
       (evolution_history_
          (fold_left (fun e now => updateEvolutionState now e) nows e))
     <= 100).
Proof.
  intros Hperf Hevo. split; [reflexivity|].
  split; [now apply performance_history_push_length|].
  split.
  { rewrite performance_history_push_eq.
    destruct (Nat.leb_spec MAX_HISTORY_SIZE
                           (List.length (performance_history_ e)));
      destruct (Nat.eqb_spec (List.length (performance_history_ e))
                             MAX_HISTORY_SIZE); try lia; reflexivity. }
  split; [now apply updateEvolutionState_length|].
  split.
  { intros pm Ha Hp. unfold updateEvolutionState. rewrite Ha, Hp.
    now apply evolution_history_push_eq. }
  split.
  - intros ms. now apply performance_history_run.
  - intros nows. now apply evolution_history_run.
Qed.

End Histories.

(** ** The task registry holds one entry per pid *)

Section Tasks.

Implicit Types (tasks : list TaskInfo) (p : Z) (e : Engine).

Lemma existsb_has_pid tasks p :
  existsb (has_pid p) tasks = true <-> In p (map pid tasks).
Proof.
  rewrite existsb_exists, in_map_iff. unfold has_pid.
  split; intros (t & H1 & H2); exists t.
  - apply Z.eqb_eq in H2. now split.
  - split; [exact H2|]. now apply Z.eqb_eq.
Qed.

Lemma find_has_pid_None tasks p :
  find (has_pid p) tasks = None <-> ~ In p (map pid tasks).
Proof.
  rewrite <- existsb_has_pid. induction tasks as [|t rest IH]; cbn.
  - split; [discriminate|reflexivity].
  - destruct (has_pid p t); cbn; [|exact IH].
    split; [discriminate|intros H; now elim H].
Qed.

Lemma NoDup_pids_snoc tasks t :
  NoDup (map pid tasks) -> ~ In (pid t) (map pid tasks) ->
  NoDup (map pid (tasks ++ [t])).
Proof.
  intros Hnd Hnew. rewrite map_app. cbn [map].
  induction tasks as [|x rest IH]; cbn [map app] in *.
  - constructor; [intros []|constructor].
  - inversion Hnd as [|? ? Hx Hrest]; subst. constructor.
    + rewrite in_app_iff. cbn. intros [H|[H|[]]]; [now apply Hx|].
      apply Hnew. now left.
    + apply IH; [exact Hrest|]. intros H. apply Hnew. now right.
Qed.

Lemma NoDup_pids_filter (keep : TaskInfo -> bool) tasks :
  NoDup (map pid tasks) -> NoDup (map pid (filter keep tasks)).
Proof.
  induction tasks as [|x rest IH]; cbn [filter map]; intros Hnd;
    [constructor|].
  inversion Hnd as [|? ? Hx Hrest]; subst.
  destruct (keep x); [|now apply IH]. cbn [map]. constructor; [|now apply IH].
  intros (t & Ht & Hin%filter_In)%in_map_iff. apply Hx.
  apply in_map_iff. exists t. now split.
Qed.

Lemma erase_first_incl (f : TaskInfo -> bool) tasks t :
  In t (erase_first f tasks) -> In t tasks.
Proof.
  induction tasks as [|x rest IH]; cbn [erase_first]; [easy|].
  destruct (f x); [now right|]. intros [->|H]; [now left|right; now apply IH].
Qed.

Lemma NoDup_pids_erase_first (f : TaskInfo -> bool) tasks :
  NoDup (map pid tasks) -> NoDup (map pid (erase_first f tasks)).
Proof.
  induction tasks as [|x rest IH]; cbn [erase_first map]; intros Hnd;
    [constructor|].
  inversion Hnd as [|? ? Hx Hrest]; subst.
  destruct (f x); [exact Hrest|]. cbn [map]. constructor; [|now apply IH].
  intros (t & Ht & Hin%erase_first_incl)%in_map_iff. apply Hx.
  apply in_map_iff. exists t. now split.
Qed.

Lemma erase_first_length tasks p :
  In p (map pid tasks) ->
  S (List.length (erase_first (has_pid p) tasks)) = List.length tasks.
Proof.
  induction tasks as [|x rest IH]; cbn [erase_first map]; [intros []|].
  intros Hin. destruct (has_pid p x) eqn:E; [reflexivity|].
  cbn [List.length]. f_equal. apply IH. destruct Hin as [H|H]; [|exact H].
  unfold has_pid in E. apply Z.eqb_neq in E. congruence.
Qed.

Lemma erase_first_gone tasks p :
  NoDup (map pid tasks) -> ~ In p (map pid (erase_first (has_pid p) tasks)).
Proof.
  induction tasks as [|x rest IH]; cbn [erase_first map]; intros Hnd;
    [intros []|].
  inversion Hnd as [|? ? Hx Hrest]; subst.
  destruct (has_pid p x) eqn:E.
  - unfold has_pid in E. apply Z.eqb_eq in E. now subst p.
  - cbn [map]. intros [H|H]; [|now apply IH in H].
    unfold has_pid in E. apply Z.eqb_neq in E. congruence.
Qed.

Lemma detect_task_tasks env e p :
  active_tasks_ (detect_task env e p)
  = if existsb (has_pid p) (active_tasks_ e) then active_tasks_ e
    else active_tasks_ e ++ [new_task env p].
Proof.
  unfold detect_task. now destruct (existsb _ _).
Qed.

Lemma detect_tasks_NoDup env pids : forall e,
  NoDup (map pid (active_tasks_ e)) ->
  NoDup (map pid (active_tasks_ (fold_left (detect_task env) pids e))).
Proof.
  induction pids as [|p rest IH]; intros e Hnd; [exact Hnd|].
  cbn [fold_left]. apply IH. rewrite detect_task_tasks.
  destruct (existsb (has_pid p) (active_tasks_ e)) eqn:E; [exact Hnd|].
  apply NoDup_pids_snoc; [exact Hnd|]. cbn [new_task pid].
  intros H%existsb_has_pid. congruence.
Qed.

(** C10: when the task list holds no pid twice, it still does after
    [addTask], [removeTask], a pass of the monitor loop and
    [updateTaskPriorities]; [addTask] leaves the engine as it was when the
    pid is present and appends the task otherwise; [removeTask] leaves the
    engine as it was when the pid is absent and otherwise removes the one
    entry with that pid; the monitor loop appends a new task only for a pid
    that no entry has yet. *)
Theorem active_tasks_unique_pids
  (task : TaskInfo) (p : Z) (env : ProcessTable) (e : Engine) :
  NoDup (map pid (active_tasks_ e)) ->
  NoDup (map pid (active_tasks_ (addTask task e))) /\
  (In (pid task) (map pid (active_tasks_ e)) -> addTask task e = e) /\
  (~ In (pid task) (map pid (active_tasks_ e)) ->
   active_tasks_ (addTask task e) = active_tasks_ e ++ [task]) /\
  NoDup (map pid (active_tasks_ (removeTask p e))) /\
  (~ In p (map pid (active_tasks_ e)) -> removeTask p e = e) /\
  (In p (map pid (active_tasks_ e)) ->
   S (List.length (active_tasks_ (removeTask p e)))
   = List.length (active_tasks_ e) /\
   ~ In p (map pid (active_tasks_ (removeTask p e))) /\
   forall t, In t (active_tasks_ (removeTask p e)) -> In t (active_tasks_ e)) /\
  NoDup (map pid (active_tasks_ (monitoringLoop_pass env e))) /\
  (forall e0 q,
     active_tasks_ (detect_task env e0 q)
     = if existsb (has_pid q) (active_tasks_ e0) then active_tasks_ e0
       else active_tasks_ e0 ++ [new_task env q]) /\
  NoDup (map pid (active_tasks_ (updateTaskPriorities e))).
Proof.
  intros Hnd.
  repeat match goal with |- _ /\ _ => split end.
  - unfold addTask. destruct (find _ _) eqn:E; [exact Hnd|].
    apply NoDup_pids_snoc; [exact Hnd|]. now apply find_has_pid_None.
  - intros Hin. unfold addTask. destruct (find _ _) eqn:E; [reflexivity|].
    now apply find_has_pid_None in E.
  - intros Hout. apply find_has_pid_None in Hout. unfold addTask.
    now rewrite Hout.
  - unfold removeTask. destruct (find _ _); [|exact Hnd].
    now apply NoDup_pids_erase_first.
  - intros Hout. apply find_has_pid_None in Hout. unfold removeTask.
    now rewrite Hout.
  - intros Hin. unfold removeTask. destruct (find _ _) eqn:E.
    + cbn [active_tasks_ set_active_tasks_]. split; [|split].
      * now apply erase_first_length.
      * now apply erase_first_gone.
      * intros t0. apply erase_first_incl.
    + apply find_has_pid_None in E. contradiction.
  - unfold monitoringLoop_pass. apply detect_tasks_NoDup.
    now apply NoDup_pids_filter.
  - intros e0 q. apply detect_task_tasks.
  - unfold updateTaskPriorities. cbn [active_tasks_ set_active_tasks_].
    rewrite map_map. cbn [pid set_priority]. exact Hnd.
Qed.

End Tasks.

(** ** [updateAdaptiveSampling] *)

Section AdaptiveSampling.

Lemma low_is_not_high (a low high : double) :
  lt low high = true -> lt a low = true -> gt a high = false.
Proof.
  intros Hlh Ha. change (lt high a = false).
  destruct (lt high a) eqn:E; [|reflexivity].
  pose proof (lt_le_trans _ _ _ E (lt_le _ _ Ha)) as H1.
  pose proof (lt_le_trans _ _ _ H1 (lt_le _ _ Hlh)) as H2.
  now rewrite lt_irrefl in H2.
Qed.

(** C4, as the code has it: with adaptive sampling enabled and a monitor
    present, the interval is widened (times 1.2, capped at the maximum) as
    soon as ONE of the two averages is high (cpu above 80 or memory above
    85); it is narrowed (times 0.8, floored at the minimum) when both are low
    (cpu below 20 and memory below 30); in every other case it is left as it
    was. *)
Theorem updateAdaptiveSampling_interval
  (sensors : Sensors) (e : Engine) (monitor : PerformanceMonitor) :
  enable_adaptive_sampling (optimization_config_ e) = true ->
  performance_monitor_ e = Some monitor ->
  let monitor' :=
    addSample (getCPUUsage sensors) (getMemoryUsage sensors) monitor in
  let cpu := avg_cpu_usage monitor' in
  let mem := avg_memory_usage monitor' in
  let c := adaptive_config_ e in
  let e' := updateAdaptiveSampling sensors e in
  performance_monitor_ e' = Some monitor' /\
  (gt cpu 80 = true \/ gt mem 85 = true ->
   base_sampling_interval (adaptive_config_ e')
   = std_min (base_sampling_interval c * 1.2) (max_sampling_interval c)) /\
  (lt cpu 20 = true /\ lt mem 30 = true ->
   base_sampling_interval (adaptive_config_ e')
   = std_max (base_sampling_interval c * 0.8) (min_sampling_interval c)) /\
  (gt cpu 80 = false -> gt mem 85 = false ->
   lt cpu 20 = false \/ lt mem 30 = false ->
   base_sampling_interval (adaptive_config_ e') = base_sampling_interval c).
Proof.
  intros Hen Hmon. cbv zeta. unfold updateAdaptiveSampling.
  rewrite Hen, Hmon.
  cbn [performance_monitor_ adaptive_config_ logInfo log set_log_
       set_adaptive_config_ set_performance_monitor_
       base_sampling_interval set_base_sampling_interval
       getCurrentMetrics cpu_usage memory_usage].
  set (monitor' := addSample _ _ monitor).
  unfold adapted_interval, shouldReduceSampling, shouldIncreaseSampling.
  split; [reflexivity|]. split; [|split].
  - intros [H|H]; rewrite H; [reflexivity|].
    now rewrite orb_true_r.
  - intros [Hc Hm].
    rewrite (low_is_not_high _ 20 80 eq_refl Hc).
    rewrite (low_is_not_high _ 30 85 eq_refl Hm).
    now rewrite Hc, Hm.
  - intros Hc Hm Hlow. rewrite Hc, Hm. cbn [orb].
    destruct Hlow as [H|H]; rewrite H; [reflexivity|].
    now rewrite andb_false_r.
Qed.

(** Without the option or without a monitor nothing is touched. *)
Lemma updateAdaptiveSampling_off (sensors : Sensors) (e : Engine) :
  enable_adaptive_sampling (optimization_config_ e) = false \/
  performance_monitor_ e = None ->
  updateAdaptiveSampling sensors e = e.
Proof.
  unfold updateAdaptiveSampling. intros [->| ->]; [reflexivity|].
  now destruct (enable_adaptive_sampling _).
Qed.

End AdaptiveSampling.

(** ** [checkEvolutionConvergence] *)

Section Convergence.

Lemma consecutive_generations_span older : forall oldest middle latest,
  consecutive_generations (older ++ oldest :: middle ++ [latest]) ->
  generation latest
  = (generation oldest + Z.of_nat (S (List.length middle)))%Z.
Proof.
  induction older as [|x older IH]; intros oldest middle latest.
  - cbn [app]. revert oldest.
    induction middle as [|m middle IHm]; intros oldest.
    + cbn. intros [H _]. lia.
    + cbn [app consecutive_generations]. intros [H Hrest].
      rewrite (IHm m Hrest). cbn [List.length]. lia.
  - cbn [app consecutive_generations]. intros [_ Hrest]. now apply IH.
Qed.

(** C7, as the code has it: with fewer than ten entries, or without a
    population manager, the check changes nothing; otherwise it compares the
    best fitness of the latest entry with that of the entry nine places
    before it (the oldest of the last ten, recorded nine generations earlier
    when there is one entry per generation), and clears [evolution_active_]
    (logging the fact) exactly when the absolute difference is below the
    threshold. *)
Theorem checkEvolutionConvergence_window (e : Engine) :
  (List.length (evolution_history_ e) < 10 ->
   checkEvolutionConvergence e = e) /\
  (population_manager_ e = None -> checkEvolutionConvergence e = e) /\
  (forall pm older oldest middle latest,
     population_manager_ e = Some pm ->
     evolution_history_ e = older ++ oldest :: middle ++ [latest] ->
     List.length middle = 8 ->
     checkEvolutionConvergence e
     = (if lt (PrimFloat.abs (best_fitness latest - best_fitness oldest))
              (ec_convergence_threshold (evolution_config_ e))
        then set_evolution_active_ false (logInfo convergence_message e)
        else e) /\
     (consecutive_generations (evolution_history_ e) ->
      generation latest = (generation oldest + 9)%Z)).
Proof.
  split; [|split].
  - intros Hshort. unfold checkEvolutionConvergence.
    destruct (population_manager_ e); [|reflexivity].
    destruct (Nat.ltb_spec (List.length (evolution_history_ e)) 10);
      [reflexivity|lia].
  - intros Hnone. unfold checkEvolutionConvergence. now rewrite Hnone.
  - intros pm older oldest middle latest Hpm Hh Hlen. split.
    + unfold checkEvolutionConvergence. rewrite Hpm, Hh.
      assert (L : List.length (older ++ oldest :: middle ++ [latest])
                  = List.length older + 10).
      { rewrite length_app. cbn [List.length]. rewrite length_app, Hlen.
        cbn [List.length]. lia. }
      rewrite L.
      destruct (Nat.ltb_spec (List.length older + 10) 10); [lia|].
      unfold best_fitness_at.
      replace (List.length older + 10 - 1) with (List.length older + 9)
        by lia.
      replace (List.length older + 10 - 10) with (List.length older + 0)
        by lia.
      rewrite !nth_error_app2 by lia.
      replace (List.length older + 9 - List.length older) with 9 by lia.
      replace (List.length older + 0 - List.length older) with 0 by lia.
      change (nth_error (oldest :: middle ++ [latest]) 9)
        with (nth_error (middle ++ [latest]) 8).
      rewrite nth_error_app2 by lia.
      rewrite Hlen. reflexivity.
    + intros Hcons. rewrite Hh in Hcons.
      rewrite (consecutive_generations_span _ _ _ _ Hcons), Hlen. lia.
Qed.

End Convergence.

(** ** [loadConfig] *)

Section ConfigFile.

Variable stod : string -> double + exception.

Lemma substring_all (s : string) : String.substring 0 (String.length s) s = s.
Proof. induction s as [|c s IH]; cbn; [reflexivity|now rewrite IH]. Qed.

(** A [scheduling_interval] line throws exactly when [std::stoi] does. *)
Lemma parse_line_scheduling_interval (value : string) (c : Config) :
  parse_line stod ("scheduling_interval=" ++ value) c
  = match stoi (trim value) with
    | inl v => inl (set_scheduling_interval v c)
    | inr ex => inr ex
    end.
Proof.
  destruct value as [|ch rest]; [reflexivity|].
  unfold parse_line. cbn [append].
  change (String.index 0 "=" _) with (Some 19).
  cbv beta iota.
  change (trim (String.substring 0 19 _)) with "scheduling_interval"%string.
  change (String.substring (19 + 1) _ _)
    with (String.substring 0 (String.length (String ch rest))
                           (String ch rest)).
  rewrite substring_all. reflexivity.
Qed.

Lemma parse_lines_app (before after : list string) : forall c c',
  parse_lines stod before c = (c', Returned) ->
  parse_lines stod (before ++ after) c = parse_lines stod after c'.
Proof.
  induction before as [|line before IH]; intros c c' H; cbn [app parse_lines] in *.
  - now injection H as ->.
  - destruct (parse_line stod line c); [now apply IH|discriminate].
Qed.

(** The loop body is the chain applied to the key and the value of the
    line. *)
Lemma parse_line_key_value (line : string) (c : Config) :
  parse_line stod line c
  = match key_value line with
    | None => inl c
    | Some (key, value) => apply_setting stod key value c
    end.
Proof.
  unfold parse_line, key_value, apply_setting.
  repeat match goal with
         | |- context [match ?x with _ => _ end] => destruct x
         end; reflexivity.
Qed.

(** The chain throws exactly on a numeric key whose value the conversion
    rejects. *)
Lemma apply_setting_throws (key value : string) (c : Config) (ex : exception) :
  apply_setting stod key value c = inr ex <->
  (if String.eqb key "scheduling_interval"
   then match stoi value with
        | inr ex => Some ex
        | inl _ => None
        end
   else if is_key weight_keys key
   then match stod value with
        | inr ex => Some ex
        | inl _ => None
        end
   else None) = Some ex.
Proof.
  unfold apply_setting, is_key, weight_keys. cbn [existsb].
  destruct (String.eqb_spec key "enable_engine") as [->|_];
    [cbn; split; discriminate|].
  destruct (String.eqb_spec key "scheduling_interval") as [->|_];
    [destruct (stoi value); split; congruence|].
  destruct (String.eqb_spec key "optimization_enabled") as [->|_];
    [cbn; split; discriminate|].
  destruct (String.eqb_spec key "responsiveness_weight") as [->|_];
    [cbn [orb]; destruct (stod value); split; congruence|].
  destruct (String.eqb_spec key "fluency_weight") as [->|_];
    [cbn [orb]; destruct (stod value); split; congruence|].
  destruct (String.eqb_spec key "efficiency_weight") as [->|_];
    [cbn [orb]; destruct (stod value); split; congruence|].
  destruct (String.eqb_spec key "thermal_weight") as [->|_];
    [cbn [orb]; destruct (stod value); split; congruence|].
  cbn [orb]. split; discriminate.
Qed.

Lemma apply_setting_unknown (key value : string) (c : Config) :
  is_key recognised_keys key = false ->
  apply_setting stod key value c = inl c.
Proof.
  unfold apply_setting, is_key, recognised_keys, weight_keys.
  cbn [existsb app]. intros H.
  repeat (apply orb_false_iff in H as [-> H]). reflexivity.
Qed.

Lemma parse_line_throws (line : string) (c : Config) (ex : exception) :
  parse_line stod line c = inr ex <-> rejected_value stod line = Some ex.
Proof.
  rewrite parse_line_key_value. unfold rejected_value.
  destruct (key_value line) as [[key value]|]; [|split; discriminate].
  apply apply_setting_throws.
Qed.

Lemma parse_line_passed_over (line : string) (c : Config) :
  passed_over line = true -> parse_line stod line c = inl c.
Proof.
  rewrite parse_line_key_value. unfold passed_over.
  destruct (key_value line) as [[key value]|]; [|reflexivity].
  intros H. apply negb_true_iff in H. now apply apply_setting_unknown.
Qed.

(** Lines without a rejected value are read to the end. *)
Lemma parse_lines_accepted (lines : list string) : forall c,
  forallb (accepted stod) lines = true ->
  snd (parse_lines stod lines c) = Returned.
Proof.
  induction lines as [|line lines IH]; intros c H; [reflexivity|].
  cbn [forallb parse_lines] in *. apply andb_true_iff in H as [Hline H].
  destruct (parse_line stod line c) as [c'|ex] eqn:E; [now apply IH|].
  apply parse_line_throws in E. unfold accepted in Hline.
  now rewrite E in Hline.
Qed.

(** C3, as the code has it.  In the file [loadConfig] opens (the one under
    the "/data/config/" variant of the path, or else the one under the path
    itself), take the first line that is malformed: its key is
    [scheduling_interval] and [std::stoi] rejects the trimmed value, or its
    key is a weight and [std::stod] rejects the trimmed value.  The
    exception leaves [loadConfig] at that line: the configuration is what
    the lines before it made it, no line after it is applied, and the log
    gains the line that names the file and nothing else (no warning, no
    closing line).  A line throws only in this way; comments, empty lines,
    lines without '=' and lines with an unknown key change nothing and
    the loop goes on; and a [scheduling_interval] line is rejected exactly
    when [std::stoi] finds no number in the trimmed value or one outside
    [int]. *)
Theorem loadConfig_malformed_line
  (files : string -> option (list string)) (configPath : string) (e : Engine)
  (path : string) (before after : list string) (line : string)
  (ex : exception) :
  opened_config files configPath = Some (path, before ++ line :: after) ->
  forallb (accepted stod) before = true ->
  rejected_value stod line = Some ex ->
  loadConfig stod files configPath e
  = (set_config_ (fst (parse_lines stod before (config_ e)))
       (logInfo [Text "使用配置文件: "; Text path] e),
     Thrown ex) /\
  snd (parse_lines stod before (config_ e)) = Returned /\
  log_ (fst (loadConfig stod files configPath e))
  = log_ e ++ [{| level := INFO;
                  message := [Text "使用配置文件: "; Text path] |}] /\
  (forall l c0 ex0,
     parse_line stod l c0 = inr ex0 <-> rejected_value stod l = Some ex0) /\
  (forall l rest c0,
     passed_over l = true ->
     parse_lines stod (l :: rest) c0 = parse_lines stod rest c0) /\
  (forall value c0,
     parse_line stod ("scheduling_interval=" ++ value) c0
     = match stoi (trim value) with
       | inl v => inl (set_scheduling_interval v c0)
       | inr ex0 => inr ex0
       end).
Proof.
  intros Hfile Hbefore Hline.
  assert (Hload : loadConfig stod files configPath e
                  = (set_config_ (fst (parse_lines stod before (config_ e)))
                       (logInfo [Text "使用配置文件: "; Text path] e),
                     Thrown ex)).
  { pose proof (parse_lines_accepted before (config_ e) Hbefore) as Hret.
    destruct (parse_lines stod before (config_ e)) as [c o] eqn:Hc.
    cbn [fst snd] in *. subst o.
    assert (Hrun : parse_lines stod (before ++ line :: after) (config_ e)
                   = (c, Thrown ex)).
    { rewrite (parse_lines_app _ _ _ _ Hc). cbn [parse_lines].
      now rewrite (proj2 (parse_line_throws line c ex) Hline). }
    unfold loadConfig. unfold opened_config in Hfile.
    destruct (files (primary_path configPath)) as [lines|].
    - injection Hfile as <- ->.
      change (config_ (logInfo _ e)) with (config_ e). now rewrite Hrun.
    - destruct (files configPath) as [lines|]; [|discriminate].
      injection Hfile as <- ->.
      change (config_ (logInfo _ e)) with (config_ e). now rewrite Hrun. }
  split; [exact Hload|]. split; [now apply parse_lines_accepted|].
  split; [now rewrite Hload|]. split; [apply parse_line_throws|].
  split; [|apply parse_line_scheduling_interval].
  intros l rest c0 Hl. cbn [parse_lines].
  now rewrite (parse_line_passed_over l c0 Hl).
Qed.

End ConfigFile.

(** ** The theorems at concrete inputs, and the inputs at which the
       specification's wording fails *)

(** [point_b] is left out of the frontier of the three example points, and
    a frontier point dominates it. *)
Lemma calculateParetoFrontier_example :
  calculateParetoFrontier [point_a; point_b; point_c] = [point_a; point_c] /\
  exists r,
    In r (calculateParetoFrontier [point_a; point_b; point_c]) /\
    dominates r point_b = true.
Proof.
  destruct (calculateParetoFrontier_correct [point_a; point_b; point_c])
    as (_ & Hfilter & _ & _ & Hexcluded).
  split.
  - rewrite Hfilter. vm_compute. reflexivity.
  - apply Hexcluded.
    + right. left. reflexivity.
    + rewrite Hfilter. vm_compute. intros [H|[H|[]]]; discriminate H.
Defined.



(** Only the cpu average is high (100, with memory at 0), and the interval
    goes from 30 to 36 all the same. *)
Lemma updateAdaptiveSampling_widens_on_cpu_alone :
  option_map avg_cpu_usage
    (performance_monitor_
       (updateAdaptiveSampling busy_cpu_sensors busy_cpu_engine))
  = Some 100%float /\
  option_map avg_memory_usage
    (performance_monitor_
       (updateAdaptiveSampling busy_cpu_sensors busy_cpu_engine))
  = Some 0%float /\
  gt 100 80 = true /\
  gt 0 85 = false /\
  base_sampling_interval (adaptive_config_ busy_cpu_engine) = 30%float /\
  base_sampling_interval
    (adaptive_config_ (updateAdaptiveSampling busy_cpu_sensors busy_cpu_engine))
  = 36%float.
Proof. repeat split; vm_compute; reflexivity. Qed.

(** Widening on the cpu average alone, and narrowing when both are low. *)
Lemma updateAdaptiveSampling_interval_example :
  base_sampling_interval
    (adaptive_config_ (updateAdaptiveSampling busy_cpu_sensors busy_cpu_engine))
  = std_min (30 * 1.2) 120 /\
  base_sampling_interval
    (adaptive_config_ (updateAdaptiveSampling idle_sensors example_engine))
  = std_max (30 * 0.8) 5.
Proof.
  split.
  - apply (updateAdaptiveSampling_interval busy_cpu_sensors busy_cpu_engine
             busy_cpu_monitor eq_refl eq_refl).
    left. vm_compute. reflexivity.
  - apply (updateAdaptiveSampling_interval idle_sensors example_engine
             PerformanceMonitor_new eq_refl eq_refl).
    split; vm_compute; reflexivity.
Defined.

(** Generations 1 to 11: the entry recorded ten generations before the
    latest is that of generation 1, whose best fitness (0) is 1 away from the
    latest (1), not below the threshold; the check compares with generation 2
    and stops the evolution. *)
Lemma checkEvolutionConvergence_nine_generations_back :
  option_map generation (recorded_generations_earlier 10 history_1_to_11)
  = Some 1%Z /\
  option_map best_fitness (recorded_generations_earlier 10 history_1_to_11)
  = Some 0%float /\
  best_fitness_at history_1_to_11 10 = 1%float /\
  lt (PrimFloat.abs (1 - 0))
     (ec_convergence_threshold
        (evolution_config_ (evolving_engine history_1_to_11))) = false /\
  evolution_active_ (evolving_engine history_1_to_11) = true /\
  evolution_active_
    (checkEvolutionConvergence (evolving_engine history_1_to_11)) = false.
Proof. repeat split; vm_compute; reflexivity. Qed.

Lemma checkEvolutionConvergence_window_example :
  checkEvolutionConvergence (evolving_engine history_1_to_11)
  = set_evolution_active_ false
      (logInfo convergence_message (evolving_engine history_1_to_11)) /\
  generation (history_entry 11 1) = (generation (history_entry 2 1) + 9)%Z.
Proof.
  destruct (checkEvolutionConvergence_window (evolving_engine history_1_to_11))
    as (_ & _ & H).
  destruct (H example_population [history_entry 1 0] (history_entry 2 1)
              (map (fun g => history_entry g 1) [3; 4; 5; 6; 7; 8; 9; 10]%Z)
              (history_entry 11 1) eq_refl eq_refl eq_refl) as [Hcheck Hgen].
  split.
  - rewrite Hcheck. vm_compute. reflexivity.
  - apply Hgen. vm_compute. repeat split.
Defined.

(** After [start], the first [stop] writes the one shutdown line and the
    second changes nothing. *)
Lemma stop_idempotent_example :
  stop (stop (snd (start example_engine))) = stop (snd (start example_engine))
  /\ shutdown_entries (stop (stop (snd (start example_engine)))) = 1.
Proof.
  destruct (stop_idempotent example_engine) as (_ & _ & _ & Htwice & Hcount).
  split; [exact Htwice|].
  destruct (Hcount eq_refl) as [_ H]. exact H.
Defined.

(** Both histories full: the append keeps them full and drops the head. *)
Lemma history_buffers_bounded_example :
  List.length
    (performance_history_
       (performance_history_push (all_components 100) full_history_engine))
  <= MAX_HISTORY_SIZE /\
  List.length
    (evolution_history_ (updateEvolutionState 0 full_history_engine)) <= 100.
Proof.
  destruct (history_buffers_bounded (all_components 100) 0 full_history_engine)
    as (_ & Hperf & _ & Hevo & _ & _ & _).
  - cbn [full_history_engine performance_history_ set_evolution_history_
         set_performance_history_]. rewrite repeat_length. apply le_n.
  - cbn [full_history_engine evolution_history_ set_evolution_history_].
    rewrite repeat_length. apply le_n.
  - split; [exact Hperf|exact Hevo].
Defined.

(** Two tasks with distinct pids: adding a present pid, removing one, and a
    monitor pass whose pid list repeats a new pid. *)
Lemma active_tasks_unique_pids_example :
  addTask (example_task 99 "again") two_task_engine = two_task_engine /\
  map pid (active_tasks_ (removeTask 1234 two_task_engine)) = [99%Z] /\
  NoDup (map pid (active_tasks_
                    (monitoringLoop_pass example_process_table
                                         two_task_engine))).
Proof.
  assert (Hnd : NoDup (map pid (active_tasks_ two_task_engine))).
  { cbn. constructor; [intros [H|[]]; discriminate H|].
    constructor; [intros []|constructor]. }
  destruct (active_tasks_unique_pids (example_task 99 "again") 1234
              example_process_table two_task_engine Hnd)
    as (_ & Hsame & _ & _ & _ & _ & Hmon & _ & _).
  split; [apply Hsame; cbn; auto|]. split; [reflexivity|exact Hmon].
Defined.

(** The file of two lines: the first is malformed, the exception leaves
    [loadConfig], and the second, valid line ([enable_engine=false]) is not
    applied; no warning is written. *)
Lemma loadConfig_malformed_line_aborts :
  snd (loadConfig stod_unused malformed_files config_path example_engine)
  = Thrown invalid_argument /\
  enable_engine (config_ example_engine) = true /\
  enable_engine
    (config_
       (fst (loadConfig stod_unused malformed_files config_path
                        example_engine))) = true /\
  filter is_warning_entry
    (log_ (fst (loadConfig stod_unused malformed_files config_path
                           example_engine))) = [] /\
  option_map enable_engine
    (match parse_line stod_unused "enable_engine=false"
                      (config_ example_engine) with
     | inl c => Some c
     | inr _ => None
     end) = Some false.
Proof. repeat split; vm_compute; reflexivity. Qed.

(** A malformed [scheduling_interval] in the file under the "/data/config/"
    variant of the path, and a malformed weight in the file under the path
    itself: in both, the lines before are applied and none after. *)
Lemma loadConfig_malformed_line_example :
  loadConfig stod_unused three_line_files config_path example_engine
  = (set_config_ (set_enable_engine false (config_ example_engine))
       (logInfo [Text "使用配置文件: "; Text (primary_path config_path)]
                example_engine),
     Thrown invalid_argument) /\
  loadConfig stod_unused fallback_files config_path example_engine
  = (set_config_ (set_scheduling_interval 7 (config_ example_engine))
       (logInfo [Text "使用配置文件: "; Text config_path] example_engine),
     Thrown invalid_argument).
Proof.
  split.
  - apply (loadConfig_malformed_line stod_unused three_line_files config_path
             example_engine (primary_path config_path)
             ["enable_engine=false"%string]
             ["optimization_enabled=false"%string]
             "scheduling_interval=abc" invalid_argument);
      reflexivity.
  - apply (loadConfig_malformed_line stod_unused fallback_files config_path
             example_engine config_path
             ["# weights"; "scheduling_interval = 7 "]%string
             ["enable_engine=false"%string]
             "thermal_weight=hot" invalid_argument);
      reflexivity.
Defined.

(** * Properties of the rest of the engine *)

(** ** The monitor pass reconciles the registry with the process table *)

Section Reconcile.

Implicit Types (tasks : list TaskInfo) (p : Z) (e : Engine).

Lemma filter_all {A} (f : A -> bool) (l : list A) :
  (forall x, In x l -> f x = true) -> filter f l = l.
Proof.
  induction l as [|x l IH]; intros H; [reflexivity|]. cbn [filter].
  rewrite (H x (or_introl eq_refl)). f_equal. apply IH.
  intros y Hy. apply H. now right.
Qed.

Lemma still_running_spec pids task :
  still_running pids task = true <-> In (pid task) pids.
Proof.
  unfold still_running. rewrite existsb_exists. split.
  - intros (q & Hq & E). apply Z.eqb_eq in E. now rewrite E.
  - intros H. exists (pid task). split; [exact H|apply Z.eqb_refl].
Qed.

(** What the detection loop leaves: the tasks it found, then one fresh entry
    for some of the pids it read; a pid is registered afterwards exactly when
    it was before or was read. *)
Lemma detect_tasks_shape env pids : forall e,
  exists added,
    active_tasks_ (fold_left (detect_task env) pids e)
    = active_tasks_ e ++ map (new_task env) added /\
    incl added pids /\
    (forall p, In p (map pid (active_tasks_ e)) -> ~ In p added) /\
    NoDup added /\
    (forall p, In p pids ->
               In p (map pid (active_tasks_ e)) \/ In p added).
Proof.
  induction pids as [|q pids IH]; intros e.
  - exists []. cbn. rewrite app_nil_r.
    repeat split; try easy. constructor.
  - cbn [fold_left]. destruct (IH (detect_task env e q))
      as (added & Heq & Hincl & Hfresh & Hnd & Hcover).
    rewrite detect_task_tasks in Heq, Hfresh, Hcover.
    destruct (existsb (has_pid q) (active_tasks_ e)) eqn:E.
    + exists added. split; [exact Heq|]. split; [now apply incl_tl|].
      split; [exact Hfresh|]. split; [exact Hnd|].
      intros p [->|Hp]; [left; now apply existsb_has_pid|now apply Hcover].
    + exists (q :: added). rewrite Heq, <- app_assoc. split; [reflexivity|].
      assert (Hq : ~ In q added).
      { apply Hfresh. rewrite map_app, in_app_iff. right. now left. }
      split; [|split; [|split]].
      * intros x [->|Hx]; [now left|right; now apply Hincl].
      * intros p Hp [->|Hin].
        -- apply existsb_has_pid in Hp. congruence.
        -- revert Hin. apply Hfresh. rewrite map_app, in_app_iff. now left.
      * now constructor.
      * intros p [->|Hp]; [right; now left|].
        destruct (Hcover p Hp) as [H|H]; [|right; now right].
        rewrite map_app, in_app_iff in H. destruct H as [H|[H|[]]];
          [now left|right; left; exact H].
Qed.

Lemma kept_pids pids tasks p :
  In p (map pid (filter (still_running pids) tasks)) <->
  In p pids /\ In p (map pid tasks).
Proof.
  rewrite !in_map_iff. split.
  - intros (t & <- & Ht). apply filter_In in Ht as [Ht Hr].
    apply still_running_spec in Hr. split; [exact Hr|]. now exists t.
  - intros (Hp & t & <- & Ht). exists t. split; [reflexivity|].
    apply filter_In. split; [exact Ht|]. now apply still_running_spec.
Qed.

(** The pass as a whole: the survivors of the erase-remove, then the fresh
    entries. *)
Lemma monitoringLoop_pass_shape env e :
  exists added,
    active_tasks_ (monitoringLoop_pass env e)
    = filter (still_running (getRunningPIDs env)) (active_tasks_ e)
      ++ map (new_task env) added /\
    incl added (getRunningPIDs env) /\
    (forall p, In p (getRunningPIDs env) ->
               In p (map pid (active_tasks_ e)) -> ~ In p added) /\
    NoDup added /\
    (forall p, In p (getRunningPIDs env) ->
               In p (map pid (active_tasks_ e)) \/ In p added).
Proof.
  unfold monitoringLoop_pass.
  set (pids := getRunningPIDs env).
  set (kept := filter _ (active_tasks_ e)).
  assert (Hkept : kept = filter (still_running pids) (active_tasks_ e)).
  { unfold kept. apply filter_ext. intros t. unfold still_running.
    now rewrite negb_involutive. }
  destruct (detect_tasks_shape env pids (set_active_tasks_ kept e))
    as (added & Heq & Hincl & Hfresh & Hnd & Hcover).
  cbn [active_tasks_ set_active_tasks_] in Heq, Hfresh, Hcover.
  rewrite Hkept in Heq, Hfresh, Hcover. rewrite Hkept.
  exists added. split; [exact Heq|]. split; [exact Hincl|].
  split; [|split; [exact Hnd|]].
  - intros p Hp Hold. apply Hfresh. apply kept_pids. now split.
  - intros p Hp. destruct (Hcover p Hp) as [H|H]; [|now right].
    left. now apply kept_pids in H.
Qed.

Lemma monitoringLoop_pass_pids env e p :
  In p (map pid (active_tasks_ (monitoringLoop_pass env e))) <->
  In p (getRunningPIDs env).
Proof.
  destruct (monitoringLoop_pass_shape env e)
    as (added & Heq & Hincl & Hfresh & Hnd & Hcover).
  rewrite Heq, map_app, in_app_iff, map_map. cbn [new_task pid].
  rewrite map_id, kept_pids. split.
  - intros [[H _]|H]; [exact H|now apply Hincl].
  - intros Hp. destruct (Hcover p Hp) as [H|H]; [left; now split|now right].
Qed.

(** X1: after one pass of the monitor loop the registered pids are exactly
    the pids read from the process table; the surviving entries are the old
    ones, unchanged and in their order, and each added entry is a fresh
    background task of unknown type, one per new pid. *)
Theorem monitoringLoop_pass_reconciles (env : ProcessTable) (e : Engine) :
  (forall p,
     In p (map pid (active_tasks_ (monitoringLoop_pass env e))) <->
     In p (getRunningPIDs env)) /\
  exists added,
    active_tasks_ (monitoringLoop_pass env e)
    = filter (still_running (getRunningPIDs env)) (active_tasks_ e)
      ++ map (new_task env) added /\
    NoDup added /\
    (forall p, In p added <->
               In p (getRunningPIDs env) /\
               ~ In p (map pid (active_tasks_ e))).
Proof.
  split; [intros p; apply monitoringLoop_pass_pids|].
  destruct (monitoringLoop_pass_shape env e)
    as (added & Heq & Hincl & Hfresh & Hnd & Hcover).
  exists added. split; [exact Heq|]. split; [exact Hnd|].
  intros p. split.
  - intros Hp. split; [now apply Hincl|]. intros Hold.
    apply (Hfresh p); [now apply Hincl|exact Hold|exact Hp].
  - intros [Hp Hnew]. destruct (Hcover p Hp) as [H|H]; [contradiction|exact H].
Qed.

Lemma set_active_tasks_same e : set_active_tasks_ (active_tasks_ e) e = e.
Proof. now destruct e. Qed.

Lemma detect_tasks_none env pids : forall e,
  (forall p, In p pids -> In p (map pid (active_tasks_ e))) ->
  fold_left (detect_task env) pids e = e.
Proof.
  induction pids as [|q pids IH]; intros e H; [reflexivity|].
  cbn [fold_left]. unfold detect_task at 2.
  assert (E : existsb (has_pid q) (active_tasks_ e) = true).
  { apply existsb_has_pid. apply H. now left. }
  rewrite E. cbn [negb]. apply IH. intros p Hp. apply H. now right.
Qed.

(** X2: a second pass over the same process table changes nothing: no entry
    is removed or added and no line is logged. *)
Theorem monitoringLoop_pass_idempotent (env : ProcessTable) (e : Engine) :
  monitoringLoop_pass env (monitoringLoop_pass env e)
  = monitoringLoop_pass env e.
Proof.
  pose proof (monitoringLoop_pass_pids env e) as Hpids.
  set (e1 := monitoringLoop_pass env e) in *.
  unfold monitoringLoop_pass at 1.
  rewrite filter_all.
  - rewrite set_active_tasks_same. apply detect_tasks_none.
    intros p Hp. now apply Hpids.
  - intros t Ht. rewrite negb_involutive.
    change (still_running (getRunningPIDs env) t = true).
    apply still_running_spec. apply Hpids. now apply in_map.
Qed.

End Reconcile.

(** ** [addTask], [removeTask] and [detectCurrentScene] compose *)

Section Registry.

Implicit Types (tasks : list TaskInfo) (p : Z) (e : Engine).

Lemma find_snoc tasks p t :
  find (has_pid p) (tasks ++ [t])
  = match find (has_pid p) tasks with
    | Some old => Some old
    | None => if has_pid p t then Some t else None
    end.
Proof.
  induction tasks as [|x rest IH]; cbn [app find]; [reflexivity|].
  destruct (has_pid p x); [reflexivity|exact IH].
Qed.

Lemma erase_first_snoc tasks p t :
  has_pid p t = true ->
  erase_first (has_pid p) (tasks ++ [t])
  = if existsb (has_pid p) tasks then erase_first (has_pid p) tasks ++ [t]
    else tasks.
Proof.
  intros Ht. induction tasks as [|x rest IH]; cbn [app erase_first existsb].
  - now rewrite Ht.
  - destruct (has_pid p x); cbn [orb]; [reflexivity|]. rewrite IH.
    now destruct (existsb (has_pid p) rest).
Qed.

Lemma find_Some_existsb tasks p :
  existsb (has_pid p) tasks
  = match find (has_pid p) tasks with Some _ => true | None => false end.
Proof.
  induction tasks as [|x rest IH]; cbn; [reflexivity|].
  now destruct (has_pid p x).
Qed.

(** X3: [addTask] never replaces a registered entry: the lookup of the pid
    afterwards gives the entry that was there, or the new task when there was
    none; adding the same task twice is adding it once; and removing the pid
    right after adding it gives back the list as it was when the pid was new
    (when it was not, the old entry is the one removed). *)
Theorem addTask_removeTask_compose (task : TaskInfo) (e : Engine) :
  find (has_pid (pid task)) (active_tasks_ (addTask task e))
  = match find (has_pid (pid task)) (active_tasks_ e) with
    | Some old => Some old
    | None => Some task
    end /\
  addTask task (addTask task e) = addTask task e /\
  active_tasks_ (removeTask (pid task) (addTask task e))
  = if existsb (has_pid (pid task)) (active_tasks_ e)
    then erase_first (has_pid (pid task)) (active_tasks_ e)
    else active_tasks_ e.
Proof.
  assert (Hself : has_pid (pid task) task = true)
    by (unfold has_pid; apply Z.eqb_refl).
  assert (Hfind : find (has_pid (pid task)) (active_tasks_ (addTask task e))
                  = match find (has_pid (pid task)) (active_tasks_ e) with
                    | Some old => Some old
                    | None => Some task
                    end).
  { unfold addTask. destruct (find _ (active_tasks_ e)) eqn:E.
    - exact E.
    - cbn [active_tasks_ logInfo log set_log_ set_active_tasks_].
      now rewrite find_snoc, E, Hself. }
  split; [exact Hfind|]. split.
  - unfold addTask at 1. rewrite Hfind.
    now destruct (find _ (active_tasks_ e)).
  - unfold removeTask. rewrite Hfind, find_Some_existsb.
    unfold addTask. destruct (find _ (active_tasks_ e)) eqn:E.
    + reflexivity.
    + cbn [active_tasks_ logInfo log set_log_ set_active_tasks_].
      rewrite erase_first_snoc by exact Hself.
      now rewrite find_Some_existsb, E.
Qed.

Lemma app_type_scene_known app_type scene :
  app_type_scene app_type = Some scene -> scene <> SCENE_UNKNOWN.
Proof.
  unfold app_type_scene.
  repeat match goal with
         | |- context [String.eqb ?a ?b] => destruct (String.eqb a b)
         end; intros H; inversion H; discriminate.
Qed.

Lemma detect_scene_found tasks :
  detect_scene tasks <> SCENE_UNKNOWN ->
  exists task,
    In task tasks /\ is_foreground task = true /\
    app_type_scene (app_type task) = Some (detect_scene tasks).
Proof.
  induction tasks as [|t rest IH]; cbn [detect_scene]; [congruence|].
  destruct (is_foreground t) eqn:Ef.
  - destruct (app_type_scene (app_type t)) eqn:Ea.
    + intros _. exists t. repeat split; [now left|exact Ef|exact Ea].
    + intros H. destruct (IH H) as (x & Hx & Hfg & Hs).
      exists x. repeat split; [now right|exact Hfg|exact Hs].
  - intros H. destruct (IH H) as (x & Hx & Hfg & Hs).
    exists x. repeat split; [now right|exact Hfg|exact Hs].
Qed.

Lemma detect_scene_app tasks more :
  (forall t, In t more -> is_foreground t = false) ->
  detect_scene (tasks ++ more) = detect_scene tasks.
Proof.
  intros Hmore. induction tasks as [|t rest IH]; cbn [app detect_scene].
  - induction more as [|m more IHm]; [reflexivity|]. cbn [detect_scene].
    rewrite (Hmore m (or_introl eq_refl)). apply IHm.
    intros t Ht. apply Hmore. now right.
  - rewrite IH. reflexivity.
Qed.

(** X4: the detected scene is [SCENE_UNKNOWN] or the scene of a registered
    foreground task of a recognised type; with no such task it is
    [SCENE_UNKNOWN]; it does not depend on the priorities, and the tasks a
    monitor pass adds never change it (after a pass it is the scene of the
    surviving entries). *)
Theorem detectCurrentScene_depends_on_foreground
  (env : ProcessTable) (e : Engine) :
  (detectCurrentScene e <> SCENE_UNKNOWN ->
   exists task,
     In task (active_tasks_ e) /\ is_foreground task = true /\
     app_type_scene (app_type task) = Some (detectCurrentScene e)) /\
  ((forall task, In task (active_tasks_ e) ->
                 is_foreground task = false \/
                 app_type_scene (app_type task) = None) ->
   detectCurrentScene e = SCENE_UNKNOWN) /\
  detectCurrentScene (updateTaskPriorities e) = detectCurrentScene e /\
  detectCurrentScene (monitoringLoop_pass env e)
  = detect_scene (filter (still_running (getRunningPIDs env))
                         (active_tasks_ e)).
Proof.
  split; [apply detect_scene_found|]. split; [|split].
  - unfold detectCurrentScene.
    induction (active_tasks_ e) as [|t rest IH]; intros H; [reflexivity|].
    cbn [detect_scene].
    destruct (H t (or_introl eq_refl)) as [-> | ->];
      [|destruct (is_foreground t)]; apply IH; intros x Hx; apply H;
      now right.
  - unfold detectCurrentScene, updateTaskPriorities.
    cbn [active_tasks_ set_active_tasks_].
    induction (active_tasks_ e) as [|t rest IH]; [reflexivity|].
    cbn [map detect_scene set_priority is_foreground app_type].
    now rewrite IH.
  - unfold detectCurrentScene.
    destruct (monitoringLoop_pass_shape env e) as (added & -> & _).
    apply detect_scene_app. intros t (p & <- & _)%in_map_iff. reflexivity.
Qed.

End Registry.

(** ** Priorities and their enforcement *)

Section Enforcement.

Variable k : Kernel.
Variable cpu_cores : Z.

Implicit Types (e : Engine) (task : TaskInfo).

Lemma same_but_log_refl e : same_but_log e e.
Proof. reflexivity. Qed.

Lemma same_but_log_trans e1 e2 e3 :
  same_but_log e1 e2 -> same_but_log e2 e3 -> same_but_log e1 e3.
Proof. unfold same_but_log. congruence. Qed.

Lemma same_but_log_log lvl msg e : same_but_log e (log lvl msg e).
Proof. reflexivity. Qed.

Lemma same_but_log_config e1 e2 :
  same_but_log e1 e2 ->
  config_ e1 = config_ e2 /\ active_tasks_ e1 = active_tasks_ e2.
Proof.
  intros H. split.
  - change (config_ (set_log_ [] e1) = config_ (set_log_ [] e2)).
    now rewrite H.
  - change (active_tasks_ (set_log_ [] e1) = active_tasks_ (set_log_ [] e2)).
    now rewrite H.
Qed.

Lemma nice_of_priority_range priority :
  (1 <= nice_of_priority priority <= 20)%Z.
Proof. unfold nice_of_priority. lia. Qed.

Lemma priority_calls_app a b :
  priority_calls (a ++ b) = priority_calls a ++ priority_calls b.
Proof. apply flat_map_app. Qed.

Lemma affinity_calls_app a b :
  affinity_calls (a ++ b) = affinity_calls a ++ affinity_calls b.
Proof. apply flat_map_app. Qed.

Lemma int_rem_positive a b : (0 < b)%Z -> int_rem a b = Some (Z.rem a b).
Proof.
  intros Hb. unfold int_rem.
  destruct (Z.eqb_spec b 0); [lia|]. destruct (Z.eqb_spec b (-1)); [lia|].
  now rewrite andb_false_r.
Qed.

Lemma int_rem_zero a : int_rem a 0 = None.
Proof. reflexivity. Qed.

Lemma int_rem_Some a b core_id :
  int_rem a b = Some core_id -> core_id = Z.rem a b.
Proof. unfold int_rem. destruct (_ || _); congruence. Qed.

(** One task, when the step is defined: the priority call is issued
    whatever the kernel answers, the affinity call under [binds] only, and
    nothing but the log is touched. *)
Lemma apply_policy_Some e calls task r :
  apply_policy k cpu_cores (e, calls) task = Some r ->
  same_but_log e (fst r) /\
  priority_calls (snd r)
  = priority_calls calls ++ [(pid task, nice_of_priority (priority task))] /\
  affinity_calls (snd r)
  = affinity_calls calls ++
    (if binds (config_ e) task
     then [(pid task, cpu_mask [Z.rem (priority task) cpu_cores])] else []).
Proof.
  unfold apply_policy, setProcessPriority, binds.
  destruct (int_rem (priority task) cpu_cores) as [core_id|] eqn:Hrem;
    [apply int_rem_Some in Hrem; subst core_id|];
    destruct (setpriority k _ _) as [text|];
    cbn [config_ logError log set_log_];
    destruct (enable_task_binding (cto_config (config_ e)));
    destruct (is_foreground task); cbn [andb fst snd];
    try discriminate;
    unfold bindTaskToCore, setCPUAffinity;
    cbn [config_ logError log set_log_];
    destruct (enable_cpu_affinity (cto_config (config_ e)));
    cbn [negb fst snd];
    try destruct (sched_setaffinity k _ _) as [text'|];
    intros H; injection H as <-; cbn [fst snd];
    rewrite ?priority_calls_app, ?affinity_calls_app;
    cbn [priority_calls affinity_calls flat_map app]; rewrite ?app_nil_r;
    (split; [reflexivity|split; reflexivity]).
Qed.

(** The step is undefined exactly when the remainder is taken and is
    undefined. *)
Lemma apply_policy_None e calls task :
  apply_policy k cpu_cores (e, calls) task = None <->
  takes_remainder (config_ e) task = true /\
  int_rem (priority task) cpu_cores = None.
Proof.
  unfold apply_policy, setProcessPriority, takes_remainder, bindTaskToCore.
  destruct (setpriority k _ _) as [text|];
    cbn [config_ logError log set_log_];
    destruct (enable_task_binding (cto_config (config_ e)));
    destruct (is_foreground task); cbn [andb];
    destruct (int_rem (priority task) cpu_cores) as [core_id|];
    try (split; [discriminate|intros [? ?]; discriminate]);
    try (split; [intros _; split; reflexivity|reflexivity]);
    destruct (negb _); try destruct (setCPUAffinity _ _ _ _) as [[[] ?] ?];
    split; try discriminate; intros [? ?]; discriminate.
Qed.

Lemma apply_policies_undefined tasks : apply_policies k cpu_cores tasks None = None.
Proof. unfold apply_policies. induction tasks; cbn; auto. Qed.

Lemma apply_policies_Some tasks : forall e calls r,
  apply_policies k cpu_cores tasks (Some (e, calls)) = Some r ->
  same_but_log e (fst r) /\
  priority_calls (snd r)
  = priority_calls calls
    ++ map (fun t => (pid t, nice_of_priority (priority t))) tasks /\
  affinity_calls (snd r)
  = affinity_calls calls
    ++ flat_map (fun t => if binds (config_ e) t
                          then [(pid t,
                                 cpu_mask [Z.rem (priority t) cpu_cores])]
                          else []) tasks.
Proof.
  induction tasks as [|t rest IH]; intros e calls r Hr.
  - cbn in Hr. injection Hr as <-. cbn. rewrite !app_nil_r. repeat split.
  - change (apply_policies k cpu_cores (t :: rest) (Some (e, calls)))
      with (apply_policies k cpu_cores rest
              (apply_policy k cpu_cores (e, calls) t)) in Hr.
    destruct (apply_policy k cpu_cores (e, calls) t) as [[e1 calls1]|] eqn:E;
      [|now rewrite apply_policies_undefined in Hr].
    destruct (apply_policy_Some _ _ _ _ E) as (Hs & Hp & Ha).
    cbn [fst snd] in Hs, Hp, Ha.
    destruct (IH e1 calls1 r Hr) as (Hs' & Hp' & Ha').
    destruct (same_but_log_config _ _ Hs) as [Hc _].
    cbn [map flat_map].
    split; [now apply same_but_log_trans with e1|]. split.
    + rewrite Hp', Hp, <- app_assoc. reflexivity.
    + rewrite Ha', Ha, <- app_assoc, Hc. reflexivity.
Qed.

Lemma apply_policies_None tasks : forall e calls,
  apply_policies k cpu_cores tasks (Some (e, calls)) = None <->
  exists task,
    In task tasks /\ takes_remainder (config_ e) task = true /\
    int_rem (priority task) cpu_cores = None.
Proof.
  induction tasks as [|t rest IH]; intros e calls.
  - cbn. split; [discriminate|intros (task & [] & _)].
  - change (apply_policies k cpu_cores (t :: rest) (Some (e, calls)))
      with (apply_policies k cpu_cores rest
              (apply_policy k cpu_cores (e, calls) t)).
    destruct (apply_policy k cpu_cores (e, calls) t) as [[e1 calls1]|] eqn:E.
    + destruct (apply_policy_Some _ _ _ _ E) as (Hs & _).
      destruct (same_but_log_config _ _ Hs) as [Hc _]. cbn [fst] in Hc.
      rewrite IH, <- Hc. split.
      * intros (task & Hin & H). exists task. split; [now right|exact H].
      * intros (task & [<-|Hin] & H); [|now exists task].
        apply (proj2 (apply_policy_None e calls t)) in H. congruence.
    + rewrite apply_policies_undefined. split; [|reflexivity]. intros _.
      exists t. split; [now left|]. now apply apply_policy_None in E.
Qed.

Lemma applySchedulingPolicies_defined e :
  ((0 < cpu_cores)%Z \/
   (forall task, In task (active_tasks_ e) ->
                 takes_remainder (config_ e) task = false) ->
   exists r,
     applySchedulingPolicies k cpu_cores e = Some r /\
     same_but_log e (fst r) /\
     priority_calls (snd r)
     = map (fun t => (pid t, nice_of_priority (priority t)))
           (active_tasks_ e)) /\
  (cpu_cores = 0%Z ->
   (applySchedulingPolicies k cpu_cores e = None <->
    exists task,
      In task (active_tasks_ e) /\
      takes_remainder (config_ e) task = true)).
Proof.
  unfold applySchedulingPolicies. split.
  - intros Hdefined.
    destruct (apply_policies k cpu_cores (active_tasks_ e) (Some (e, [])))
      as [r|] eqn:E.
    + exists r. split; [reflexivity|].
      destruct (apply_policies_Some _ _ _ _ E) as (Hs & Hp & _).
      split; [exact Hs|exact Hp].
    + exfalso. apply apply_policies_None in E as (task & Hin & Ht & Hrem).
      destruct Hdefined as [Hpos|Hnone].
      * now rewrite int_rem_positive in Hrem.
      * now rewrite (Hnone task Hin) in Ht.
  - intros Hzero. rewrite apply_policies_None. split.
    + intros (task & Hin & Ht & _). now exists task.
    + intros (task & Hin & Ht). exists task.
      split; [exact Hin|]. split; [exact Ht|]. rewrite Hzero.
      apply int_rem_zero.
Qed.

(** X5: with a core count above zero, or no task whose core is computed,
    [applySchedulingPolicies] completes whatever the kernel answers and
    touches nothing but the log; it issues one [setpriority] per registered
    task, in order, with a nice value of 20 minus the priority clamped to
    [0, 19] (so between 1 and 20), and a failure for one task does not stop
    the loop; it issues [sched_setaffinity] exactly for the foreground tasks
    and only when task binding and cpu affinity are both enabled, with a mask
    that holds no core outside [0, CPU_SETSIZE).  With a core count of zero
    the behaviour is undefined exactly when task binding is on and some
    registered task is in the foreground. *)
Theorem applySchedulingPolicies_calls e :
  ((0 < cpu_cores)%Z \/
   (forall task, In task (active_tasks_ e) ->
                 takes_remainder (config_ e) task = false) ->
   exists r,
     applySchedulingPolicies k cpu_cores e = Some r /\
     same_but_log e (fst r) /\
     priority_calls (snd r)
     = map (fun t => (pid t, nice_of_priority (priority t)))
           (active_tasks_ e) /\
     (forall p n, In (p, n) (priority_calls (snd r)) -> (1 <= n <= 20)%Z) /\
     affinity_calls (snd r)
     = flat_map (fun t => if binds (config_ e) t
                          then [(pid t,
                                 cpu_mask [Z.rem (priority t) cpu_cores])]
                          else []) (active_tasks_ e) /\
     (forall p mask c,
        In (p, mask) (affinity_calls (snd r)) -> In c mask ->
        (0 <= c < CPU_SETSIZE)%Z)) /\
  (cpu_cores = 0%Z ->
   (applySchedulingPolicies k cpu_cores e = None <->
    exists task,
      In task (active_tasks_ e) /\
      takes_remainder (config_ e) task = true)).
Proof.
  unfold applySchedulingPolicies. split.
  - intros Hdefined.
    destruct (apply_policies k cpu_cores (active_tasks_ e) (Some (e, [])))
      as [r|] eqn:E.
    + exists r. split; [reflexivity|].
      destruct (apply_policies_Some _ _ _ _ E) as (Hs & Hp & Ha).
      cbn [app priority_calls affinity_calls flat_map] in Hp, Ha.
      split; [exact Hs|]. split; [exact Hp|]. split; [|split; [exact Ha|]].
      * intros p n. rewrite Hp. intros (t & Et & _)%in_map_iff.
        injection Et as _ <-. apply nice_of_priority_range.
      * intros p mask c. rewrite Ha. intros (t & _ & Ht)%in_flat_map Hc.
        destruct (binds (config_ e) t); [|destruct Ht].
        destruct Ht as [Et|[]]. injection Et as _ <-.
        change (In c (cpu_mask [Z.rem (priority t) cpu_cores])) in Hc.
        unfold cpu_mask in Hc. apply filter_In in Hc as [_ Hc].
        apply andb_true_iff in Hc as [H0 H1].
        apply Z.leb_le in H0. apply Z.ltb_lt in H1. lia.
    + exfalso. apply apply_policies_None in E as (task & Hin & Ht & Hrem).
      destruct Hdefined as [Hpos|Hnone].
      * now rewrite int_rem_positive in Hrem.
      * now rewrite (Hnone task Hin) in Ht.
  - intros Hzero. rewrite apply_policies_None. split.
    + intros (task & Hin & Ht & _). now exists task.
    + intros (task & Hin & Ht). exists task.
      split; [exact Hin|]. split; [exact Ht|]. rewrite Hzero.
      apply int_rem_zero.
Qed.

(** X6: a binding sends the task to the core [priority mod cpu_cores]: for a
    priority that is not negative and a core count within
    (0, CPU_SETSIZE], the step is defined, the mask is that single core, and
    the core is one of the device's. *)
Theorem apply_policy_core (e : Engine) (task : TaskInfo) :
  (0 < cpu_cores <= CPU_SETSIZE)%Z ->
  (0 <= priority task)%Z ->
  binds (config_ e) task = true ->
  option_map (fun r => affinity_calls (snd r))
             (apply_policy k cpu_cores (e, []) task)
  = Some [(pid task, [(priority task mod cpu_cores)%Z])] /\
  (0 <= priority task mod cpu_cores < cpu_cores)%Z.
Proof.
  intros Hcores Hprio Hbinds.
  destruct (apply_policy k cpu_cores (e, []) task) as [r|] eqn:E.
  - destruct (apply_policy_Some _ _ _ _ E) as (_ & _ & Ha).
    cbn [option_map]. rewrite Ha, Hbinds.
    cbn [affinity_calls flat_map app].
    assert (Hmod : (0 <= priority task mod cpu_cores < cpu_cores)%Z)
      by (apply Z.mod_pos_bound; lia).
    rewrite Z.rem_mod_nonneg by lia.
    split; [|exact Hmod]. unfold cpu_mask. cbn [filter].
    destruct (Z.leb_spec 0 (priority task mod cpu_cores)); [|lia].
    destruct (Z.ltb_spec (priority task mod cpu_cores) CPU_SETSIZE); [|lia].
    reflexivity.
  - apply apply_policy_None in E as [_ Hrem].
    rewrite int_rem_positive in Hrem by lia. discriminate.
Qed.

End Enforcement.

Section Scheduling.

Variable k : Kernel.
Variable cpu_cores : Z.

Lemma scene_priority_range scene task :
  (3 <= scene_priority scene task <= 10)%Z.
Proof.
  unfold scene_priority. destruct scene;
    try match goal with
        | |- context [String.eqb ?a ?b] => destruct (String.eqb a b)
        end; lia.
Qed.

Lemma scene_priority_set_priority scene v task :
  scene_priority scene (set_priority v task) = scene_priority scene task.
Proof. reflexivity. Qed.

(** X7: [updateTaskPriorities] rewrites the priority of every task and
    nothing else; the value depends on the scene preference and the task's
    type only and lies between 3 and 10; doing it twice is doing it once. *)
Theorem updateTaskPriorities_idempotent (e : Engine) :
  updateTaskPriorities (updateTaskPriorities e) = updateTaskPriorities e /\
  same_but_log (set_active_tasks_ [] (updateTaskPriorities e))
               (set_active_tasks_ [] e) /\
  log_ (updateTaskPriorities e) = log_ e /\
  map without_priority (active_tasks_ (updateTaskPriorities e))
  = map without_priority (active_tasks_ e) /\
  map priority (active_tasks_ (updateTaskPriorities e))
  = map (scene_priority (current_scene (config_ e))) (active_tasks_ e) /\
  (forall task, In task (active_tasks_ (updateTaskPriorities e)) ->
                (3 <= priority task <= 10)%Z).
Proof.
  unfold updateTaskPriorities.
  cbn [active_tasks_ set_active_tasks_ config_ log_].
  split; [|split; [reflexivity|split; [reflexivity|split; [|split]]]].
  - unfold set_active_tasks_.
    cbn [running_ main_thread_ monitor_thread_ config_ active_tasks_
         performance_history_ performance_monitor_ adaptive_config_
         optimization_config_ population_manager_ evolution_active_
         current_generation_ evolution_history_ evolution_config_ log_].
    f_equal. rewrite map_map. apply map_ext. intros t. reflexivity.
  - rewrite map_map. apply map_ext. intros t. reflexivity.
  - rewrite map_map. apply map_ext. intros t. reflexivity.
  - intros task (t & <- & _)%in_map_iff. cbn [priority set_priority].
    apply scene_priority_range.
Qed.

Lemma takes_remainder_updated (e : Engine) (t : TaskInfo) v :
  takes_remainder (config_ (updateTaskPriorities e)) (set_priority v t)
  = takes_remainder (config_ e) t.
Proof. reflexivity. Qed.

(** X8: with optimisation disabled [performScheduling] does nothing at
    all: no system call, no log line, no priority update.  With it enabled,
    and a core count above zero or no task whose core is computed, the
    priorities are updated first, the engine is otherwise untouched but for
    its log, and every task gets one [setpriority] whose nice value is 20
    minus its new priority, hence between 10 and 17.  With it enabled and a
    core count of zero, the behaviour is undefined exactly when task binding
    is on and some registered task is in the foreground. *)
Theorem performScheduling_gate (e : Engine) :
  (optimization_enabled (config_ e) = false ->
   performScheduling k cpu_cores e = Some (e, [])) /\
  (optimization_enabled (config_ e) = true ->
   (0 < cpu_cores)%Z \/
   (forall task, In task (active_tasks_ e) ->
                 takes_remainder (config_ e) task = false) ->
   exists r,
     performScheduling k cpu_cores e = Some r /\
     same_but_log (updateTaskPriorities e) (fst r) /\
     priority_calls (snd r)
     = map (fun t => (pid t,
                      (20 - scene_priority (current_scene (config_ e)) t)%Z))
           (active_tasks_ e) /\
     (forall p n, In (p, n) (priority_calls (snd r)) -> (10 <= n <= 17)%Z)) /\
  (optimization_enabled (config_ e) = true ->
   cpu_cores = 0%Z ->
   (performScheduling k cpu_cores e = None <->
    exists task,
      In task (active_tasks_ e) /\
      takes_remainder (config_ e) task = true)).
Proof.
  assert (Hupdated : forall task,
            In task (active_tasks_ (updateTaskPriorities e)) ->
            exists t, In t (active_tasks_ e) /\
                      takes_remainder (config_ (updateTaskPriorities e)) task
                      = takes_remainder (config_ e) t).
  { intros task Hin. unfold updateTaskPriorities in Hin.
    cbn [active_tasks_ set_active_tasks_] in Hin.
    apply in_map_iff in Hin as (t & <- & Hin). now exists t. }
  split; [|split]; intros Hopt; unfold performScheduling; rewrite Hopt;
    cbn [negb]; [reflexivity| |].
  - intros Hdefined.
    destruct (proj1 (applySchedulingPolicies_defined
                       k cpu_cores (updateTaskPriorities e)))
      as (r & Hr & Hs & Hp).
    { destruct Hdefined as [Hpos|Hnone]; [now left|right].
      intros task Hin. destruct (Hupdated task Hin) as (t & Ht & ->).
      now apply Hnone. }
    rewrite Hr. destruct r as [e1 calls]. cbn [fst snd] in *.
    eexists. split; [reflexivity|]. cbn [fst snd].
    assert (Hcalls : priority_calls calls
                     = map (fun t => (pid t,
                              (20 - scene_priority (current_scene (config_ e))
                                                   t)%Z))
                           (active_tasks_ e)).
    { rewrite Hp. unfold updateTaskPriorities.
      cbn [active_tasks_ set_active_tasks_]. rewrite map_map.
      apply map_ext. intros t. cbn [pid priority set_priority].
      unfold nice_of_priority.
      pose proof (scene_priority_range (current_scene (config_ e)) t).
      f_equal. lia. }
    split; [|split; [exact Hcalls|]].
    + apply same_but_log_trans with e1; [exact Hs|apply same_but_log_log].
    + intros p n. rewrite Hcalls. intros (t & E & _)%in_map_iff.
      apply pair_equal_spec in E as [_ <-].
      pose proof (scene_priority_range (current_scene (config_ e)) t). lia.
  - intros Hzero.
    pose proof (proj2 (applySchedulingPolicies_defined
                         k cpu_cores (updateTaskPriorities e)) Hzero)
      as Hnone.
    split.
    + intros H.
      assert (E : applySchedulingPolicies k cpu_cores (updateTaskPriorities e)
                  = None).
      { destruct (applySchedulingPolicies _ _ _) as [[e1 calls]|];
          [discriminate H|reflexivity]. }
      destruct (proj1 Hnone E) as (task & Hin & Ht).
      destruct (Hupdated task Hin) as (t & Hint & Et).
      exists t. split; [exact Hint|]. now rewrite <- Et.
    + intros (t & Hin & Ht). rewrite (proj2 Hnone); [reflexivity|].
      exists (set_priority (scene_priority (current_scene (config_ e)) t) t).
      split; [|exact Ht]. unfold updateTaskPriorities.
      cbn [active_tasks_ set_active_tasks_]. apply in_map_iff.
      now exists t.
Qed.

End Scheduling.

(** ** The sample window is a ring of the ten latest samples *)

Section SampleWindow.

Lemma store_length (a : list double) i v :
  i < List.length a -> List.length (store a i v) = List.length a.
Proof.
  intros Hi. unfold store.
  rewrite length_app, length_firstn. cbn [List.length].
  rewrite length_skipn. lia.
Qed.

Lemma at_index_store_same (a : list double) i v :
  i < List.length a -> at_index (store a i v) i = v.
Proof.
  intros Hi. unfold at_index, store.
  rewrite app_nth2; rewrite length_firstn; [|lia].
  replace (i - Nat.min i (List.length a)) with 0 by lia. reflexivity.
Qed.

Lemma at_index_store_other (a : list double) i j v :
  i < List.length a -> j <> i ->
  at_index (store a i v) j = at_index a j.
Proof.
  intros Hi Hj. unfold at_index, store.
  destruct (Nat.lt_ge_cases j i) as [Hlt|Hge].
  - rewrite app_nth1 by (rewrite length_firstn; lia).
    rewrite <- (firstn_skipn i a) at 2.
    now rewrite app_nth1 by (rewrite length_firstn; lia).
  - rewrite app_nth2 by (rewrite length_firstn; lia).
    rewrite length_firstn.
    replace (j - Nat.min i (List.length a)) with (S (j - S i)) by lia.
    cbn [nth]. rewrite <- (firstn_skipn (S i) a) at 2.
    rewrite app_nth2 by (rewrite length_firstn; lia).
    rewrite length_firstn. f_equal. lia.
Qed.

Lemma mod10_lt n : n mod 10 < 10.
Proof. apply Nat.mod_upper_bound. discriminate. Qed.

(** Two positions less than ten apart are different slots of the ring. *)
Lemma mod10_apart a j : 0 < j < 10 -> (a + j) mod 10 <> a mod 10.
Proof.
  intros Hj E.
  pose proof (Nat.div_mod_eq a 10). pose proof (Nat.div_mod_eq (a + j) 10).
  pose proof (mod10_lt a). pose proof (mod10_lt (a + j)). lia.
Qed.

Lemma mod10_succ a : (a mod 10 + 1) mod 10 = (a + 1) mod 10.
Proof. now rewrite Nat.Div0.add_mod_idemp_l. Qed.

Lemma addSample_ok cpu memory m :
  monitor_ok m -> monitor_ok (addSample cpu memory m).
Proof.
  intros (Hc & Hm & Hi). unfold monitor_ok, addSample.
  cbn [cpu_usage_samples memory_usage_samples sample_index].
  rewrite !store_length by lia. repeat split; try assumption.
  apply mod10_lt.
Qed.

Lemma addSamples_snoc samples s m :
  addSamples (samples ++ [s]) m
  = addSample (fst s) (snd s) (addSamples samples m).
Proof. unfold addSamples. now rewrite fold_left_app. Qed.

(** X9: on a well-formed monitor (two arrays of ten, index below ten, as
    the constructor leaves it) [addSample] never writes outside the arrays
    and keeps the monitor well formed; after any run of samples the index
    has advanced by their number modulo 10, the [j]-th latest sample
    ([j] < 10) sits [j] slots behind the index, and a slot not yet reached
    still holds what it held: the window is the ten latest samples, and the
    averages are taken over all ten slots from the first sample on. *)
Theorem addSamples_window (m : PerformanceMonitor)
  (samples : list (double * double)) :
  monitor_ok m ->
  let m' := addSamples samples m in
  let n := List.length samples in
  monitor_ok m' /\
  sample_index m' = (sample_index m + n) mod 10 /\
  (forall j, j < n -> j < 10 ->
     at_index (cpu_usage_samples m') ((sample_index m + (n - 1 - j)) mod 10)
     = fst (nth (n - 1 - j) samples (0, 0)%float) /\
     at_index (memory_usage_samples m')
              ((sample_index m + (n - 1 - j)) mod 10)
     = snd (nth (n - 1 - j) samples (0, 0)%float)) /\
  (forall i, n <= i -> i < 10 ->
     at_index (cpu_usage_samples m') ((sample_index m + i) mod 10)
     = at_index (cpu_usage_samples m) ((sample_index m + i) mod 10) /\
     at_index (memory_usage_samples m') ((sample_index m + i) mod 10)
     = at_index (memory_usage_samples m) ((sample_index m + i) mod 10)) /\
  (0 < n ->
   avg_cpu_usage m' = (sum10 (cpu_usage_samples m') / 10)%float /\
   avg_memory_usage m' = (sum10 (memory_usage_samples m') / 10)%float).
Proof.
  intros Hok. cbv zeta.
  induction samples as [|s samples IH] using rev_ind.
  - cbn [addSamples fold_left List.length]. split; [exact Hok|].
    destruct Hok as (_ & _ & Hi).
    rewrite Nat.add_0_r, Nat.mod_small by exact Hi.
    split; [reflexivity|]. split; [intros j Hj; lia|].
    split; [intros i _ _; now split|intros H; lia].
  - destruct IH as (Hok' & Hidx & Hrecent & Hold & _).
    rewrite addSamples_snoc, length_app. cbn [List.length].
    set (m1 := addSamples samples m) in *.
    set (n := List.length samples) in *.
    destruct Hok' as (Hc & Hm & Hi).
    split; [apply addSample_ok; now repeat split|].
    unfold addSample at 1 2 3 4 5.
    cbn [cpu_usage_samples memory_usage_samples sample_index avg_cpu_usage
         avg_memory_usage].
    split; [rewrite Hidx, mod10_succ; f_equal; lia|].
    split; [|split; [|intros _; split; reflexivity]].
    + intros j Hj Hj10.
      replace (n + 1 - 1 - j) with (n - j) by lia.
      destruct j as [|j].
      * rewrite Nat.sub_0_r. rewrite <- Hidx.
        rewrite !at_index_store_same by lia.
        rewrite app_nth2 by (fold n; lia). fold n.
        rewrite Nat.sub_diag. now split.
      * assert (Hne : (sample_index m + (n - S j)) mod 10 <> sample_index m1).
        { rewrite Hidx. intros E.
          apply (mod10_apart (sample_index m + (n - S j)) (S j)); [lia|].
          rewrite E. f_equal. lia. }
        rewrite !at_index_store_other by (try lia; exact Hne).
        rewrite app_nth1 by (fold n; lia).
        replace (n - S j) with (n - 1 - j) by lia.
        apply Hrecent; lia.
    + intros i Hi1 Hi10.
      assert (Hne : (sample_index m + i) mod 10 <> sample_index m1).
      { rewrite Hidx. intros E.
        apply (mod10_apart (sample_index m + n) (i - n)); [lia|].
        rewrite <- E. f_equal. lia. }
      rewrite !at_index_store_other by (try lia; exact Hne).
      apply Hold; lia.
Qed.

End SampleWindow.

(** ** Decimal output and [std::stoi] are inverse on [int] *)

Section Decimal.

Local Open Scope Z_scope.

Lemma digit_cases d :
  0 <= d <= 9 ->
  d = 0 \/ d = 1 \/ d = 2 \/ d = 3 \/ d = 4 \/
  d = 5 \/ d = 6 \/ d = 7 \/ d = 8 \/ d = 9.
Proof. lia. Qed.

Local Ltac each_digit d H :=
  destruct (digit_cases d H) as [->|[->|[->|[->|[->|[->|[->|[->|[->| ->]]]]]]]]].

Lemma digit_value_digit_char d :
  0 <= d <= 9 -> digit_value (digit_char d) = Some d.
Proof. intros H. each_digit d H; reflexivity. Qed.

Lemma is_digit_digit_char d :
  0 <= d <= 9 -> Proc.is_digit (digit_char d) = true.
Proof. intros H. each_digit d H; reflexivity. Qed.

Lemma read_digits_seen s : forall a, snd (read_digits s a true) = true.
Proof.
  induction s as [|c s IH]; intros a; cbn [read_digits]; [reflexivity|].
  destruct (digit_value c); [apply IH|reflexivity].
Qed.

(** A string that starts with a digit goes through the white-space and sign
    stages of [std::stoi] untouched, and is never an invalid argument. *)
Lemma stoi_digit_first d tail :
  0 <= d <= 9 ->
  stoi (String (digit_char d) tail)
  = let magnitude :=
      fst (read_digits (String (digit_char d) tail) 0 false) in
    if (magnitude <? INT_MIN) || (INT_MAX <? magnitude) then inr out_of_range
    else inl magnitude.
Proof.
  intros H. unfold stoi.
  each_digit d H;
    match goal with
    | |- context [digit_char ?x] =>
        let v := eval vm_compute in (digit_char x) in
        change (digit_char x) with v
    end;
    cbn [skip_isspace isspace char_in existsb list_ascii_of_string
         Ascii.eqb Bool.eqb orb andb read_digits];
    match goal with
    | |- context [digit_value ?c] =>
        let v := eval vm_compute in (digit_value c) in
        change (digit_value c) with v
    end;
    cbv zeta iota;
    match goal with
    | |- context [read_digits tail ?a true] =>
        pose proof (read_digits_seen tail a) as Hseen;
        destruct (read_digits tail a true) as [magnitude seen]
    end;
    cbn [fst snd] in *; subst seen; reflexivity.
Qed.

Lemma digits_of_head fuel n acc :
  0 <= n ->
  exists d tail, 0 <= d <= 9 /\
                 digits_of (S fuel) n acc = String (digit_char d) tail.
Proof.
  revert n acc. induction fuel as [|fuel IH]; intros n acc Hn.
  - cbn [digits_of]. exists (n mod 10), acc.
    split; [pose proof (Z.mod_pos_bound n 10); lia|now destruct (n <? 10)].
  - change (digits_of (S (S fuel)) n acc)
      with (if n <? 10 then String (digit_char (n mod 10)) acc
            else digits_of (S fuel) (n / 10)
                           (String (digit_char (n mod 10)) acc)).
    destruct (Z.ltb_spec n 10).
    + exists (n mod 10), acc.
      split; [pose proof (Z.mod_pos_bound n 10); lia|reflexivity].
    + apply IH. apply Z.div_pos; lia.
Qed.

(** Reading back the digits written for [n] continues the accumulator by
    [n]. *)
Lemma read_digits_digits_of fuel : forall n,
  0 <= n < 10 ^ Z.of_nat (S fuel) ->
  exists m, forall rest a seen,
    read_digits (digits_of (S fuel) n rest) a seen
    = read_digits rest (a * m + n) true.
Proof.
  induction fuel as [|fuel IH]; intros n Hn.
  - exists 10. intros rest a seen. cbn [digits_of].
    change (10 ^ Z.of_nat 1) with 10 in Hn.
    destruct (Z.ltb_spec n 10); [|lia].
    cbn [read_digits]. rewrite Z.mod_small by lia.
    rewrite digit_value_digit_char by lia. f_equal. lia.
  - change (digits_of (S (S fuel)) n)
      with (fun acc => if n <? 10 then String (digit_char (n mod 10)) acc
                       else digits_of (S fuel) (n / 10)
                                      (String (digit_char (n mod 10)) acc)).
    cbv beta. destruct (Z.ltb_spec n 10).
    + exists 10. intros rest a seen. cbn [read_digits].
      rewrite Z.mod_small by lia.
      rewrite digit_value_digit_char by lia. f_equal. lia.
    + destruct (IH (n / 10)) as (m & Hm).
      { split; [apply Z.div_pos; lia|].
        apply Z.div_lt_upper_bound; [lia|].
        replace (10 * 10 ^ Z.of_nat (S fuel)) with (10 ^ Z.of_nat (S (S fuel)));
          [lia|].
        rewrite (Nat2Z.inj_succ (S fuel)), Z.pow_succ_r by lia. reflexivity. }
      exists (m * 10). intros rest a seen. rewrite Hm. cbn [read_digits].
      assert (Hd : 0 <= n mod 10 <= 9)
        by (pose proof (Z.mod_pos_bound n 10); lia).
      rewrite digit_value_digit_char by exact Hd. f_equal.
      pose proof (Z.div_mod n 10). lia.
Qed.

Lemma read_digits_to_string n :
  0 <= n <= INT_MAX + 1 ->
  read_digits (digits_of 10 n EmptyString) 0 false = (n, true).
Proof.
  intros Hn. destruct (read_digits_digits_of 9 n) as (m & Hm).
  { unfold INT_MAX in Hn. change (10 ^ Z.of_nat 10) with 10000000000. lia. }
  rewrite Hm. cbn [read_digits]. f_equal; lia.
Qed.

Lemma stoi_to_string z :
  INT_MIN <= z <= INT_MAX -> stoi (to_string z) = inl z.
Proof.
  intros Hz. unfold to_string. destruct (Z.ltb_spec z 0) as [Hneg|Hpos].
  - unfold stoi.
    change (skip_isspace (String "-" ?s)) with (String "-" s).
    cbv beta iota.
    rewrite read_digits_to_string by (unfold INT_MIN, INT_MAX in *; lia).
    cbn [negb]. rewrite Z.opp_involutive.
    destruct (Z.ltb_spec z INT_MIN); [lia|].
    destruct (Z.ltb_spec INT_MAX z); [lia|]. reflexivity.
  - destruct (digits_of_head 9 z EmptyString Hpos) as (d & tail & Hd & E).
    rewrite E, stoi_digit_first by exact Hd. rewrite <- E.
    rewrite read_digits_to_string by (unfold INT_MAX in *; lia).
    cbn [fst]. cbv zeta.
    destruct (Z.ltb_spec z INT_MIN); [unfold INT_MIN in *; lia|].
    destruct (Z.ltb_spec INT_MAX z); [lia|]. reflexivity.
Qed.

End Decimal.

(** ** Reading the process table *)

Section ProcessTable.

Lemma read_digits_nonneg s : forall a seen,
  (0 <= a)%Z -> (0 <= fst (read_digits s a seen))%Z.
Proof.
  induction s as [|c s IH]; intros a seen Ha; cbn [read_digits fst];
    [exact Ha|].
  destruct (digit_value c) as [d|] eqn:E; [|exact Ha].
  apply IH. unfold digit_value in E.
  destruct (_ && _); [|discriminate]. injection E as <-. lia.
Qed.

Lemma is_digit_digit_char_inv c :
  Proc.is_digit c = true -> exists d, (0 <= d <= 9)%Z /\ c = digit_char d.
Proof.
  unfold Proc.is_digit. intros H. apply andb_true_iff in H as [H1 H2].
  apply Nat.leb_le in H1, H2.
  exists (Z.of_nat (nat_of_ascii c - 48)). split; [lia|].
  unfold digit_char. rewrite Nat2Z.id.
  replace (48 + (nat_of_ascii c - 48)) with (nat_of_ascii c) by lia.
  now rewrite ascii_nat_embedding.
Qed.

Lemma pid_of_entry_range d_name p :
  In p (Proc.pid_of_entry d_name) -> (0 <= p <= INT_MAX)%Z.
Proof.
  unfold Proc.pid_of_entry. destruct d_name as [|c rest]; [intros []|].
  destruct (Proc.is_digit c) eqn:Hc; [|intros []].
  destruct (is_digit_digit_char_inv c Hc) as (d & Hd & ->).
  rewrite stoi_digit_first by exact Hd. cbv zeta.
  pose proof (read_digits_nonneg (String (digit_char d) rest) 0 false
                                 (Z.le_refl 0)) as Hnn.
  destruct (Z.ltb_spec (fst (read_digits (String (digit_char d) rest) 0 false))
                       INT_MIN); [intros []|].
  destruct (Z.ltb_spec INT_MAX
              (fst (read_digits (String (digit_char d) rest) 0 false)));
    [intros []|].
  cbn [orb]. intros [<-|[]]. lia.
Qed.

Lemma pid_of_entry_to_string z :
  (0 <= z <= INT_MAX)%Z -> Proc.pid_of_entry (to_string z) = [z].
Proof.
  intros Hz. pose proof (stoi_to_string z) as Hs.
  unfold to_string in *. destruct (Z.ltb_spec z 0); [lia|].
  destruct (digits_of_head 9 z EmptyString) as (d & tail & Hd & E); [lia|].
  rewrite E in *. unfold Proc.pid_of_entry.
  rewrite is_digit_digit_char by exact Hd.
  rewrite Hs; [reflexivity|]. unfold INT_MIN. lia.
Qed.

Lemma pid_of_entry_length d_name :
  List.length (Proc.pid_of_entry d_name) <= 1.
Proof.
  unfold Proc.pid_of_entry. destruct d_name as [|c rest]; [cbn; lia|].
  destruct (Proc.is_digit c); [|cbn; lia].
  destruct (stoi _); cbn; lia.
Qed.

(** X10: every pid [getRunningPIDs] returns lies in [0, INT_MAX]; an entry
    yields at most one pid, entries whose name does not start with a digit
    or whose number does not fit an [int] yield none, and nothing is returned
    when /proc does not open; the directory entry that is the decimal name
    of a pid yields that pid. *)
Theorem getRunningPIDs_pids (proc : option (list string)) :
  (forall p, In p (Proc.getRunningPIDs proc) -> (0 <= p <= INT_MAX)%Z) /\
  (proc = None -> Proc.getRunningPIDs proc = []) /\
  (forall entries,
     proc = Some entries ->
     List.length (Proc.getRunningPIDs proc) <= List.length entries /\
     (forall z, (0 <= z <= INT_MAX)%Z -> In (to_string z) entries ->
                In z (Proc.getRunningPIDs proc)) /\
     (forall p, In p (Proc.getRunningPIDs proc) ->
                exists d_name c rest,
                  In d_name entries /\ d_name = String c rest /\
                  Proc.is_digit c = true /\ stoi d_name = inl p)).
Proof.
  split; [|split].
  - destruct proc as [entries|]; [|intros p []].
    cbn [Proc.getRunningPIDs]. intros p (d & _ & Hd)%in_flat_map.
    now apply pid_of_entry_range in Hd.
  - now intros ->.
  - intros entries ->. cbn [Proc.getRunningPIDs]. split; [|split].
    + induction entries as [|d entries IH]; [reflexivity|].
      cbn [flat_map List.length]. rewrite length_app.
      pose proof (pid_of_entry_length d). lia.
    + intros z Hz Hin. apply in_flat_map. exists (to_string z).
      split; [exact Hin|]. rewrite pid_of_entry_to_string by exact Hz.
      now left.
    + intros p (d & Hin & Hd)%in_flat_map. unfold Proc.pid_of_entry in Hd.
      destruct d as [|c rest]; [destruct Hd|].
      destruct (Proc.is_digit c) eqn:Hc; [|destruct Hd].
      destruct (stoi (String c rest)) as [q|] eqn:Hs; [|destruct Hd].
      destruct Hd as [<-|[]]. exists (String c rest), c, rest.
      repeat split; assumption.
Qed.

Lemma char_in_cons c a s :
  char_in (String a s) c = Ascii.eqb c a || char_in s c.
Proof. reflexivity. Qed.

Lemma substring_chars c s : forall n m,
  char_in s c = false -> char_in (String.substring n m s) c = false.
Proof.
  induction s as [|a s IH]; intros n m H.
  - now destruct n, m.
  - rewrite char_in_cons in H. apply orb_false_iff in H as [Ha Hs].
    destruct n as [|n].
    + destruct m as [|m]; [reflexivity|]. cbn [String.substring].
      rewrite char_in_cons, Ha. cbn [orb]. now apply IH.
    + cbn [String.substring]. now apply IH.
Qed.

Lemma find_char_prefix c s : forall pos,
  Proc.find_char c s = Some pos ->
  char_in (String.substring 0 pos s) c = false.
Proof.
  induction s as [|a s IH]; intros pos; cbn [Proc.find_char];
    [discriminate|].
  destruct (Ascii.eqb a c) eqn:E.
  - intros H. injection H as <-. reflexivity.
  - destruct (Proc.find_char c s) as [i|]; [|discriminate].
    intros H. injection H as <-. cbn [String.substring].
    rewrite char_in_cons, Ascii.eqb_sym, E. cbn [orb]. now apply IH.
Qed.

Lemma find_char_none c s :
  Proc.find_char c s = None <-> char_in s c = false.
Proof.
  induction s as [|a s IH]; cbn [Proc.find_char]; [easy|].
  rewrite char_in_cons, (Ascii.eqb_sym c a).
  destruct (Ascii.eqb a c); cbn [orb]; [easy|].
  destruct (Proc.find_char c s); [|tauto].
  split; [discriminate|]. intros H. apply IH in H. discriminate.
Qed.

Lemma find_last_of_none c s :
  Proc.find_last_of c s = None <-> char_in s c = false.
Proof.
  induction s as [|a s IH]; cbn [Proc.find_last_of]; [easy|].
  rewrite char_in_cons, (Ascii.eqb_sym c a).
  destruct (Proc.find_last_of c s).
  - split; [discriminate|]. intros H. apply orb_false_iff in H as [_ H].
    apply IH in H. discriminate.
  - destruct (Ascii.eqb a c); cbn [orb]; [easy|tauto].
Qed.

Lemma substr_from_succ n a s :
  Proc.substr_from (S n) (String a s) = Proc.substr_from n s.
Proof. reflexivity. Qed.

Lemma find_last_of_suffix c s : forall pos,
  Proc.find_last_of c s = Some pos ->
  char_in (Proc.substr_from (pos + 1) s) c = false.
Proof.
  induction s as [|a s IH]; intros pos; cbn [Proc.find_last_of];
    [discriminate|].
  destruct (Proc.find_last_of c s) as [i|] eqn:E.
  - intros H. injection H as <-. cbn [Nat.add]. rewrite substr_from_succ.
    now apply IH.
  - destruct (Ascii.eqb a c); [|discriminate]. intros H. injection H as <-.
    cbn [Nat.add]. rewrite substr_from_succ. unfold Proc.substr_from.
    rewrite Nat.sub_0_r, substring_all. now apply find_last_of_none.
Qed.

(** X11: the name [getProcessName] returns is never empty and holds neither
    a '/' nor a NUL; it is "unknown" when the cmdline file does not open or
    gives no name, and a command line that is a plain name comes back as it
    is. *)
Theorem getProcessName_clean (cmdline : option string) :
  Proc.getProcessName cmdline <> EmptyString /\
  char_in (Proc.getProcessName cmdline) "/" = false /\
  char_in (Proc.getProcessName cmdline) Proc.NUL = false /\
  (cmdline = None \/ cmdline = Some EmptyString ->
   Proc.getProcessName cmdline = "unknown"%string) /\
  (forall s, cmdline = Some s -> s <> EmptyString ->
             char_in s "/" = false -> char_in s Proc.NUL = false ->
             Proc.getProcessName cmdline = s).
Proof.
  destruct cmdline as [content|].
  2:{ repeat split; try reflexivity; try discriminate. }
  cbn [Proc.getProcessName].
  set (content1 := match Proc.find_char Proc.NUL content with
                   | Some pos => String.substring 0 pos content
                   | None => content
                   end).
  set (content2 := match Proc.find_last_of "/" content1 with
                   | Some slash_pos => Proc.substr_from (slash_pos + 1) content1
                   | None => content1
                   end).
  assert (H1 : char_in content1 Proc.NUL = false).
  { unfold content1. destruct (Proc.find_char Proc.NUL content) eqn:E.
    - now apply find_char_prefix.
    - now apply find_char_none. }
  assert (H2 : char_in content2 Proc.NUL = false).
  { unfold content2. destruct (Proc.find_last_of "/" content1);
      [now apply substring_chars|exact H1]. }
  assert (H3 : char_in content2 "/" = false).
  { unfold content2. destruct (Proc.find_last_of "/" content1) eqn:E.
    - now apply find_last_of_suffix.
    - now apply find_last_of_none. }
  split; [|split; [|split; [|split]]].
  - destruct content2; [discriminate|discriminate].
  - destruct content2; [reflexivity|exact H3].
  - destruct content2; [reflexivity|exact H2].
  - intros [H|H]; [discriminate|]. injection H as ->. reflexivity.
  - intros s H Hne Hslash Hnul. injection H as ->.
    assert (E1 : content1 = s).
    { unfold content1. apply find_char_none in Hnul. now rewrite Hnul. }
    assert (E2 : content2 = s).
    { unfold content2. rewrite E1. apply find_last_of_none in Hslash.
      now rewrite Hslash. }
    rewrite E2. destruct s; [congruence|reflexivity].
Qed.

End ProcessTable.

(** ** [saveConfig] and [loadConfig] *)

Section ConfigRoundTrip.

Variable stod : string -> double + exception.
Variable show_double : double -> string.

Lemma erase_trailing_no_blank s : no_blank s = true -> erase_trailing s = s.
Proof.
  induction s as [|c s IH]; [reflexivity|]. unfold no_blank.
  cbn [list_ascii_of_string forallb]. intros H.
  apply andb_true_iff in H as [Hc Hs]. cbn [erase_trailing].
  rewrite (IH Hs). apply negb_true_iff in Hc. rewrite Hc.
  now destruct s.
Qed.

Lemma trim_no_blank s : no_blank s = true -> trim s = s.
Proof.
  intros H. unfold trim.
  assert (E : erase_leading s = s).
  { destruct s as [|c s]; [reflexivity|]. unfold no_blank in H.
    cbn [list_ascii_of_string forallb] in H.
    apply andb_true_iff in H as [Hc _]. apply negb_true_iff in Hc.
    cbn [erase_leading]. now rewrite Hc. }
  rewrite E. now apply erase_trailing_no_blank.
Qed.

Lemma digit_char_no_blank d : (0 <= d <= 9)%Z -> blank (digit_char d) = false.
Proof.
  intros H.
  destruct (digit_cases d H) as [->|[->|[->|[->|[->|[->|[->|[->|[->| ->]]]]]]]]];
    reflexivity.
Qed.

Lemma digits_of_no_blank fuel : forall n acc,
  no_blank acc = true -> no_blank (digits_of fuel n acc) = true.
Proof.
  induction fuel as [|fuel IH]; intros n acc Hacc; [exact Hacc|].
  cbn [digits_of].
  assert (H : no_blank (String (digit_char (n mod 10)) acc) = true).
  { unfold no_blank. cbn [list_ascii_of_string forallb].
    rewrite digit_char_no_blank by (pose proof (Z.mod_pos_bound n 10); lia).
    exact Hacc. }
  destruct (n <? 10)%Z; [exact H|now apply IH].
Qed.

Lemma to_string_no_blank z : no_blank (to_string z) = true.
Proof.
  unfold to_string. destruct (z <? 0)%Z.
  - change (no_blank (String "-" ?s)) with (no_blank s).
    now apply digits_of_no_blank.
  - now apply digits_of_no_blank.
Qed.

Local Ltac key_line pos key ch rest :=
  unfold parse_line; cbn [append];
  change (String.index 0 "=" _) with (Some pos);
  cbv beta iota;
  change (trim (String.substring 0 pos _)) with key;
  change (String.substring (pos + 1) _ _)
    with (String.substring 0 (String.length (String ch rest))
                           (String ch rest));
  rewrite substring_all; reflexivity.

Lemma parse_line_responsiveness_weight value c :
  parse_line stod ("responsiveness_weight=" ++ value) c
  = match stod (trim value) with
    | inl v => inl (set_weights v (fluency_weight c) (efficiency_weight c)
                                (thermal_weight c) c)
    | inr ex => inr ex
    end.
Proof.
  destruct value as [|ch rest]; [reflexivity|].
  key_line 21 "responsiveness_weight"%string ch rest.
Qed.

Lemma parse_line_fluency_weight value c :
  parse_line stod ("fluency_weight=" ++ value) c
  = match stod (trim value) with
    | inl v => inl (set_weights (responsiveness_weight c) v
                                (efficiency_weight c) (thermal_weight c) c)
    | inr ex => inr ex
    end.
Proof.
  destruct value as [|ch rest]; [reflexivity|].
  key_line 14 "fluency_weight"%string ch rest.
Qed.

Lemma parse_line_efficiency_weight value c :
  parse_line stod ("efficiency_weight=" ++ value) c
  = match stod (trim value) with
    | inl v => inl (set_weights (responsiveness_weight c) (fluency_weight c)
                                v (thermal_weight c) c)
    | inr ex => inr ex
    end.
Proof.
  destruct value as [|ch rest]; [reflexivity|].
  key_line 17 "efficiency_weight"%string ch rest.
Qed.

Lemma parse_line_thermal_weight value c :
  parse_line stod ("thermal_weight=" ++ value) c
  = match stod (trim value) with
    | inl v => inl (set_weights (responsiveness_weight c) (fluency_weight c)
                                (efficiency_weight c) v c)
    | inr ex => inr ex
    end.
Proof.
  destruct value as [|ch rest]; [reflexivity|].
  key_line 14 "thermal_weight"%string ch rest.
Qed.

Lemma parse_line_enable_engine b c :
  parse_line stod ("enable_engine=" ++ show_bool b) c
  = inl (set_enable_engine b c).
Proof. destruct b; reflexivity. Qed.

Lemma parse_line_optimization_enabled b c :
  parse_line stod ("optimization_enabled=" ++ show_bool b) c
  = inl (set_optimization_enabled b c).
Proof. destruct b; reflexivity. Qed.

Lemma parse_line_current_scene scene c :
  parse_line stod ("current_scene=" ++ to_string (scene_index scene)) c
  = inl c.
Proof. destruct scene; reflexivity. Qed.

Lemma parse_lines_step line rest c c' :
  parse_line stod line c = inl c' ->
  parse_lines stod (line :: rest) c = parse_lines stod rest c'.
Proof. intros H. cbn [parse_lines]. now rewrite H. Qed.

(** The lines [saveConfig] writes, read back over any configuration. *)
Lemma parse_saved_lines (saved c : Config) (r f ef t : double) :
  (INT_MIN <= scheduling_interval saved <= INT_MAX)%Z ->
  stod (trim (show_double (responsiveness_weight saved))) = inl r ->
  stod (trim (show_double (fluency_weight saved))) = inl f ->
  stod (trim (show_double (efficiency_weight saved))) = inl ef ->
  stod (trim (show_double (thermal_weight saved))) = inl t ->
  parse_lines stod (saveConfig_lines show_double saved) c
  = (set_weights r f ef t
       (set_optimization_enabled (optimization_enabled saved)
          (set_scheduling_interval (scheduling_interval saved)
             (set_enable_engine (enable_engine saved) c))),
     Returned).
Proof.
  intros Hint Hr Hf Hef Ht. unfold saveConfig_lines.
  do 4 (erewrite parse_lines_step by reflexivity).
  erewrite parse_lines_step by apply parse_line_enable_engine.
  erewrite parse_lines_step.
  2:{ rewrite parse_line_scheduling_interval.
      rewrite (trim_no_blank _ (to_string_no_blank _)).
      rewrite stoi_to_string by exact Hint. reflexivity. }
  erewrite parse_lines_step by apply parse_line_optimization_enabled.
  do 2 (erewrite parse_lines_step by reflexivity).
  erewrite parse_lines_step
    by (rewrite parse_line_responsiveness_weight, Hr; reflexivity).
  erewrite parse_lines_step
    by (rewrite parse_line_fluency_weight, Hf; reflexivity).
  erewrite parse_lines_step
    by (rewrite parse_line_efficiency_weight, Hef; reflexivity).
  erewrite parse_lines_step
    by (rewrite parse_line_thermal_weight, Ht; reflexivity).
  do 2 (erewrite parse_lines_step by reflexivity).
  erewrite parse_lines_step by apply parse_line_current_scene.
  erewrite parse_lines_step by reflexivity.
  reflexivity.
Qed.

(** No line touches the scene preference or the CTO settings. *)
Lemma parse_line_keeps line c c' :
  parse_line stod line c = inl c' ->
  current_scene c' = current_scene c /\ cto_config c' = cto_config c.
Proof.
  unfold parse_line. intros H.
  repeat match type of H with
         | context [match ?x with _ => _ end] => destruct x
         end;
    try discriminate; injection H as <-; split; reflexivity.
Qed.

Lemma parse_lines_keeps lines : forall c,
  current_scene (fst (parse_lines stod lines c)) = current_scene c /\
  cto_config (fst (parse_lines stod lines c)) = cto_config c.
Proof.
  induction lines as [|line lines IH]; intros c; cbn [parse_lines];
    [now split|].
  destruct (parse_line stod line c) as [c'|ex] eqn:E; [|now split].
  destruct (parse_line_keeps _ _ _ E) as [H1 H2].
  destruct (IH c') as [H3 H4]. split; congruence.
Qed.

(** X12: what [saveConfig] writes, [loadConfig] reads back without an
    exception, provided the file it opens is the one written (the path holds
    no "/conf/", or its "/data/config/" variant does not open) and [std::stod]
    accepts the four printed weights: the three non-numeric settings come
    back exactly, each weight is what [std::stod] reads from its printed
    form, and the scene preference is NOT restored: the line
    [current_scene=...] is written but never read, so the loading engine
    keeps its own. *)
Theorem saveConfig_loadConfig_roundtrip
  (writable : string -> bool) (files : string -> option (list string))
  (configPath : string) (saved loaded : Engine) (r f ef t : double) :
  writable configPath = true ->
  files (primary_path configPath) = None \/
  primary_path configPath = configPath ->
  (INT_MIN <= scheduling_interval (config_ saved) <= INT_MAX)%Z ->
  stod (trim (show_double (responsiveness_weight (config_ saved)))) = inl r ->
  stod (trim (show_double (fluency_weight (config_ saved)))) = inl f ->
  stod (trim (show_double (efficiency_weight (config_ saved)))) = inl ef ->
  stod (trim (show_double (thermal_weight (config_ saved)))) = inl t ->
  let files' := fst (saveConfig show_double writable files configPath saved) in
  let res := loadConfig stod files' configPath loaded in
  snd res = Returned /\
  config_ (fst res)
  = set_weights r f ef t
      (set_optimization_enabled (optimization_enabled (config_ saved))
         (set_scheduling_interval (scheduling_interval (config_ saved))
            (set_enable_engine (enable_engine (config_ saved))
                               (config_ loaded)))) /\
  current_scene (config_ (fst res)) = current_scene (config_ loaded).
Proof.
  intros Hw Hpath Hint Hr Hf Hef Ht. cbv zeta.
  unfold saveConfig. rewrite Hw. cbn [fst].
  unfold loadConfig.
  assert (Hread :
    exists msg,
      match
        (if String.eqb (primary_path configPath) configPath
         then Some (saveConfig_lines show_double (config_ saved))
         else files (primary_path configPath))
      with
      | Some lines =>
          Some (lines,
                logInfo [Text "使用配置文件: "; Text (primary_path configPath)]
                        loaded)
      | None =>
          match
            (if String.eqb configPath configPath
             then Some (saveConfig_lines show_double (config_ saved))
             else files configPath)
          with
          | Some lines =>
              Some (lines,
                    logInfo [Text "使用配置文件: "; Text configPath] loaded)
          | None => None
          end
      end
      = Some (saveConfig_lines show_double (config_ saved),
              logInfo msg loaded)).
  { rewrite String.eqb_refl.
    destruct (String.eqb_spec (primary_path configPath) configPath) as [E|E].
    - eexists. reflexivity.
    - destruct Hpath as [-> | Hp]; [|contradiction]. eexists. reflexivity. }
  destruct Hread as (msg & ->).
  change (config_ (logInfo msg loaded)) with (config_ loaded).
  rewrite (parse_saved_lines _ _ r f ef t Hint Hr Hf Hef Ht).
  cbn [fst snd config_ logInfo log set_log_ set_config_].
  repeat split.
Qed.

(** X13: [loadConfig] writes to the configuration and the log and to nothing
    else, and within the configuration never to the scene preference or the
    CTO settings, whatever the file holds and however the call ends; when
    neither path opens the call returns normally with the configuration
    untouched and one error line; when the "/data/config/" variant of the
    path opens, the file under the path itself is not read. *)
Theorem loadConfig_scope
  (files : string -> option (list string)) (configPath : string) (e : Engine) :
  let res := loadConfig stod files configPath e in
  current_scene (config_ (fst res)) = current_scene (config_ e) /\
  cto_config (config_ (fst res)) = cto_config (config_ e) /\
  same_but_log (set_config_ (config_ e) (fst res)) e /\
  (files (primary_path configPath) = None -> files configPath = None ->
   res = (logError [Text "无法打开配置文件: ";
                    Text (primary_path configPath); Text " 和 ";
                    Text configPath] e, Returned)) /\
  (forall lines,
     files (primary_path configPath) = Some lines ->
     res = loadConfig stod (fun _ => Some lines) configPath e).
Proof.
  cbv zeta.
  assert (Hparsed : forall lines msg,
    let r := match parse_lines stod lines (config_ (logInfo msg e)) with
             | (c, Returned) =>
                 (logInfo [Text "配置文件加载完成: "; Text configPath]
                          (set_config_ c (logInfo msg e)), Returned)
             | (c, Thrown ex) => (set_config_ c (logInfo msg e), Thrown ex)
             end in
    current_scene (config_ (fst r)) = current_scene (config_ e) /\
    cto_config (config_ (fst r)) = cto_config (config_ e) /\
    same_but_log (set_config_ (config_ e) (fst r)) e).
  { intros lines msg. cbv zeta.
    destruct (parse_lines_keeps lines (config_ (logInfo msg e))) as [H1 H2].
    destruct (parse_lines stod lines (config_ (logInfo msg e))) as [c [|ex]];
      cbn [fst] in *; repeat split; assumption. }
  unfold loadConfig.
  destruct (files (primary_path configPath)) as [lines|] eqn:Ep.
  - destruct (Hparsed lines [Text "使用配置文件: ";
                             Text (primary_path configPath)])
      as (H1 & H2 & H3).
    split; [exact H1|]. split; [exact H2|]. split; [exact H3|].
    split; [discriminate|]. intros l E. injection E as <-. reflexivity.
  - destruct (files configPath) as [lines|] eqn:Eo.
    + destruct (Hparsed lines [Text "使用配置文件: "; Text configPath])
        as (H1 & H2 & H3).
      split; [exact H1|]. split; [exact H2|]. split; [exact H3|].
      split; discriminate.
    + cbn [fst]. repeat split; try reflexivity. discriminate.
Qed.

End ConfigRoundTrip.

(** ** [start] *)

Section Start.

Implicit Types e : Engine.

Lemma config_stop e : config_ (stop e) = config_ e.
Proof.
  unfold stop, join_monitor, join_main.
  destruct (running_ e); cbn [negb]; [|reflexivity].
  cbn [main_thread_ monitor_thread_ set_running_ logInfo log set_log_
       set_threads].
  destruct (main_thread_ e);
    cbn [main_thread_ monitor_thread_ set_running_ logInfo log set_log_
         set_threads];
    destruct (monitor_thread_ e); reflexivity.
Qed.

(** X14: [start] succeeds exactly on an engine that is stopped and enabled
    by its configuration; a refused [start] changes nothing but the log; a
    second [start] after a successful one is refused and leaves the engine
    running; and after [stop] an enabled engine starts again. *)
Theorem start_outcomes e :
  (fst (start e) = true <->
   running_ e = false /\ enable_engine (config_ e) = true) /\
  (fst (start e) = false -> same_but_log e (snd (start e))) /\
  (fst (start e) = true ->
   running_ (snd (start e)) = true /\
   main_thread_ (snd (start e)) = true /\
   monitor_thread_ (snd (start e)) = true /\
   fst (start (snd (start e))) = false /\
   running_ (snd (start (snd (start e)))) = true) /\
  (enable_engine (config_ e) = true ->
   fst (start (stop e)) = true /\
   running_ (snd (start (stop e))) = true).
Proof.
  split; [|split; [|split]].
  - unfold start. destruct (running_ e), (enable_engine (config_ e));
      cbn; split; try tauto; try discriminate; intros [H1 H2]; discriminate.
  - unfold start. destruct (running_ e); [reflexivity|].
    destruct (enable_engine (config_ e)); cbn [negb fst snd];
      [discriminate|reflexivity].
  - unfold start. destruct (running_ e); [discriminate|].
    destruct (enable_engine (config_ e)); cbn [negb fst snd];
      [|discriminate].
    intros _.
    cbn [running_ main_thread_ monitor_thread_ logInfo log set_log_
         set_threads set_running_ fst snd].
    repeat split.
  - intros Hen. unfold start. rewrite running_stop, config_stop, Hen.
    cbn [negb fst snd]. split; reflexivity.
Qed.

End Start.

(** ** The evolution loop *)

Section EvolutionLoop.

Implicit Types (e : Engine) (inp : IterationInputs).

Local Open Scope Z_scope.

Lemma view_check e :
  current_generation_ (checkEvolutionConvergence e) = current_generation_ e /\
  evolution_history_ (checkEvolutionConvergence e) = evolution_history_ e /\
  evolution_config_ (checkEvolutionConvergence e) = evolution_config_ e /\
  population_manager_ (checkEvolutionConvergence e) = population_manager_ e.
Proof.
  unfold checkEvolutionConvergence.
  destruct (population_manager_ e) eqn:E; [|now rewrite E].
  destruct (_ <? 10)%nat; [now rewrite E|].
  destruct (lt _ _); [|now rewrite E].
  cbn [current_generation_ evolution_history_ evolution_config_
       population_manager_ set_evolution_active_ logInfo log set_log_].
  now rewrite E.
Qed.

Lemma view_update now e :
  current_generation_ (updateEvolutionState now e) = current_generation_ e /\
  evolution_active_ (updateEvolutionState now e) = evolution_active_ e /\
  evolution_config_ (updateEvolutionState now e) = evolution_config_ e /\
  population_manager_ (updateEvolutionState now e) = population_manager_ e.
Proof.
  unfold updateEvolutionState.
  destruct (evolution_active_ e) eqn:A, (population_manager_ e) eqn:E;
    cbn [current_generation_ evolution_active_ evolution_config_
         population_manager_ set_evolution_history_];
    rewrite ?A, ?E; repeat split.
Qed.

Lemma view_perform inp e :
  evolution_view (fst (performGeneticOperations inp e)) = evolution_view e /\
  (population_manager_ e <> None ->
   population_manager_ (fst (performGeneticOperations inp e)) <> None) /\
  (genetic_step_returns inp ->
   snd (performGeneticOperations inp e) = None) /\
  (population_manager_ e = None ->
   snd (performGeneticOperations inp e) = None).
Proof.
  unfold performGeneticOperations, genetic_step_returns.
  destruct (population_manager_ e) as [pm|] eqn:E.
  - destruct (evaluation inp) as [what|] eqn:V.
    + cbn [fst snd]. rewrite E.
      repeat split; [discriminate|now intros [? _]|discriminate].
    + destruct (evolveGeneration inp pm) as [pm' [what|]] eqn:G;
        cbn [fst snd]; (split; [reflexivity|]);
        (split; [discriminate|]); (split; [|discriminate]);
        [|reflexivity].
      intros [_ H]. specialize (H pm). now rewrite G in H.
  - cbn [fst snd]. rewrite E. repeat split. tauto.
Qed.

Lemma view_simulate inp e :
  evolution_view (fst (simulateGameRound inp e)) = evolution_view e /\
  population_manager_ (fst (simulateGameRound inp e)) = population_manager_ e.
Proof.
  unfold simulateGameRound. now destruct (game_round inp) as [[what|]|].
Qed.

(** An iteration ends in one of two ways: its genetic step threw, and but
    for the population and the log nothing has changed; or the counter has
    advanced by one and the history taken what [updateEvolutionState] gave
    it. *)
Lemma iteration_cases inp e :
  (snd (performGeneticOperations inp e) <> None /\
   evolution_view (evolution_iteration inp e) = evolution_view e /\
   population_manager_ (evolution_iteration inp e)
   = population_manager_ (fst (performGeneticOperations inp e)))
  \/
  (snd (performGeneticOperations inp e) = None /\
   current_generation_ (evolution_iteration inp e)
   = current_generation_ e + 1 /\
   evolution_config_ (evolution_iteration inp e) = evolution_config_ e /\
   evolution_history_ (evolution_iteration inp e)
   = evolution_history_
       (updateEvolutionState (clock inp)
          (set_current_generation_ (current_generation_ e + 1)
             (fst (performGeneticOperations inp e)))) /\
   population_manager_ (evolution_iteration inp e)
   = population_manager_ (fst (performGeneticOperations inp e))).
Proof.
  unfold evolution_iteration.
  destruct (view_perform inp e) as (Hv & _).
  destruct (performGeneticOperations inp e) as [e1 [what|]];
    cbn [fst snd] in *.
  - left. split; [discriminate|]. split; [exact Hv|reflexivity].
  - right. split; [reflexivity|].
    assert (Hg : current_generation_ e1 = current_generation_ e)
      by (unfold evolution_view in Hv; congruence).
    assert (Hc : evolution_config_ e1 = evolution_config_ e)
      by (unfold evolution_view in Hv; congruence).
    rewrite Hg.
    set (e2 := set_current_generation_ (current_generation_ e + 1) e1).
    destruct (view_update (clock inp) e2) as (U1 & _ & U3 & U4).
    destruct (view_simulate inp (updateEvolutionState (clock inp) e2))
      as (S1 & S2).
    unfold evolution_view in S1. injection S1 as _ Sg Sh Sc.
    assert (F : forall e4,
               current_generation_ e4
               = current_generation_
                   (fst (simulateGameRound inp
                           (updateEvolutionState (clock inp) e2))) ->
               evolution_history_ e4
               = evolution_history_
                   (fst (simulateGameRound inp
                           (updateEvolutionState (clock inp) e2))) ->
               evolution_config_ e4
               = evolution_config_
                   (fst (simulateGameRound inp
                           (updateEvolutionState (clock inp) e2))) ->
               population_manager_ e4
               = population_manager_
                   (fst (simulateGameRound inp
                           (updateEvolutionState (clock inp) e2))) ->
               current_generation_ e4 = current_generation_ e + 1 /\
               evolution_config_ e4 = evolution_config_ e /\
               evolution_history_ e4
               = evolution_history_ (updateEvolutionState (clock inp) e2) /\
               population_manager_ e4 = population_manager_ e1).
    { intros e4 F1 F2 F3 F4. rewrite F1, F2, F3, F4, Sg, Sh, Sc, S2, U1, U3, U4.
      unfold e2.
      cbn [current_generation_ evolution_config_ population_manager_
           set_current_generation_].
      repeat split. exact Hc. }
    destruct (simulateGameRound inp (updateEvolutionState (clock inp) e2))
      as [e4 [what|]]; cbn [fst snd] in *.
    + apply F; reflexivity.
    + destruct (view_check e4) as (C1 & C2 & C3 & C4). now apply F.
Qed.

Lemma iteration_evolution_config inp e :
  evolution_config_ (evolution_iteration inp e) = evolution_config_ e.
Proof.
  destruct (iteration_cases inp e) as [(_ & Hv & _)|(_ & _ & Hc & _)];
    [unfold evolution_view in Hv; congruence|exact Hc].
Qed.

Lemma iteration_generation_bounds inp e :
  current_generation_ e <= current_generation_ (evolution_iteration inp e)
  <= current_generation_ e + 1.
Proof.
  destruct (iteration_cases inp e) as [(_ & Hv & _)|(_ & Hg & _)].
  - unfold evolution_view in Hv.
    assert (current_generation_ (evolution_iteration inp e)
            = current_generation_ e) by congruence.
    lia.
  - lia.
Qed.

Lemma iteration_generation inp e :
  genetic_step_returns inp ->
  current_generation_ (evolution_iteration inp e) = current_generation_ e + 1.
Proof.
  intros Hr. destruct (view_perform inp e) as (_ & _ & Hn & _).
  destruct (iteration_cases inp e) as [(Ht & _)|(_ & Hg & _)];
    [now rewrite (Hn Hr) in Ht|exact Hg].
Qed.

Lemma continues_generation e :
  evolution_continues e = true ->
  evolution_active_ e = true /\
  current_generation_ e < max_generations (evolution_config_ e).
Proof.
  unfold evolution_continues. intros [H G]%andb_true_iff.
  now apply Z.ltb_lt in G.
Qed.

(** X15: the counter of generations never goes back and never passes
    [max_generations] in the evolution loop, and takes at most one step an
    iteration. *)
Theorem evolutionMainLoop_generation (inputs : list IterationInputs) e :
  current_generation_ e
  <= current_generation_ (evolutionMainLoop inputs e)
  <= Z.max (current_generation_ e)
           (Z.min (current_generation_ e + Z.of_nat (List.length inputs))
                  (max_generations (evolution_config_ e))) /\
  evolution_config_ (evolutionMainLoop inputs e) = evolution_config_ e.
Proof.
  revert e. induction inputs as [|inp rest IH]; intros e.
  - cbn [evolutionMainLoop List.length]. split; [lia|reflexivity].
  - cbn [evolutionMainLoop]. destruct (evolution_continues e) eqn:G.
    + destruct (IH (evolution_iteration inp e)) as (H1 & H2).
      rewrite iteration_evolution_config in *.
      pose proof (iteration_generation_bounds inp e) as Hb.
      apply continues_generation in G as [_ G].
      cbn [List.length]. rewrite Nat2Z.inj_succ.
      split; [lia|exact H2].
    + cbn [List.length]. split; [lia|reflexivity].
Qed.

(** X16: as long as the genetic step of every iteration returns, the loop
    has ended (its condition is false) after
    [max_generations - current_generation_] iterations at the latest. *)
Theorem evolutionMainLoop_terminates (inputs : list IterationInputs) e :
  Forall genetic_step_returns inputs ->
  max_generations (evolution_config_ e) - current_generation_ e
  <= Z.of_nat (List.length inputs) ->
  evolution_continues (evolutionMainLoop inputs e) = false.
Proof.
  revert e. induction inputs as [|inp rest IH]; intros e Hr Hn.
  - cbn [evolutionMainLoop List.length] in *. unfold evolution_continues.
    destruct (Z.ltb_spec (current_generation_ e)
                         (max_generations (evolution_config_ e))); [lia|].
    apply andb_false_r.
  - cbn [evolutionMainLoop]. destruct (evolution_continues e) eqn:G;
      [|exact G].
    apply Forall_cons_iff in Hr as [Hi Hr].
    apply IH; [exact Hr|].
    rewrite iteration_evolution_config, (iteration_generation inp e Hi).
    cbn [List.length] in Hn. lia.
Qed.

(** X17: an iteration whose genetic step throws leaves the counter, the
    history, the configuration and the active flag as they were; so when
    every genetic step throws, the loop's condition holds after any number
    of iterations as it did before them. *)
Theorem evolutionMainLoop_stalls (inputs : list IterationInputs) e :
  population_manager_ e <> None ->
  Forall (fun inp => evaluation inp <> None) inputs ->
  evolution_view (evolutionMainLoop inputs e) = evolution_view e /\
  evolution_continues (evolutionMainLoop inputs e) = evolution_continues e.
Proof.
  intros Hpm Hall.
  assert (H : evolution_view (evolutionMainLoop inputs e) = evolution_view e).
  { revert e Hpm. induction Hall as [|inp rest Hi _ IH]; intros e Hpm;
      cbn [evolutionMainLoop]; [reflexivity|].
    destruct (evolution_continues e); [|reflexivity].
    destruct (view_perform inp e) as (_ & Hp & _).
    destruct (iteration_cases inp e) as [(_ & Hv & Hq)|(Hn & _)].
    - rewrite IH; [exact Hv|]. rewrite Hq. now apply Hp.
    - exfalso. unfold performGeneticOperations in Hn.
      destruct (population_manager_ e); [|congruence].
      destruct (evaluation inp); [discriminate|congruence]. }
  split; [exact H|]. unfold evolution_continues, evolution_view in *.
  injection H as -> -> _ ->. reflexivity.
Qed.

Lemma latest_entry_snoc (h : list EvolutionHistory) x :
  latest_entry (h ++ [x]) = Some x.
Proof. unfold latest_entry. now rewrite rev_app_distr. Qed.

Lemma consecutive_generations_snoc (h : list EvolutionHistory) x :
  consecutive_generations h ->
  (forall latest, latest_entry h = Some latest ->
                  generation x = generation latest + 1) ->
  consecutive_generations (h ++ [x]).
Proof.
  induction h as [|a h IH]; intros Hc Hl; [cbn; tauto|].
  cbn [app consecutive_generations] in *. destruct Hc as [Ha Hc]. split.
  - destruct h as [|b h]; cbn [app]; [|exact Ha].
    apply Hl. reflexivity.
  - apply IH; [exact Hc|]. intros latest E. apply Hl.
    destruct h as [|b h]; [discriminate|].
    unfold latest_entry in *. cbn [rev] in *.
    destruct (rev h ++ [b])%list eqn:R; [now destruct (rev h)|].
    cbn [app]. exact E.
Qed.

Lemma consecutive_generations_tl (h : list EvolutionHistory) :
  consecutive_generations h -> consecutive_generations (tl h).
Proof. destruct h as [|a h]; [tauto|]. now intros [_ H]. Qed.

Lemma latest_entry_tl (h : list EvolutionHistory) x :
  h <> [] -> latest_entry (tl (h ++ [x])) = Some x.
Proof.
  destruct h as [|a h]; [congruence|]. intros _. cbn [app tl].
  apply latest_entry_snoc.
Qed.

Lemma history_push_tracks x (h : list EvolutionHistory) :
  consecutive_generations h ->
  (forall latest, latest_entry h = Some latest ->
                  generation x = generation latest + 1) ->
  consecutive_generations (evolution_history_push x h) /\
  latest_entry (evolution_history_push x h) = Some x.
Proof.
  intros Hc Hl. unfold evolution_history_push.
  destruct (Nat.ltb_spec 100 (List.length (h ++ [x]))) as [Hfull|Hroom].
  - split.
    + apply consecutive_generations_tl.
      now apply consecutive_generations_snoc.
    + apply latest_entry_tl. intros ->. cbn in Hfull. lia.
  - split; [now apply consecutive_generations_snoc|apply latest_entry_snoc].
Qed.

(** One iteration under the loop's condition keeps the history on the
    counter. *)
Lemma iteration_tracks inp e :
  evolution_active_ e = true -> population_manager_ e <> None ->
  history_tracks e ->
  history_tracks (evolution_iteration inp e) /\
  population_manager_ (evolution_iteration inp e) <> None.
Proof.
  intros Hact Hpm [Hc Hl].
  destruct (view_perform inp e) as (Hv & Hp & _). specialize (Hp Hpm).
  unfold evolution_view in Hv.
  destruct (iteration_cases inp e)
    as [(_ & Hw & Hq)|(_ & Hg & _ & Hh & Hq)];
    (split; [|now rewrite Hq]).
  - unfold evolution_view in Hw. unfold history_tracks.
    assert (E1 : evolution_history_ (evolution_iteration inp e)
                 = evolution_history_ e) by congruence.
    assert (E2 : current_generation_ (evolution_iteration inp e)
                 = current_generation_ e) by congruence.
    rewrite E1, E2. now split.
  - unfold history_tracks. rewrite Hh, Hg. clear Hh Hg Hq.
    set (e1 := fst (performGeneticOperations inp e)) in *.
    assert (A1 : evolution_active_ e1 = true) by congruence.
    assert (H1 : evolution_history_ e1 = evolution_history_ e) by congruence.
    unfold updateEvolutionState.
    cbn [evolution_active_ population_manager_ evolution_history_
         current_generation_ set_current_generation_].
    rewrite A1. destruct (population_manager_ e1) as [pm|]; [|congruence].
    cbn [evolution_history_ set_evolution_history_]. rewrite H1.
    set (x := make_history _ _ _).
    assert (Hx : generation x = current_generation_ e + 1).
    { unfold x, make_history. now destruct (fitness_totals _). }
    destruct (history_push_tracks x (evolution_history_ e) Hc) as [P1 P2].
    { intros latest E. rewrite Hx, (Hl latest E). reflexivity. }
    split; [exact P1|]. intros latest E. rewrite P2 in E.
    injection E as <-. exact Hx.
Qed.

(** X18: with a population manager in place, the evolution loop keeps the
    history on the generation counter, whether or not calls of an iteration
    throw: the entries carry consecutive generation numbers and the latest
    is the current generation's; so the entry nine places before the
    latest, which the convergence check reads, is the one recorded nine
    generations earlier. *)
Theorem evolutionMainLoop_history_tracks (inputs : list IterationInputs) e :
  population_manager_ e <> None ->
  history_tracks e ->
  history_tracks (evolutionMainLoop inputs e) /\
  population_manager_ (evolutionMainLoop inputs e) <> None /\
  (forall older oldest middle latest,
     evolution_history_ (evolutionMainLoop inputs e)
     = (older ++ oldest :: middle ++ [latest])%list ->
     List.length middle = 8%nat ->
     generation latest
     = current_generation_ (evolutionMainLoop inputs e) /\
     generation oldest
     = current_generation_ (evolutionMainLoop inputs e) - 9).
Proof.
  intros Hpm Ht.
  assert (H : history_tracks (evolutionMainLoop inputs e) /\
              population_manager_ (evolutionMainLoop inputs e) <> None).
  { revert e Hpm Ht. induction inputs as [|inp rest IH]; intros e Hpm Ht;
      cbn [evolutionMainLoop]; [now split|].
    destruct (evolution_continues e) eqn:G; [|now split].
    apply continues_generation in G as [G _].
    destruct (iteration_tracks inp e G Hpm Ht) as [Ht' Hpm'].
    now apply IH. }
  destruct H as [[Hc Hl] Hp]. split; [now split|]. split; [exact Hp|].
  intros older oldest middle latest Hh Hlen.
  assert (E : generation latest
              = current_generation_ (evolutionMainLoop inputs e)).
  { apply Hl. rewrite Hh.
    change (older ++ oldest :: middle ++ [latest])%list
      with (older ++ (oldest :: middle) ++ [latest])%list.
    rewrite app_assoc. apply latest_entry_snoc. }
  split; [exact E|]. rewrite Hh in Hc.
  pose proof (consecutive_generations_span _ _ _ _ Hc) as Hs.
  rewrite Hlen in Hs. lia.
Qed.

End EvolutionLoop.

(** ** Restoring and restarting the evolution *)

Section Restore.

Variable extract_row : string -> Z * double * double * double.

Lemma nth_error_numbered {A} (rows : list A) : forall start i line,
  nth_error rows i = Some line ->
  nth_error (combine (seq start (List.length rows)) rows) i
  = Some ((start + i)%nat, line).
Proof.
  induction rows as [|row rows IH]; intros start [|i] line H;
    try discriminate; cbn [List.length seq combine nth_error] in *.
  - injection H as ->. now rewrite Nat.add_0_r.
  - rewrite (IH (S start) i line H). do 2 f_equal. lia.
Qed.

Lemma evolution_history_push_full x (h : list EvolutionHistory) :
  100 <= List.length h ->
  List.length (evolution_history_push x h) = List.length h.
Proof.
  intros H. unfold evolution_history_push. rewrite length_app.
  cbn [List.length].
  destruct (Nat.ltb_spec 100 (List.length h + 1)) as [_|]; [|lia].
  destruct h as [|a h]; cbn [List.length] in *; [lia|].
  cbn [app tl]. rewrite length_app. cbn [List.length]. lia.
Qed.

(** X19: [loadEvolutionData] replaces the history by one entry for each line
    after the header, in order, whatever the history held before and
    without the limit of 100 entries; a file that does not open changes only
    the log.  A later [updateEvolutionState] erases one entry for the one it
    adds, so a restored history of 100 entries or more keeps its length. *)
Theorem loadEvolutionData_replaces (file : option (list string))
  (filepath : string) (clock : nat -> Z) (e : Engine) :
  (file = None ->
   same_but_log e (loadEvolutionData extract_row file filepath clock e)) /\
  (forall lines, file = Some lines ->
     List.length
       (evolution_history_
          (loadEvolutionData extract_row file filepath clock e))
     = (List.length lines - 1)%nat /\
     (forall i line, nth_error lines (S i) = Some line ->
        nth_error
          (evolution_history_
             (loadEvolutionData extract_row file filepath clock e)) i
        = Some (restored_entry extract_row (clock i) line)) /\
     (forall h,
        evolution_history_
          (loadEvolutionData extract_row file filepath clock
             (set_evolution_history_ h e))
        = evolution_history_
            (loadEvolutionData extract_row file filepath clock e)) /\
     (forall now, (100 <= List.length lines - 1)%nat ->
        List.length
          (evolution_history_
             (updateEvolutionState now
                (loadEvolutionData extract_row file filepath clock e)))
        = (List.length lines - 1)%nat)).
Proof.
  split; [intros ->; reflexivity|]. intros lines ->.
  unfold loadEvolutionData.
  cbn [evolution_history_ set_evolution_history_ logInfo log set_log_].
  assert (Hlen : List.length
                   (map (fun r => restored_entry extract_row (clock (fst r))
                                                 (snd r))
                        (combine (seq 0 (List.length (tl lines))) (tl lines)))
                 = (List.length lines - 1)%nat).
  { rewrite length_map, length_combine, length_seq, Nat.min_id.
    destruct lines; cbn [tl List.length]; lia. }
  split; [exact Hlen|]. split; [|split; [reflexivity|]].
  - intros i line H. rewrite nth_error_map.
    rewrite (nth_error_numbered (tl lines) 0 i line);
      [reflexivity|now destruct lines].
  - intros now Hbig. unfold updateEvolutionState.
    cbn [evolution_active_ population_manager_ evolution_history_
         current_generation_ set_evolution_history_ logInfo log set_log_].
    destruct (evolution_active_ e), (population_manager_ e);
      cbn [evolution_history_ set_evolution_history_ logInfo log set_log_];
      try exact Hlen.
    rewrite evolution_history_push_full; [exact Hlen|]. now rewrite Hlen.
Qed.

End Restore.

(** X20: [startLongTermEvolution] on a running evolution changes only the
    log; otherwise it sets the counter back to zero and keeps the recorded
    history, so that a history whose latest entry is of a later generation
    no longer follows the counter.  After [stopLongTermEvolution] the
    loop's condition is false, and the history is kept. *)
Theorem startLongTermEvolution_restart (e : Engine) :
  (evolution_active_ e = true -> same_but_log e (startLongTermEvolution e)) /\
  (evolution_active_ e = false ->
   evolution_active_ (startLongTermEvolution e) = true /\
   current_generation_ (startLongTermEvolution e) = 0%Z /\
   evolution_history_ (startLongTermEvolution e) = evolution_history_ e /\
   (forall latest,
      latest_entry (evolution_history_ e) = Some latest ->
      generation latest <> 0%Z ->
      ~ history_tracks (startLongTermEvolution e))) /\
  evolution_continues (stopLongTermEvolution e) = false /\
  evolution_history_ (stopLongTermEvolution e) = evolution_history_ e.
Proof.
  unfold startLongTermEvolution, stopLongTermEvolution.
  split; [intros ->; reflexivity|]. split; [|split; reflexivity].
  intros ->. repeat split.
  intros latest Hl Hg [_ Ht]. apply Hg. exact (Ht latest Hl).
Qed.

(** ** [calculatePopulationDiversity] *)

Section Diversity.

Implicit Types (population : list FitnessIndividual) (param_idx : nat).

Lemma fold_left_ext_in {A B} (f g : A -> B -> A) (l : list B) :
  (forall a b, In b l -> f a b = g a b) ->
  forall a, fold_left f l a = fold_left g l a.
Proof.
  induction l as [|b l IH]; intros H a; [reflexivity|]. cbn [fold_left].
  rewrite (H a b (or_introl eq_refl)). apply IH. intros a' b' Hb.
  apply H. now right.
Qed.

Lemma param_stats_from_filter param_idx population : forall acc,
  param_stats_from param_idx population acc
  = param_stats_from param_idx (filter is_valid population) acc.
Proof.
  unfold param_stats_from.
  induction population as [|x l IH]; intros [[s q] c]; [reflexivity|].
  cbn [fold_left filter]. destruct (is_valid x) eqn:V; cbn [andb fold_left].
  - rewrite V. cbn [andb]. apply IH.
  - apply IH.
Qed.

Lemma param_stats_from_count param_idx population : forall s q c,
  snd (param_stats_from param_idx population (s, q, c))
  <= c + valid_individuals population.
Proof.
  unfold param_stats_from, valid_individuals.
  induction population as [|x l IH]; intros s q c;
    cbn [fold_left filter List.length snd]; [lia|].
  destruct (is_valid x); cbn [andb].
  - destruct (param_idx <? _).
    + etransitivity; [apply IH|]. cbn [List.length]. lia.
    + etransitivity; [apply IH|]. cbn [List.length]. lia.
  - apply IH.
Qed.

Lemma param_stats_from_first_five param_idx population : forall acc,
  param_idx < 5 ->
  param_stats_from param_idx (map first_five population) acc
  = param_stats_from param_idx population acc.
Proof.
  unfold param_stats_from.
  induction population as [|x l IH]; intros [[s q] c] Hi; [reflexivity|].
  cbn [map fold_left first_five fi_parameters is_valid].
  rewrite length_firstn.
  replace (param_idx <? Nat.min 5 (List.length (fi_parameters x)))
    with (param_idx <? List.length (fi_parameters x)).
  2:{ destruct (Nat.ltb_spec param_idx (List.length (fi_parameters x)));
      symmetry; [apply Nat.ltb_lt|apply Nat.ltb_ge]; lia. }
  assert (E : at_index (firstn 5 (fi_parameters x)) param_idx
              = at_index (fi_parameters x) param_idx).
  { unfold at_index. rewrite nth_firstn.
    now destruct (Nat.ltb_spec param_idx 5) as [_|]; [|lia]. }
  rewrite E. now rewrite IH.
Qed.

Lemma total_variance_of_ext (stats stats' : nat -> double * double * nat) :
  (forall param_idx, param_idx < 5 -> stats param_idx = stats' param_idx) ->
  total_variance_of stats = total_variance_of stats'.
Proof.
  intros H. unfold total_variance_of. apply fold_left_ext_in.
  intros a i Hi. rewrite H; [reflexivity|]. apply in_seq in Hi. lia.
Qed.

Lemma total_variance_of_few (stats : nat -> double * double * nat) :
  (forall param_idx, snd (stats param_idx) <= 1) ->
  total_variance_of stats = 0%float.
Proof.
  intros H. unfold total_variance_of.
  assert (G : forall l a,
             fold_left
               (fun total_variance param_idx =>
                  let '(param_sum, param_squared_sum, count) :=
                    stats param_idx in
                  if 1 <? count
                  then let mean := (param_sum / Dbl.of_nat count)%float in
                       let variance :=
                         (param_squared_sum / Dbl.of_nat count
                          - mean * mean)%float
                       in (total_variance + variance)%float
                  else total_variance) l a = a).
  { induction l as [|i l IH]; intros a; [reflexivity|]. cbn [fold_left].
    specialize (H i). destruct (stats i) as [[s q] c]. cbn [snd] in H.
    destruct (Nat.ltb_spec 1 c); [lia|]. apply IH. }
  apply G.
Qed.

Lemma calculatePopulationDiversity_eq population :
  calculatePopulationDiversity population
  = match population with
    | [] => 0%float
    | _ :: _ =>
        (total_variance_of
           (fun param_idx =>
              param_stats_from param_idx population (0%float, 0%float, O))
         / 5)%float
    end.
Proof. reflexivity. Qed.

Lemma zero_variance_diversity : (0 / 5)%float = 0%float.
Proof. vm_compute. reflexivity. Qed.

Lemma diversity_few population :
  valid_individuals population <= 1 ->
  calculatePopulationDiversity population = 0%float.
Proof.
  intros H. rewrite calculatePopulationDiversity_eq.
  destruct population as [|x l]; [reflexivity|].
  rewrite total_variance_of_few; [apply zero_variance_diversity|].
  intros i. etransitivity; [apply param_stats_from_count|]. exact H.
Qed.

(** X21: the diversity of a population is that of its valid individuals
    and looks at the first five parameters of each only; with fewer than two
    valid individuals it is zero. *)
Theorem calculatePopulationDiversity_scope population :
  calculatePopulationDiversity population
  = calculatePopulationDiversity (filter is_valid population) /\
  calculatePopulationDiversity (map first_five population)
  = calculatePopulationDiversity population /\
  (valid_individuals population <= 1 ->
   calculatePopulationDiversity population = 0%float).
Proof.
  split; [|split; [|apply diversity_few]].
  - destruct (filter is_valid population) as [|y l'] eqn:F.
    + rewrite diversity_few; [reflexivity|].
      unfold valid_individuals. rewrite F. cbn. lia.
    + rewrite <- F. rewrite !calculatePopulationDiversity_eq.
      destruct population as [|x l]; [discriminate|]. rewrite F at 1.
      f_equal. apply total_variance_of_ext. intros i _.
      apply param_stats_from_filter.
  - rewrite !calculatePopulationDiversity_eq.
    destruct population as [|x l]; [reflexivity|]. cbn [map].
    f_equal. apply total_variance_of_ext. intros i Hi.
    now apply (param_stats_from_first_five i (x :: l)).
Qed.

End Diversity.

(** ** More on the frontier and the optimal point *)

Lemma lt_trans a b c : lt a b = true -> lt b c = true -> lt a c = true.
Proof. intros H1 H2. apply (lt_le_trans a b c H1). now apply lt_le. Qed.

Lemma lt_asym a b : lt a b = true -> lt b a = false.
Proof.
  intros H. destruct (lt b a) eqn:E; [|reflexivity].
  pose proof (lt_trans a b a H E) as X. now rewrite lt_irrefl in X.
Qed.

(** X22: the frontier of a non-empty list of points is not empty, and
    computing the frontier of a frontier changes nothing. *)
Theorem calculateParetoFrontier_idempotent (points : list ParetoPoint) :
  calculateParetoFrontier (calculateParetoFrontier points)
  = calculateParetoFrontier points /\
  (points <> [] -> calculateParetoFrontier points <> []).
Proof.
  split.
  - rewrite (calculateParetoFrontier_filter (calculateParetoFrontier points)).
    apply filter_all. intros p Hp. apply has_no_dominator_spec.
    intros o Ho. rewrite calculateParetoFrontier_filter in Hp, Ho.
    apply filter_In in Hp as [_ Hp], Ho as [Ho _].
    exact (proj1 (has_no_dominator_spec points p) Hp o Ho).
  - destruct points as [|p rest]; [congruence|]. intros _ Hempty.
    destruct (has_no_dominator (p :: rest) p) eqn:E.
    + assert (In p (calculateParetoFrontier (p :: rest))).
      { rewrite calculateParetoFrontier_filter. apply filter_In.
        split; [now left|exact E]. }
      now rewrite Hempty in *.
    + destruct (dominated_by_frontier (p :: rest)
                  (S (List.length (dominators (p :: rest) p))) p)
        as (r & Hr & _); [lia|now left|exact E|].
      now rewrite Hempty in Hr.
Qed.

Section Best.

Variable scene : SceneType.

(** The loop ends with a best score that no point of the frontier exceeds:
    the one it was entered with, or the returned point's, then above the
    former. *)
Lemma optimal_loop_best frontier : forall best_score optimal,
  exists final_score,
    ((final_score = best_score /\
      optimal_loop scene best_score optimal frontier = optimal) \/
     (In (optimal_loop scene best_score optimal frontier) frontier /\
      final_score
      = point_score scene (optimal_loop scene best_score optimal frontier) /\
      lt best_score final_score = true)) /\
    forall q, In q frontier -> lt final_score (point_score scene q) = false.
Proof.
  induction frontier as [|p rest IH]; intros best_score optimal.
  - exists best_score. split; [now left|]. intros q [].
  - cbn [optimal_loop].
    change (gt (point_score scene p) best_score)
      with (lt best_score (point_score scene p)).
    destruct (lt best_score (point_score scene p)) eqn:E.
    + destruct (IH (point_score scene p) p) as (fs & [[-> ->]|(Hin & -> & Hgt)]
                                                  & Hall).
      * exists (point_score scene p). split.
        -- right. split; [now left|]. split; [reflexivity|exact E].
        -- intros q [<-|Hq]; [apply lt_irrefl|now apply Hall].
      * eexists. split.
        -- right. split; [now right|]. split; [reflexivity|].
           exact (lt_trans _ _ _ E Hgt).
        -- intros q [<-|Hq]; [now apply lt_asym|now apply Hall].
    + destruct (IH best_score optimal) as (fs & [[-> ->]|(Hin & -> & Hgt)]
                                             & Hall).
      * exists best_score. split; [now left|].
        intros q [<-|Hq]; [exact E|now apply Hall].
      * eexists. split.
        -- right. split; [now right|]. split; [reflexivity|exact Hgt].
        -- intros q [<-|Hq]; [|now apply Hall].
           destruct (lt (point_score scene
                           (optimal_loop scene best_score optimal rest))
                        (point_score scene p)) eqn:F; [|reflexivity].
           now rewrite (lt_trans _ _ _ Hgt F) in E.
Qed.

End Best.

(** X23: when some point of the frontier scores above -1,
    [findOptimalPoint] returns a point of the frontier that scores above -1
    and that no point of the frontier outscores; when the frontier is not
    empty and no point scores above -1, it returns its uninitialised
    local. *)
Theorem findOptimalPoint_best (cfg : Config) (junk : Indeterminate)
  (frontier : list ParetoPoint) :
  (existsb (fun p => gt (point_score (current_scene cfg) p) (-1)) frontier
   = true ->
   In (findOptimalPoint cfg junk frontier) frontier /\
   gt (point_score (current_scene cfg) (findOptimalPoint cfg junk frontier))
      (-1) = true /\
   forall q, In q frontier ->
     gt (point_score (current_scene cfg) q)
        (point_score (current_scene cfg) (findOptimalPoint cfg junk frontier))
     = false) /\
  (frontier <> [] ->
   existsb (fun p => gt (point_score (current_scene cfg) p) (-1)) frontier
   = false ->
   findOptimalPoint cfg junk frontier = ParetoPoint_uninitialized junk).
Proof.
  split.
  - intros Hex. destruct frontier as [|p rest]; [discriminate|].
    unfold findOptimalPoint.
    pose proof (optimal_loop_In (current_scene cfg) (p :: rest) (-1)
                  (ParetoPoint_uninitialized junk) Hex) as Hin.
    destruct (optimal_loop_best (current_scene cfg) (p :: rest) (-1)
                (ParetoPoint_uninitialized junk))
      as (fs & [[-> Heq]|(_ & -> & Hgt)] & Hall).
    + exfalso. apply existsb_exists in Hex as (q & Hq & Hs).
      change (lt (-1) (point_score (current_scene cfg) q) = true) in Hs.
      now rewrite (Hall q Hq) in Hs.
    + split; [exact Hin|]. split; [exact Hgt|exact Hall].
  - intros Hne Hex. destruct frontier as [|p rest]; [congruence|].
    unfold findOptimalPoint. now apply optimal_loop_none.
Qed.

(** ** Evolved weights *)

(** X24: steps 2 and 3 of the integrated scheduling take the weights from
    the best individual as they are: with five parameters or more the first
    four become the four weights, with three or four the first three become
    the first three weights and the thermal weight stays, with fewer no
    weight changes; nothing else of the configuration changes, and without a
    population manager the engine is left as it was. *)
Theorem evolutionary_weights (e : Engine) :
  let e' := combineTraditionalAndEvolutionary (applyEvolutionaryParameters e)
  in
  match population_manager_ e with
  | None => e' = e
  | Some pm =>
      let parameters := fi_parameters (getBestIndividual pm) in
      without_weights (config_ e') = without_weights (config_ e) /\
      (5 <= List.length parameters ->
       weights (config_ e')
       = (at_index parameters 0, at_index parameters 1,
          at_index parameters 2, at_index parameters 3) /\
       same_but_log (applyEvolutionaryParameters e) e') /\
      (3 <= List.length parameters < 5 ->
       weights (config_ e')
       = (at_index parameters 0, at_index parameters 1,
          at_index parameters 2, thermal_weight (config_ e)) /\
       same_but_log e (applyEvolutionaryParameters e)) /\
      (List.length parameters < 3 -> same_but_log e e')
  end.
Proof.
  unfold combineTraditionalAndEvolutionary, applyEvolutionaryParameters.
  destruct (population_manager_ e) as [pm|] eqn:E; cbn zeta;
    [|now rewrite E].
  set (parameters := fi_parameters (getBestIndividual pm)).
  destruct (Nat.leb_spec 5 (List.length parameters)) as [H5|H5];
    cbn [population_manager_ logInfo log set_log_ set_config_ config_];
    rewrite E; fold parameters;
    destruct (Nat.leb_spec 3 (List.length parameters)) as [H3|H3];
    try lia;
    cbn [population_manager_ logInfo log set_log_ set_config_ config_
         set_weights thermal_weight weights without_weights
         responsiveness_weight fluency_weight efficiency_weight];
    (split; [reflexivity|]);
    (split; [intros ?; try lia|]); try (split; [intros ?; try lia|]);
    try (intros ?; try lia); try (split; reflexivity); try reflexivity.
Qed.

(** ** The command line *)

Section CommandLine.

Import Main.

Lemma parse_arguments_plain (args : list string) : forall o,
  Forall (fun arg => plain arg = true) args ->
  parse_arguments args o
  = inr {| config_path := config_path o;
           daemon_mode := daemon_mode o || existsb is_daemon args;
           test_mode := test_mode o || existsb is_test args;
           status_mode := status_mode o || existsb is_status args |}.
Proof.
  induction args as [|arg rest IH]; intros o Hplain.
  - cbn [parse_arguments existsb]. rewrite !orb_false_r. now destruct o.
  - apply Forall_cons_iff in Hplain as [Ha Hrest].
    unfold plain in Ha. apply negb_true_iff in Ha.
    apply orb_false_iff in Ha as [Ha Hc]. apply orb_false_iff in Ha as [Hh Hv].
    cbn [parse_arguments existsb]. rewrite Hh, Hv, Hc.
    destruct (is_daemon arg) eqn:D.
    + rewrite (IH _ Hrest). cbn [config_path daemon_mode test_mode status_mode].
      assert (T : is_test arg = false /\ is_status arg = false).
      { unfold is_daemon, is_test, is_status in *.
        apply orb_true_iff in D as [D|D]; apply String.eqb_eq in D; subst arg;
          split; reflexivity. }
      destruct T as [-> ->]. cbn [orb]. now rewrite orb_true_r.
    + destruct (is_test arg) eqn:T.
      * rewrite (IH _ Hrest).
        cbn [config_path daemon_mode test_mode status_mode].
        assert (S : is_status arg = false).
        { unfold is_test, is_status in *. apply String.eqb_eq in T.
          now subst arg. }
        rewrite S. cbn [orb]. now rewrite orb_true_r.
      * destruct (is_status arg) eqn:S.
        -- rewrite (IH _ Hrest).
           cbn [config_path daemon_mode test_mode status_mode orb].
           now rewrite orb_true_r.
        -- rewrite (IH _ Hrest). reflexivity.
Qed.

Lemma parse_arguments_app (before : list string) : forall after o,
  Forall (fun arg => plain arg = true) before ->
  parse_arguments (before ++ after) o
  = match parse_arguments before o with
    | inr o' => parse_arguments after o'
    | inl printed => inl printed
    end.
Proof.
  induction before as [|arg rest IH]; intros after o Hplain; [reflexivity|].
  apply Forall_cons_iff in Hplain as [Ha Hrest].
  unfold plain in Ha. apply negb_true_iff in Ha.
  apply orb_false_iff in Ha as [Ha Hc]. apply orb_false_iff in Ha as [Hh Hv].
  cbn [app parse_arguments]. rewrite Hh, Hv, Hc.
  destruct (is_daemon arg); [now apply IH|].
  destruct (is_test arg); [now apply IH|].
  destruct (is_status arg); now apply IH.
Qed.

(** X25: on a command line without the help, version and config options,
    [main] looks only at which of the mode options occur, in any order and
    any number of times, and test mode goes before status mode and both
    before running the engine; every other word is ignored.  The word after
    a config option is taken as the path whatever it is, an option
    included, and a config option that comes last is ignored. *)
Theorem main_arguments (MODPATH : option string) :
  (forall args,
     Forall (fun arg => plain arg = true) args ->
     main MODPATH args
     = if existsb is_test args then RunTest
       else if existsb is_status args then RunStatus
       else RunEngine (config_path (initial_options MODPATH))
                      (existsb is_daemon args)) /\
  (forall before option value,
     Forall (fun arg => plain arg = true) before ->
     is_config option = true ->
     main MODPATH (before ++ [option; value])
     = if existsb is_test before then RunTest
       else if existsb is_status before then RunStatus
       else RunEngine value (existsb is_daemon before)) /\
  (forall before option,
     Forall (fun arg => plain arg = true) before ->
     is_config option = true ->
     main MODPATH (before ++ [option]) = main MODPATH before).
Proof.
  assert (Hopt : forall option, is_config option = true ->
                   is_help option = false /\ is_version option = false).
  { intros option H. unfold is_config, is_help, is_version in *.
    apply orb_true_iff in H as [H|H]; apply String.eqb_eq in H; subst option;
      split; reflexivity. }
  split; [|split].
  - intros args Hplain. unfold main.
    rewrite (parse_arguments_plain args _ Hplain).
    cbn [config_path daemon_mode test_mode status_mode initial_options orb].
    reflexivity.
  - intros before option value Hplain Hc. unfold main.
    destruct (Hopt option Hc) as [Hh Hv].
    rewrite (parse_arguments_app before _ _ Hplain),
            (parse_arguments_plain before _ Hplain).
    cbn [parse_arguments]. rewrite Hh, Hv, Hc.
    cbn [config_path daemon_mode test_mode status_mode initial_options orb].
    reflexivity.
  - intros before option Hplain Hc. unfold main.
    destruct (Hopt option Hc) as [Hh Hv].
    rewrite (parse_arguments_app before _ _ Hplain),
            (parse_arguments_plain before _ Hplain).
    cbn [parse_arguments]. rewrite Hh, Hv, Hc.
    reflexivity.
Qed.

End CommandLine.

(** ** The further theorems at concrete inputs *)

(** With eight cores, the foreground task of priority 10 is bound to
    core 2. *)
Lemma apply_policy_core_example :
  option_map (fun r => affinity_calls (snd r))
    (apply_policy permissive_kernel 8 (binding_engine, []) priority_10_task)
  = Some [(1234, [2])]%Z /\
  (0 <= 2 < 8)%Z.
Proof.
  apply (apply_policy_core permissive_kernel 8 binding_engine
           priority_10_task).
  - vm_compute. split; [reflexivity|discriminate].
  - vm_compute. discriminate.
  - reflexivity.
Defined.

(** After twelve samples on a new monitor the index is 2, the latest sample
    sits in slot 1 and the third latest in slot 9. *)
Lemma addSamples_window_example :
  sample_index (addSamples twelve_samples PerformanceMonitor_new) = 2 /\
  at_index (cpu_usage_samples (addSamples twelve_samples PerformanceMonitor_new))
           1 = 12%float /\
  at_index (memory_usage_samples
              (addSamples twelve_samples PerformanceMonitor_new)) 9
  = 100%float.
Proof.
  destruct (addSamples_window PerformanceMonitor_new twelve_samples)
    as (_ & Hindex & Hlatest & _).
  - repeat split. cbn. lia.
  - split; [exact Hindex|]. split.
    + exact (proj1 (Hlatest 0 ltac:(cbn; lia) ltac:(lia))).
    + exact (proj2 (Hlatest 2 ltac:(cbn; lia) ltac:(lia))).
Defined.

(** The configuration saved from an engine set to the game scene, loaded
    into a new engine: no exception, and the new engine's scene preference is
    still unknown. *)
Lemma saveConfig_loadConfig_roundtrip_example :
  snd (loadConfig stod_quarter
         (fst (saveConfig show_quarter all_writable no_files config_path
                 game_scene_engine))
         config_path example_engine)
  = Returned /\
  current_scene (config_ game_scene_engine) = SCENE_GAME /\
  current_scene
    (config_
       (fst (loadConfig stod_quarter
               (fst (saveConfig show_quarter all_writable no_files
                       config_path game_scene_engine))
               config_path example_engine)))
  = SCENE_UNKNOWN.
Proof.
  destruct (saveConfig_loadConfig_roundtrip stod_quarter show_quarter
              all_writable no_files config_path game_scene_engine
              example_engine 0.25 0.25 0.25 0.25)
    as (Hreturned & _ & Hscene);
    [reflexivity|left; reflexivity|vm_compute; split; discriminate
    |reflexivity|reflexivity|reflexivity|reflexivity|].
  split; [exact Hreturned|]. split; [reflexivity|exact Hscene].
Defined.

(** Two generations short of the limit, two iterations end the loop. *)
Lemma evolutionMainLoop_terminates_example :
  evolution_continues late_engine = true /\
  evolution_continues
    (evolutionMainLoop [quiet_iteration; quiet_iteration] late_engine)
  = false.
Proof.
  split; [reflexivity|].
  apply (evolutionMainLoop_terminates [quiet_iteration; quiet_iteration]
           late_engine).
  - repeat constructor.
  - vm_compute. discriminate.
Defined.

(** Two iterations whose fitness evaluation throws leave the loop where it
    was. *)
Lemma evolutionMainLoop_stalls_example :
  evolution_continues
    (evolutionMainLoop [throwing_iteration; throwing_iteration]
       (evolving_engine []))
  = true.
Proof.
  destruct (evolutionMainLoop_stalls [throwing_iteration; throwing_iteration]
              (evolving_engine [])) as [_ H].
  - discriminate.
  - repeat constructor; discriminate.
  - rewrite H. reflexivity.
Defined.

(** From an empty history, twelve iterations are offered; the population
    does not change, so the check stops the evolution in generation 10, and
    the ten entries are those of generations 1 to 10. *)
Lemma evolutionMainLoop_history_tracks_example :
  history_tracks
    (evolutionMainLoop (repeat quiet_iteration 12) (evolving_engine [])) /\
  current_generation_
    (evolutionMainLoop (repeat quiet_iteration 12) (evolving_engine []))
  = 10%Z /\
  map generation
      (evolution_history_
         (evolutionMainLoop (repeat quiet_iteration 12) (evolving_engine [])))
  = [1; 2; 3; 4; 5; 6; 7; 8; 9; 10]%Z.
Proof.
  destruct (evolutionMainLoop_history_tracks (repeat quiet_iteration 12)
              (evolving_engine [])) as (Htracks & _ & _).
  - discriminate.
  - split; [exact I|]. intros latest H. discriminate H.
  - split; [exact Htracks|]. split; vm_compute; reflexivity.
Defined.
